(** * claude-session-browser: a verification of the Go program

    A shallow embedding of the Go packages [search] (filter.go, content.go,
    engine.go), [model], [parser] and [ui], and of the helpers of main.go;
    a verification of the properties the specification states of the
    search core, and of further properties of the program.

    Part I, the model:
    - [GoInt]    Go's 64-bit [int] with its wrap-around.
    - [Strings]  Go strings as byte strings: [len], slice expressions (out of
                 range they panic: [None]), [strings.Index],
                 [strings.Contains].
    - [Extract]  [extractContext], its windows, the field the code locates
                 and the field the specification means.
    - [Float64], [fuzzy], [iface], [error], [context], [bufio]: what the
                 package takes from the standard library and from the fuzzy
                 matcher.
    - [Search]   the data model, [Filter], [searchFile], and [SearchContent]
                 with its workers as a transition system over the
                 goroutines, the two channels and the caller's context.
    - [Example]  a concrete world: transcripts, a search tool, the matcher.
    - [StringsLib], [Filepath], [FilepathClean], [Utf8], [Unicode],
      [StringsFields], [bufioMax]: more of the standard library.
    - [Model], [Main], [Parser]: session IDs, the helpers of main.go,
      [ListSessions] and [ParseFullSession] over a file system.
    - [Highlight], [UiText]: [HighlightText] and [wrapText].
    - [Engine], [Ui], [UiSearch]: the engine over both searches; the model
      of the application, [Update] as a state machine over its messages,
      and the search command, which reads the model while [Update] changes
      it.
    - [ExampleFiles], [ExampleUi]: a directory of transcripts; the
      application at the keyboard.

    Part II, the facts: byte strings, the windows of [extractContext], the
    invariant of every run of [SearchContent], [Filter], the scanner loop;
    paths, the parser, the scanner's buffer, UTF-8, [wrapText], [Update].

    Part III, the properties of the specification, C1 to C10, and their
    instances in the concrete world.

    Part IV, properties of the rest of the program, and their instances. *)


From Stdlib Require Import ZArith String Ascii List Lia Floats.
From stdpp Require Import base option list strings gmap pretty.

Set Warnings "-register-all".

(* ##################################################################### *)
(** * Part I: the model *)
(* ##################################################################### *)

(* ===================================================================== *)
(** ** Go's [int] on a 64-bit platform *)
(* ===================================================================== *)

Module GoInt.
Local Open Scope Z_scope.

Definition min_int : Z := - 2 ^ 63.
Definition max_int : Z := 2 ^ 63 - 1.

(** Two's complement wrap-around of a mathematical integer into [int]. *)
Definition wrap (z : Z) : Z := (z + 2 ^ 63) mod 2 ^ 64 - 2 ^ 63.

Definition add (a b : Z) : Z := wrap (a + b).
Definition sub (a b : Z) : Z := wrap (a - b).

Definition in_range (z : Z) : Prop := min_int <= z <= max_int.

End GoInt.

(* ===================================================================== *)
(** ** Go strings: byte sequences *)
(* ===================================================================== *)

Module Strings.
Local Open Scope Z_scope.

(** The one-byte string holding a double quote (byte 34). *)
Definition dquote : string := String "034"%char EmptyString.

(** [len(s)] *)
Definition len (s : string) : Z := Z.of_nat (String.length s).

(** [s[lo:hi]]: panics ([None]) unless [0 <= lo <= hi <= len(s)]. *)
Definition slice (s : string) (lo hi : Z) : option string :=
  if (0 <=? lo) && (lo <=? hi) && (hi <=? len s)
  then Some (substring (Z.to_nat lo) (Z.to_nat (hi - lo)) s)
  else None.

(** [s[lo:]] *)
Definition slice_from (s : string) (lo : Z) : option string :=
  slice s lo (len s).

(** The offset of the first occurrence of [substr] in [s], if any. *)
Fixpoint index_nat (s substr : string) : option nat :=
  if String.prefix substr s then Some O
  else match s with
       | EmptyString => None
       | String _ s' => S <$> index_nat s' substr
       end.

(** [strings.Index(s, substr)]: [-1] when [substr] does not occur. *)
Definition Index (s substr : string) : Z :=
  match index_nat s substr with
  | Some i => Z.of_nat i
  | None => -1
  end.

(** [strings.Contains(s, substr)] *)
Definition Contains (s substr : string) : bool := Index s substr >=? 0.

(** What is left of [s] after its first [n] bytes. *)
Fixpoint drop_bytes (n : nat) (s : string) : string :=
  match n, s with
  | O, _ => s
  | S n', String _ s' => drop_bytes n' s'
  | S _, EmptyString => EmptyString
  end.

(** [substr] occurs in [s] at offset [i] and at no smaller offset. *)
Definition first_occurrence (substr s : string) (i : nat) : Prop :=
  (i <= String.length s)%nat /\
  String.prefix substr (drop_bytes i s) = true /\
  forall j, (j < i)%nat -> String.prefix substr (drop_bytes j s) = false.

End Strings.

(* ===================================================================== *)
(** ** content.go: extractContext *)
(* ===================================================================== *)

Module Extract.
Import GoInt Strings.
Local Open Scope Z_scope.

(** The literal that opens the embedded text field: the word content
    between double quotes, a colon, and the opening double quote. *)
Definition content_key : string :=
  dquote +:+ "content" +:+ dquote +:+ ":" +:+ dquote.

Definition ellipsis : string := "...".

(** The tail of [extractContext]: 30 bytes each side within the whole line. *)
Definition genericContext (text : string) (matchStart matchEnd : Z)
  : option string :=
  let contextStart := sub matchStart 30 in
  let contextStart := if contextStart <? 0 then 0 else contextStart in
  let contextEnd := add matchEnd 30 in
  let contextEnd := if contextEnd >? len text then len text else contextEnd in
  body ← slice text contextStart contextEnd;
  Some ((if contextStart >? 0 then ellipsis else "")
        +:+ body
        +:+ (if contextEnd <? len text then ellipsis else "")).

(** [extractContext(text, matchStart, matchEnd)]; [None] is a slice-bounds
    panic. *)
Definition extractContext (text : string) (matchStart matchEnd : Z)
  : option string :=
  if Contains text content_key then
    let contentStart := Index text content_key in
    if negb (contentStart =? -1) then
      let contentStart := add contentStart (len content_key) in
      rest ← slice_from text contentStart;
      let contentEnd := Index rest dquote in
      if negb (contentEnd =? -1) then
        content ← slice text contentStart (add contentStart contentEnd);
        if (matchStart >=? contentStart)
           && (matchStart <? add contentStart contentEnd) then
          let posInContent := sub matchStart contentStart in
          let contextStart := sub posInContent 50 in
          let contextStart := if contextStart <? 0 then 0 else contextStart in
          let contextEnd :=
            add (add posInContent (sub matchEnd matchStart)) 50 in
          let contextEnd :=
            if contextEnd >? len content then len content else contextEnd in
          body ← slice content contextStart contextEnd;
          Some ((if contextStart >? 0 then ellipsis else "")
                +:+ body
                +:+ (if contextEnd <? len content then ellipsis else ""))
        else genericContext text matchStart matchEnd
      else genericContext text matchStart matchEnd
    else genericContext text matchStart matchEnd
  else genericContext text matchStart matchEnd.

(** *** Windows and the field the code locates *)

(** A window of [radius] bytes before [s] and after [e] inside [field],
    clipped to the bounds of [field]; an ellipsis marks each side on which
    bytes of [field] are left out. *)
Definition window (radius : Z) (field : string) (s e : Z) : string :=
  let lo := Z.max 0 (s - radius) in
  let hi := Z.min (len field) (e + radius) in
  (if 0 <? lo then ellipsis else "")
  +:+ substring (Z.to_nat lo) (Z.to_nat (hi - lo)) field
  +:+ (if hi <? len field then ellipsis else "").

(** What the code takes for the embedded field of [text], the bytes
    [fs, fe): from right after the first [content_key] up to the next
    double quote byte, whether or not a backslash escapes that quote. *)
Definition located_field (text : string) (fs fe : Z) : Prop :=
  exists i j : nat,
    first_occurrence content_key text i /\
    fs = Z.of_nat i + len content_key /\
    first_occurrence dquote (drop_bytes (Z.to_nat fs) text) j /\
    fe = fs + Z.of_nat j.

(** The code locates no field in [text]. *)
Definition no_located_field (text : string) : Prop :=
  forall fs fe, ~ located_field text fs fe.

(** The bytes of the located field. *)
Definition field_text (text : string) (fs fe : Z) : string :=
  substring (Z.to_nat fs) (Z.to_nat (fe - fs)) text.

(** *** The field as the specification means it

    These two definitions follow the specification's words, the embedded
    content field of the record, and not the code: the field is the JSON
    string that follows the key, and it ends at the first double quote
    that no backslash escapes. *)

(** The number of bytes before the double quote that closes the string
    literal whose text [s] starts with. [escaped] tells that the byte
    before was an escaping backslash. *)
Fixpoint literal_length (s : string) (escaped : bool) : option nat :=
  match s with
  | EmptyString => None
  | String c rest =>
      if escaped then S <$> literal_length rest false
      else if Ascii.eqb c "092"%char then S <$> literal_length rest true
      else if Ascii.eqb c "034"%char then Some O
      else S <$> literal_length rest false
  end.

(** The embedded content field of [text] spans the bytes [fs, fe). *)
Definition embedded_field (text : string) (fs fe : Z) : Prop :=
  exists i j : nat,
    first_occurrence content_key text i /\
    fs = Z.of_nat i + len content_key /\
    literal_length (drop_bytes (Z.to_nat fs) text) false = Some j /\
    fe = fs + Z.of_nat j.

(** The raw line of the specification's example. *)
Definition example_line : string :=
  "{" +:+ dquote +:+ "type" +:+ dquote +:+ ":" +:+ dquote +:+ "message" +:+ dquote
  +:+ "," +:+ dquote +:+ "role" +:+ dquote +:+ ":" +:+ dquote +:+ "user" +:+ dquote
  +:+ "," +:+ dquote +:+ "content" +:+ dquote +:+ ":" +:+ dquote
  +:+ "I need help with OAuth implementation" +:+ dquote +:+ "}".

Definition type_message : string :=
  dquote +:+ "type" +:+ dquote +:+ ":" +:+ dquote +:+ "message" +:+ dquote.

Definition backslash : string := String "092"%char EmptyString.

(** A record whose content holds two escaped double quotes, around the
    word OAuth: the text of the content, and the record. *)
Definition escaped_content : string :=
  "say " +:+ backslash +:+ dquote +:+ "OAuth" +:+ backslash +:+ dquote
  +:+ " now".

Definition escaped_line : string :=
  "{" +:+ content_key +:+ escaped_content +:+ dquote +:+ "}".

(** The line is short enough for the window arithmetic not to wrap around:
    a Go string is bounded by the address space, far below [max_int - 50]. *)
Definition fits_int (text : string) : Prop := len text + 50 <= max_int.

End Extract.

(* ===================================================================== *)
(** ** What the package takes from outside: floats, the fuzzy matcher,
       JSON values, errors, contexts, the line scanner *)
(* ===================================================================== *)

(** Go's [float64] is the kernel's binary64 float. *)
Module Float64.
Local Open Scope Z_scope.

(** [float64(n)] for an [int] [n]: the nearest float, ties to even. *)
Definition of_int (n : Z) : float :=
  SF2Prim (binary_normalize prec emax n 0 false).

(** [int(f)]: truncation towards zero; a value outside of [int] (an
    infinity and a NaN too) gives [min_int], as on amd64. *)
Definition to_int (f : float) : Z :=
  match Prim2SF f with
  | S754_zero _ => 0
  | S754_finite neg m e =>
      let mag := if 0 <=? e then Z.pos m * 2 ^ e else Z.pos m / 2 ^ (- e) in
      let v := if neg then - mag else mag in
      if (GoInt.min_int <=? v) && (v <=? GoInt.max_int) then v
      else GoInt.min_int
  | _ => GoInt.min_int
  end.

End Float64.

(** The third-party matcher github.com/sahilm/fuzzy: one reported match. *)
Module fuzzy.

Record Match := {
  Str : string;              (* the matched source string *)
  Index : Z;                 (* its position in the source *)
  MatchedIndexes : list Z;   (* the matched character positions *)
  Score : Z                  (* higher is better *)
}.

(** *** The function [FindFrom]

    The library is not part of the repository. What follows is its
    function [FindFrom] on the inputs the examples need: a pattern of one
    ASCII character, source strings of ASCII bytes other than 0 (every
    byte is then one rune), and at most 20 matches (which [sort.Stable]
    sorts by insertion alone). On any other input the model gives no
    answer. With one character in the pattern no bonus for adjacent
    matches arises. *)

Definition firstCharMatchBonus : Z := 10.
Definition matchFollowingSeparatorBonus : Z := 20.
Definition camelCaseMatchBonus : Z := 20.
Definition unmatchedLeadingCharPenalty : Z := -5.
Definition maxUnmatchedLeadingCharPenalty : Z := -15.

(** The rune of an ASCII byte. *)
Definition rune (c : ascii) : Z := Z.of_N (N_of_ascii c).

(** Every byte is an ASCII byte other than 0. *)
Fixpoint plain (s : string) : bool :=
  match s with
  | EmptyString => true
  | String c rest => (0 <? rune c)%Z && (rune c <? 128)%Z && plain rest
  end.

(** [isSeparator]: one of the runes of [/-_ .\]. *)
Definition isSeparator (s : Z) : bool :=
  ((s =? 47) || (s =? 45) || (s =? 95) || (s =? 32) || (s =? 46)
   || (s =? 92))%Z.

(** [unicode.IsLower] and [unicode.IsUpper] on ASCII. *)
Definition IsLower (r : Z) : bool := ((97 <=? r) && (r <=? 122))%Z.
Definition IsUpper (r : Z) : bool := ((65 <=? r) && (r <=? 90))%Z.

(** [equalFold] on ASCII: equal, or an upper-case letter and its
    lower-case letter. *)
Definition equalFold (tr sr : Z) : bool :=
  if (tr =? sr)%Z then true
  else
    let '(tr, sr) := if (tr <? sr)%Z then (sr, tr) else (tr, sr) in
    ((65 <=? sr) && (sr <=? 90) && (tr =? sr + 32))%Z.

(** The loop over the bytes of one source string, for the rune [p] of
    the pattern: [j] is the offset of the byte, [last] the rune before
    it, [bestScore] and [matchedIndex] the best candidate so far. *)
Fixpoint best_match (p : Z) (s : string) (j last bestScore matchedIndex : Z)
  : Z * Z :=
  match s with
  | EmptyString => (bestScore, matchedIndex)
  | String c rest =>
      let candidate := rune c in
      let '(bestScore, matchedIndex) :=
        if equalFold candidate p then
          let score := 0%Z in
          let score :=
            if (j =? 0)%Z then GoInt.add score firstCharMatchBonus
            else score in
          let score :=
            if IsLower last && IsUpper candidate
            then GoInt.add score camelCaseMatchBonus else score in
          let score :=
            if negb (j =? 0)%Z && isSeparator last
            then GoInt.add score matchFollowingSeparatorBonus else score in
          if (score >? bestScore)%Z then (score, j)
          else (bestScore, matchedIndex)
        else (bestScore, matchedIndex) in
      best_match p rest (GoInt.add j 1) candidate bestScore matchedIndex
  end.

(** The match for the source string [str] at position [i], if the rune
    occurs in it: the best candidate is applied when the string ends,
    with the penalty for the characters before it, and every unmatched
    character costs one point. *)
Definition match_of (p : Z) (i : Z) (str : string) : option Match :=
  let '(bestScore, matchedIndex) := best_match p str 0 0 (-1) (-1) in
  if (matchedIndex >? -1)%Z then
    let penalty := GoInt.wrap (matchedIndex * unmatchedLeadingCharPenalty) in
    let bestScore :=
      GoInt.add bestScore (Z.max penalty maxUnmatchedLeadingCharPenalty) in
    Some {| Str := str; Index := i; MatchedIndexes := [matchedIndex];
            Score := GoInt.add bestScore (GoInt.sub 1 (Strings.len str)) |}
  else None.

(** The loop over the source: the matches in the order of the source. *)
Fixpoint matches_from (p : Z) (source : list string) (i : Z) : list Match :=
  match source with
  | [] => []
  | str :: rest =>
      match match_of p i str with
      | Some m => m :: matches_from p rest (GoInt.add i 1)
      | None => matches_from p rest (GoInt.add i 1)
      end
  end.

(** [insertionSort] with the library's [Less(i, j)], which is
    [a[i].Score >= a[j].Score]: the new element moves towards the front
    past every element whose score is not greater than its own. [sorted]
    holds the sorted part, its last element first. *)
Fixpoint insert (x : Match) (sorted : list Match) : list Match :=
  match sorted with
  | [] => [x]
  | y :: rest =>
      if (Score x >=? Score y)%Z then y :: insert x rest else x :: sorted
  end.

(** [sort.Stable(matches)] for at most 20 matches. *)
Definition insertionSort (matches : list Match) : list Match :=
  rev (fold_left (fun sorted x => insert x sorted) matches []).

(** [FindFrom(pattern, source)]; [None]: outside of the model. *)
Definition FindFrom (pattern : string) (source : list string)
  : option (list Match) :=
  match pattern with
  | EmptyString => Some []
  | String c EmptyString =>
      if plain pattern && forallb plain source then
        let matches := matches_from (rune c) source 0 in
        if (length matches <=? 20)%nat then Some (insertionSort matches)
        else None
      else None
  | _ => None
  end.

End fuzzy.

(** A value of type [interface{}] as encoding/json decodes it. *)
Inductive iface : Type :=
| INil
| IBool (b : bool)
| IFloat64 (f : float)
| IString (s : string)
| IArray (l : list iface)
| IObject (m : gmap string iface).

(** The errors the package meets. *)
Inductive error : Type :=
| ExitError (code : Z)     (* *exec.ExitError: the process ran and failed *)
| ErrNotFound              (* exec.ErrNotFound: no such executable *)
| ErrOther (msg : string)  (* any other failure to start or to read *)
| Canceled                 (* context.Canceled *)
| DeadlineExceeded.        (* context.DeadlineExceeded *)

(** A [context.Context] as the package observes it. *)
Inductive context : Type :=
| Background               (* never done *)
| Pending (err : error)    (* not done yet; may become done at any time *)
| Done (err : error).      (* done; [ctx.Err()] is [err] *)

(** [bufio.Scanner] over the tool's output with the default split function
    and the default buffer. *)
Module bufio.

Definition MaxScanTokenSize : Z := 64 * 1024.

(** Cut at every line feed; a last piece with no line feed is a line too,
    unless it is empty. [cur] holds the bytes of the line being read. *)
Fixpoint split_lines (s : string) (cur : string) : list string :=
  match s with
  | EmptyString =>
      match cur with EmptyString => [] | _ => [cur] end
  | String c s' =>
      if Ascii.eqb c "010"%char
      then cur :: split_lines s' EmptyString
      else split_lines s' (cur +:+ String c EmptyString)
  end.

(** One trailing carriage return is dropped from a line. *)
Fixpoint dropCR (line : string) : string :=
  match line with
  | EmptyString => EmptyString
  | String c EmptyString =>
      if Ascii.eqb c "013"%char then EmptyString else line
  | String c rest => String c (dropCR rest)
  end.

(** The lines [Scan] delivers: scanning stops for good at the first line
    that does not fit the buffer. *)
Fixpoint deliver (lines : list string) : list string :=
  match lines with
  | [] => []
  | l :: rest =>
      if (Strings.len l <? MaxScanTokenSize)%Z
      then dropCR l :: deliver rest
      else []
  end.

Definition ScanLines (output : string) : list string :=
  deliver (split_lines output EmptyString).

End bufio.

(* ===================================================================== *)
(** ** The package search: data model, filter.go, content.go *)
(* ===================================================================== *)

Module Search.

(** [model.SessionInfo], over the type of [time.Time] values. *)
Record SessionInfo (Time : Type) := {
  ID : string;
  FilePath : string;
  LastActive : Time
}.
Arguments ID {Time} _.
Arguments FilePath {Time} _.
Arguments LastActive {Time} _.

Record Match := {
  Text : string;
  LineNumber : Z;
  StartOffset : Z;
  EndOffset : Z;
  Context : string
}.

Record SearchResult := {
  SessionID : string;
  SessionIndex : Z;
  Matches : list Match;
  Score : float
}.

(** [Match{}] *)
Definition Match_zero : Match :=
  {| Text := ""; LineNumber := 0; StartOffset := 0; EndOffset := 0;
     Context := "" |}.

(** [SearchResult{}] *)
Definition SearchResult_zero : SearchResult :=
  {| SessionID := ""; SessionIndex := 0; Matches := []; Score := 0%float |}.

(** The order the specification states for a list of results, over any
    list whose items have a score and an index: score descending, ties by
    ascending index. *)
Definition outranks {A} (score : A -> float) (index : A -> Z) (x y : A)
  : bool :=
  PrimFloat.ltb (score y) (score x)
  || (PrimFloat.eqb (score x) (score y) && (index x <? index y)%Z).

Fixpoint ranked_by {A} (score : A -> float) (index : A -> Z) (l : list A)
  : bool :=
  match l with
  | x :: rest =>
      match rest with
      | y :: _ => outranks score index x y && ranked_by score index rest
      | [] => true
      end
  | [] => true
  end.

Definition ranked (results : list SearchResult) : bool :=
  ranked_by Score SessionIndex results.

Definition set_Text (m : Match) (v : string) : Match :=
  {| Text := v; LineNumber := LineNumber m; StartOffset := StartOffset m;
     EndOffset := EndOffset m; Context := Context m |}.
Definition set_LineNumber (m : Match) (v : Z) : Match :=
  {| Text := Text m; LineNumber := v; StartOffset := StartOffset m;
     EndOffset := EndOffset m; Context := Context m |}.
Definition set_StartOffset (m : Match) (v : Z) : Match :=
  {| Text := Text m; LineNumber := LineNumber m; StartOffset := v;
     EndOffset := EndOffset m; Context := Context m |}.
Definition set_EndOffset (m : Match) (v : Z) : Match :=
  {| Text := Text m; LineNumber := LineNumber m; StartOffset := StartOffset m;
     EndOffset := v; Context := Context m |}.
Definition set_Context (m : Match) (v : string) : Match :=
  {| Text := Text m; LineNumber := LineNumber m; StartOffset := StartOffset m;
     EndOffset := EndOffset m; Context := v |}.

(** [len(xs)] of a slice. *)
Definition slice_len {A} (xs : list A) : Z := Z.of_nat (length xs).

(** [xs[i]] of a slice: out of range is a panic, here [None]. *)
Definition at_index {A} (xs : list A) (i : Z) : option A :=
  if (0 <=? i)%Z then xs !! Z.to_nat i else None.

(** Type assertions on a map entry: [m[k].(float64)] and the like; a missing
    key reads as the nil interface, on which every assertion fails. *)
Definition as_float64 (v : option iface) : option float :=
  match v with Some (IFloat64 f) => Some f | _ => None end.
Definition as_string (v : option iface) : option string :=
  match v with Some (IString s) => Some s | _ => None end.
Definition as_object (v : option iface) : option (gmap string iface) :=
  match v with Some (IObject m) => Some m | _ => None end.
Definition as_array (v : option iface) : option (list iface) :=
  match v with Some (IArray l) => Some l | _ => None end.

(** [v == s] for an interface value [v] and a string constant [s]. *)
Definition iface_is_string (v : option iface) (s : string) : bool :=
  match v with Some (IString s') => String.eqb s' s | _ => false end.

(** [contentEngine] *)
Record contentEngine := {
  maxWorkers : Z;
  rgPath : string
}.

(** What a call of [SearchContent] ends in. *)
Inductive outcome : Type :=
| Returns (results : list SearchResult) (err : option error)
| Panics.

Section World.

(** What the package takes from outside: the standard library's
    [time.Time] with [Format], [exec.LookPath], the run of an external
    command with its standard output captured ([exec.Cmd.Output]),
    [json.Unmarshal] into a map, and the matcher [fuzzy.FindFrom], which
    sees the source through its strings [String(0) .. String(Len()-1)]. *)
Context {Time : Type}.
Variable time_Format : Time -> string -> string.
Variable exec_LookPath : string -> bool.
Variable exec_Output : string -> list string -> string * option error.
Variable json_Unmarshal : string -> option (gmap string iface).
Variable fuzzy_FindFrom : string -> list string -> list fuzzy.Match.

Local Abbreviation SessionInfo := (Search.SessionInfo Time).

(** *** filter.go *)

(** [sessionSource.String(i)] for the session at position [i]. *)
Definition sessionSource_String (session : SessionInfo) : string :=
  ID session +:+ " " +:+ time_Format (LastActive session) "2006-01-02 15:04".

(** The empty-query loop: [results[i] = SearchResult{...}] for each
    session, over a slice made of [len(sessions)] zero values. *)
Fixpoint fill_all (i : nat) (sessions : list SessionInfo)
         (results : list SearchResult) : list SearchResult :=
  match sessions with
  | [] => results
  | session :: rest =>
      fill_all (S i) rest
        (<[i := {| SessionID := ID session;
                   SessionIndex := Z.of_nat i;
                   Matches := [];
                   Score := 1.0%float |}]> results)
  end.

(** The inner loop over [match.MatchedIndexes]. *)
Definition matchIndices_of (idxs : list Z) : list Match :=
  fold_left
    (fun matchIndices idx =>
       matchIndices ++
         [ {| Text := ""; LineNumber := 0; StartOffset := idx;
              EndOffset := GoInt.add idx 1; Context := "" |} ])
    idxs [].

(** The result built for one reported match; [None] when [match.Index]
    is outside of [sessions] (an index panic). *)
Definition result_of_match (sessions : list SessionInfo) (m : fuzzy.Match)
  : option SearchResult :=
  session ← at_index sessions (fuzzy.Index m);
  Some {| SessionID := ID session;
          SessionIndex := fuzzy.Index m;
          Matches := matchIndices_of (fuzzy.MatchedIndexes m);
          Score := Float64.of_int (fuzzy.Score m) |}.

(** The loop over the reported matches, appending to [results]. *)
Fixpoint collect_matches (sessions : list SessionInfo)
         (matches : list fuzzy.Match) (results : list SearchResult)
  : option (list SearchResult) :=
  match matches with
  | [] => Some results
  | m :: rest =>
      r ← result_of_match sessions m;
      collect_matches sessions rest (results ++ [r])
  end.

(** The method [Filter] of [filterEngine]; [None] is a panic. *)
Definition Filter (query : string) (sessions : list SessionInfo)
  : option (list SearchResult) :=
  if String.eqb query "" then
    Some (fill_all 0 sessions (replicate (length sessions) SearchResult_zero))
  else
    let matches := fuzzy_FindFrom query (map sessionSource_String sessions) in
    collect_matches sessions matches [].

(** *** content.go: the engine and one search of one file *)

Definition findRipgrep : string :=
  let paths :=
    [ "rg"; "/usr/local/bin/rg"; "/usr/bin/rg"; "/opt/homebrew/bin/rg";
      "/opt/homebrew/Cellar/ripgrep/14.1.1/bin/rg" ] in
  match List.find exec_LookPath paths with
  | Some path => path
  | None => "rg"
  end.

Definition NewContentEngine : contentEngine :=
  {| maxWorkers := 4; rgPath := findRipgrep |}.

(** The first sub-match of a record: [(match, matchStartPos, matchEndPos,
    hasPositions)]. *)
Definition first_submatch (data : gmap string iface) (m : Match)
  : Match * Z * Z * bool :=
  match as_array (data !! "submatches") with
  | Some (sub0 :: _) =>
      match as_object (Some sub0) with
      | Some submatch =>
          let '(m, matchStartPos, hasPositions) :=
            match as_float64 (submatch !! "start") with
            | Some start =>
                (set_StartOffset m (Float64.to_int start),
                 Float64.to_int start, true)
            | None => (m, 0%Z, false)
            end in
          let '(m, matchEndPos) :=
            match as_float64 (submatch !! "end") with
            | Some end_ =>
                (set_EndOffset m (Float64.to_int end_), Float64.to_int end_)
            | None => (m, 0%Z)
            end in
          (m, matchStartPos, matchEndPos, hasPositions)
      | None => (m, 0%Z, 0%Z, false)
      end
  | _ => (m, 0%Z, 0%Z, false)
  end.

(** The [Match] built from the data of a match record; [None] is a panic
    of [extractContext]. *)
Definition match_of_data (data : gmap string iface) : option Match :=
  let m := Match_zero in
  let m :=
    match as_float64 (data !! "line_number") with
    | Some lineNumber => set_LineNumber m (Float64.to_int lineNumber)
    | None => m
    end in
  match as_object (data !! "lines") with
  | Some lines =>
      match as_string (lines !! "text") with
      | Some text =>
          let m := set_Text m text in
          let '(m, matchStartPos, matchEndPos, hasPositions) :=
            first_submatch data m in
          if hasPositions then
            snippet ← Extract.extractContext text matchStartPos matchEndPos;
            Some (set_Context m snippet)
          else Some m
      | None => Some m
      end
  | None => Some m
  end.

(** One turn of the scanner loop on one line of output. *)
Definition scan_record (matches : list Match) (line : string)
  : option (list Match) :=
  match json_Unmarshal line with
  | None => Some matches
  | Some result =>
      if iface_is_string (result !! "type") "match" then
        match as_object (result !! "data") with
        | Some data =>
            m ← match_of_data data;
            Some (matches ++ [m])
        | None => Some matches
        end
      else Some matches
  end.

(** The scanner loop. *)
Fixpoint scan_records (lines : list string) (matches : list Match)
  : option (list Match) :=
  match lines with
  | [] => Some matches
  | line :: rest =>
      matches ← scan_record matches line;
      scan_records rest matches
  end.

Definition rg_args (query filePath : string) : list string :=
  [ "--json"; "--max-count"; "20"; "--context"; "1"; "--ignore-case";
    query; filePath ].

(** The method [searchFile] of [contentEngine]: the matches and the error,
    or a panic ([None]). *)
Definition searchFile (c : contentEngine) (query filePath : string)
  : option (list Match * option error) :=
  let '(output, err) := exec_Output (rgPath c) (rg_args query filePath) in
  match err with
  | Some e =>
      match e with
      | ExitError code =>
          if (code =? 1)%Z then Some ([], None) else Some ([], Some e)
      | _ => Some ([], Some e)
      end
  | None =>
      matches ← scan_records (bufio.ScanLines output) [];
      Some (matches, None)
  end.

(** *** content.go: SearchContent and its workers

    The call runs as several goroutines over two buffered channels. Its
    state is the position of each goroutine, the content of the channels
    and the state of the caller's context; a run is a sequence of atomic
    steps, one goroutine (or the context) at a time. *)

Record searchJob := {
  query : string;
  session : SessionInfo;
  sessionIndex : Z
}.

(** A worker: blocked at [for job := range jobs]; holding a job at the
    [select]; past the [select], running [searchFile] on the job's file and
    about to send what it found; or returned. *)
Inductive worker_state : Type :=
| AtRange
| AtSelect (job : searchJob)
| Searching (job : searchJob)
| Exited.

(** The calling goroutine: in the queueing loop before session [i], in the
    collecting loop with the results appended so far, or finished. *)
Inductive caller_state : Type :=
| Queueing (i : nat)
| Collecting (searchResults : list SearchResult)
| Finished (o : outcome).

Record state := {
  st_caller : caller_state;
  st_ctx : context;
  st_jobs : list searchJob;          (* the buffer of the channel jobs *)
  st_jobs_closed : bool;
  st_workers : list worker_state;
  st_results : list SearchResult;    (* the buffer of the channel results *)
  st_results_closed : bool
}.

Definition set_caller (st : state) (v : caller_state) : state :=
  {| st_caller := v; st_ctx := st_ctx st; st_jobs := st_jobs st;
     st_jobs_closed := st_jobs_closed st; st_workers := st_workers st;
     st_results := st_results st;
     st_results_closed := st_results_closed st |}.
Definition set_ctx (st : state) (v : context) : state :=
  {| st_caller := st_caller st; st_ctx := v; st_jobs := st_jobs st;
     st_jobs_closed := st_jobs_closed st; st_workers := st_workers st;
     st_results := st_results st;
     st_results_closed := st_results_closed st |}.
Definition set_jobs (st : state) (v : list searchJob) : state :=
  {| st_caller := st_caller st; st_ctx := st_ctx st; st_jobs := v;
     st_jobs_closed := st_jobs_closed st; st_workers := st_workers st;
     st_results := st_results st;
     st_results_closed := st_results_closed st |}.
Definition close_jobs (st : state) : state :=
  {| st_caller := st_caller st; st_ctx := st_ctx st; st_jobs := st_jobs st;
     st_jobs_closed := true; st_workers := st_workers st;
     st_results := st_results st;
     st_results_closed := st_results_closed st |}.
Definition set_worker (st : state) (w : nat) (v : worker_state) : state :=
  {| st_caller := st_caller st; st_ctx := st_ctx st; st_jobs := st_jobs st;
     st_jobs_closed := st_jobs_closed st;
     st_workers := <[w := v]> (st_workers st);
     st_results := st_results st;
     st_results_closed := st_results_closed st |}.
Definition set_results (st : state) (v : list SearchResult) : state :=
  {| st_caller := st_caller st; st_ctx := st_ctx st; st_jobs := st_jobs st;
     st_jobs_closed := st_jobs_closed st; st_workers := st_workers st;
     st_results := v;
     st_results_closed := st_results_closed st |}.
Definition close_results (st : state) : state :=
  {| st_caller := st_caller st; st_ctx := st_ctx st; st_jobs := st_jobs st;
     st_jobs_closed := st_jobs_closed st; st_workers := st_workers st;
     st_results := st_results st;
     st_results_closed := true |}.

(** [ctx.Err()] once [ctx.Done()] is ready. *)
Definition ctx_done (ctx : context) : option error :=
  match ctx with Done e => Some e | _ => None end.

Section Call.

Variable c : contentEngine.
Variable q : string.
Variable sessions : list SessionInfo.

(** Both channels are made with capacity [len(sessions)]. *)
Definition capacity : nat := length sessions.

(** The state right after the workers are started. *)
Definition initial (ctx : context) : state :=
  {| st_caller := Queueing 0;
     st_ctx := ctx;
     st_jobs := [];
     st_jobs_closed := false;
     st_workers := replicate (Z.to_nat (maxWorkers c)) AtRange;
     st_results := [];
     st_results_closed := false |}.

(** One step of the caller. In the queueing loop the [select] has two
    cases: [pick_done] tells which one runs, the receive from
    [ctx.Done()] or the send on [jobs]; it may only pick a case that is
    ready. *)
Definition caller_step (pick_done : bool) (st : state) : option state :=
  match st_caller st with
  | Queueing i =>
      match sessions !! i with
      | Some session =>
          if pick_done then
            match ctx_done (st_ctx st) with
            | Some e =>
                Some (set_caller (close_jobs st)
                        (Finished (Returns [] (Some e))))
            | None => None
            end
          else if (length (st_jobs st) <? capacity)%nat then
            Some (set_caller
                    (set_jobs st
                       (st_jobs st ++
                          [ {| query := q; session := session;
                               sessionIndex := Z.of_nat i |} ]))
                    (Queueing (S i)))
          else None
      | None =>
          if pick_done then None
          else Some (set_caller (close_jobs st) (Collecting []))
      end
  | Collecting searchResults =>
      if pick_done then None
      else
        match st_results st with
        | result :: rest =>
            Some (set_caller (set_results st rest)
                    (Collecting
                       (if (slice_len (Matches result) >? 0)%Z
                        then searchResults ++ [result]
                        else searchResults)))
        | [] =>
            if st_results_closed st
            then Some (set_caller st (Finished (Returns searchResults None)))
            else None
        end
  | Finished _ => None
  end.

(** One step of worker [w]. The [select] with its [default] case does not
    block: it returns when [ctx.Done()] is ready and goes on to the search
    otherwise. *)
Definition worker_step (w : nat) (st : state) : option state :=
  match st_workers st !! w with
  | Some AtRange =>
      match st_jobs st with
      | job :: rest => Some (set_worker (set_jobs st rest) w (AtSelect job))
      | [] =>
          if st_jobs_closed st then Some (set_worker st w Exited) else None
      end
  | Some (AtSelect job) =>
      match ctx_done (st_ctx st) with
      | Some _ => Some (set_worker st w Exited)
      | None => Some (set_worker st w (Searching job))
      end
  | Some (Searching job) =>
      match searchFile c (query job) (FilePath (session job)) with
      | None => Some (set_caller st (Finished Panics))
      | Some (matches, err) =>
          match err with
          | None =>
              if (slice_len matches >? 0)%Z then
                if (length (st_results st) <? capacity)%nat then
                  Some (set_worker
                          (set_results st
                             (st_results st ++
                                [ {| SessionID := ID (session job);
                                     SessionIndex := sessionIndex job;
                                     Matches := matches;
                                     Score :=
                                       Float64.of_int (slice_len matches)
                                  |} ]))
                          w AtRange)
                else None
              else Some (set_worker st w AtRange)
          | Some _ => Some (set_worker st w AtRange)
          end
      end
  | _ => None
  end.

(** The goroutine the caller starts after closing [jobs]: once every
    worker has returned it closes [results]. *)
Definition closer_step (st : state) : option state :=
  match st_caller st with
  | Collecting _ =>
      if negb (st_results_closed st)
         && forallb (fun ws => match ws with Exited => true | _ => false end)
              (st_workers st)
      then Some (close_results st)
      else None
  | _ => None
  end.

(** The context becomes done. *)
Definition expire_step (st : state) : option state :=
  match st_ctx st with
  | Pending e => Some (set_ctx st (Done e))
  | _ => None
  end.

Inductive action : Type :=
| Caller (pick_done : bool)
| Worker (w : nat)
| Closer
| Expire.

Definition step (a : action) (st : state) : option state :=
  match a with
  | Caller pick_done => caller_step pick_done st
  | Worker w => worker_step w st
  | Closer => closer_step st
  | Expire => expire_step st
  end.

(** The outcome of the call, once the caller has finished. *)
Definition outcome_of (st : state) : option outcome :=
  match st_caller st with
  | Finished o => Some o
  | _ => None
  end.

(** Run a schedule: a list of actions, each of which must be enabled. *)
Fixpoint run (schedule : list action) (st : state) : option state :=
  match schedule with
  | [] => Some st
  | a :: rest =>
      match outcome_of st with
      | Some _ => None
      | None => st' ← step a st; run rest st'
      end
  end.

(** [SearchContent(ctx, q, sessions)] can end in [o]. *)
Definition SearchContent_may (ctx : context) (o : outcome) : Prop :=
  exists schedule st,
    run schedule (initial ctx) = Some st /\ outcome_of st = Some o.

(** From [st], whatever the scheduling, the call ends, and it ends in an
    outcome that satisfies [P]. *)
Inductive ends_with (P : outcome -> Prop) : state -> Prop :=
| ends_now st o :
    outcome_of st = Some o -> P o -> ends_with P st
| ends_later st :
    outcome_of st = None ->
    (exists a st', step a st = Some st') ->
    (forall a st', step a st = Some st' -> ends_with P st') ->
    ends_with P st.

(** [SearchContent(ctx, q, sessions)] always ends, in an outcome that
    satisfies [P]. *)
Definition SearchContent_always (ctx : context) (P : outcome -> Prop)
  : Prop :=
  ends_with P (initial ctx).

End Call.

End World.
End Search.

(* ===================================================================== *)
(** ** A concrete world: transcripts, a search tool, a matcher *)
(* ===================================================================== *)

Module Example.
Import Search Strings Extract.

Definition nl : string := String "010"%char EmptyString.

(** [s] between double quotes. *)
Definition jstr (s : string) : string := dquote +:+ s +:+ dquote.

(** The lines the tool prints for a file that holds [example_line] when it
    is searched for OAuth, shortened to the members the package reads. *)
Definition begin_line : string :=
  "{" +:+ jstr "type" +:+ ":" +:+ jstr "begin" +:+ "}".

(** A JSON string literal: a backslash goes before every double quote and
    every backslash of [s]. *)
Fixpoint json_escape (s : string) : string :=
  match s with
  | EmptyString => EmptyString
  | String ch rest =>
      if Ascii.eqb ch "034"%char || Ascii.eqb ch "092"%char
      then String "092"%char (String ch (json_escape rest))
      else String ch (json_escape rest)
  end.

Definition match_line : string :=
  "{" +:+ jstr "type" +:+ ":" +:+ jstr "match" +:+ ","
  +:+ jstr "data" +:+ ":{"
  +:+ jstr "lines" +:+ ":{" +:+ jstr "text" +:+ ":"
  +:+ jstr (json_escape example_line) +:+ "},"
  +:+ jstr "line_number" +:+ ":1,"
  +:+ jstr "submatches" +:+ ":[{" +:+ jstr "start" +:+ ":60,"
  +:+ jstr "end" +:+ ":65}]}}".
Definition end_line : string :=
  "{" +:+ jstr "type" +:+ ":" +:+ jstr "end" +:+ "}".
Definition noise_line : string := "rg: not a record".

Definition rg_output : string :=
  begin_line +:+ nl +:+ match_line +:+ nl +:+ noise_line +:+ nl
  +:+ end_line +:+ nl.

(** What [json.Unmarshal] makes of these lines. *)
Definition match_value : gmap string iface :=
  {[ "type"%string := IString "match";
     "data"%string :=
       IObject
         {[ "line_number"%string := IFloat64 1%float;
            "lines"%string := IObject {[ "text"%string := IString example_line ]};
            "submatches"%string :=
              IArray
                [ IObject {[ "start"%string := IFloat64 60%float;
                             "end"%string := IFloat64 65%float ]} ] ]} ]}.

Definition decode (line : string) : option (gmap string iface) :=
  if String.eqb line match_line then Some match_value
  else if String.eqb line begin_line then Some {[ "type"%string := IString "begin" ]}
  else if String.eqb line end_line then Some {[ "type"%string := IString "end" ]}
  else None.

(** The tool: a match in two files, none in a third, and a failure (exit
    status 2) on any other path. *)
Definition tool (path : string) (args : list string) : string * option error :=
  match last args with
  | Some file =>
      if String.eqb file "/s/oauth.jsonl" then (rg_output, None)
      else if String.eqb file "/backup/oauth.jsonl" then (rg_output, None)
      else if String.eqb file "/s/webpack.jsonl" then (""%string, Some (ExitError 1))
      else (""%string, Some (ExitError 2))
  | None => (""%string, Some (ExitError 2))
  end.

(** No tool is installed: every run fails to start. *)
Definition no_tool (path : string) (args : list string) : string * option error :=
  (""%string, Some ErrNotFound).

(** A tool that fails on every file. *)
Definition failing_tool (path : string) (args : list string)
  : string * option error :=
  (""%string, Some (ExitError 2)).

Definition s_oauth : SessionInfo unit :=
  {| ID := "oauth"; FilePath := "/s/oauth.jsonl"; LastActive := tt |}.
Definition s_backup : SessionInfo unit :=
  {| ID := "oauth"; FilePath := "/backup/oauth.jsonl"; LastActive := tt |}.
Definition s_webpack : SessionInfo unit :=
  {| ID := "webpack"; FilePath := "/s/webpack.jsonl"; LastActive := tt |}.
Definition s_gone : SessionInfo unit :=
  {| ID := "gone"; FilePath := "/s/gone.jsonl"; LastActive := tt |}.

(** Only the bare name rg resolves on the search path. *)
Definition rg_on_path (path : string) : bool := String.eqb path "rg".

(** The engine as [NewContentEngine] builds it: four workers. *)
Definition engine : contentEngine := NewContentEngine rg_on_path.

(** The engine of the package's tests: one worker. *)
Definition one_worker : contentEngine := {| maxWorkers := 1; rgPath := "rg" |}.

Definition oauth_match : Match :=
  {| Text := example_line; LineNumber := 1; StartOffset := 60;
     EndOffset := 65; Context := "I need help with OAuth implementation" |}.

(** The result for a session called oauth at position [i]. *)
Definition oauth_result (i : Z) : SearchResult :=
  {| SessionID := "oauth"; SessionIndex := i; Matches := [oauth_match];
     Score := 1.0%float |}.

(** The matcher: [FindFrom] of the library, on inputs within its model. *)
Definition matcher (pattern : string) (source : list string)
  : list fuzzy.Match :=
  default [] (fuzzy.FindFrom pattern source).

Definition no_format (t : unit) (layout : string) : string := "".

(** A line with a match that starts inside the text field and ends after
    it: the letters se and the closing double quote. *)
Definition straddling_line : string :=
  "{" +:+ jstr "content" +:+ ":" +:+ jstr "please" +:+ "," +:+ jstr "n"
  +:+ ":1}".

(** [s] doubled [k] times: [2^k] copies of [s]. *)
Fixpoint doubled (k : nat) (s : string) : string :=
  match k with
  | O => s
  | S k' => doubled k' (s +:+ s)
  end.

(** A line of 64 KiB that is no record, and the output of a tool that
    prints it between two match records; the same output with a short
    line in its place. *)
Definition long_record : string := doubled 16 "x".
Definition long_output : string :=
  (match_line +:+ nl) +:+ long_record +:+ nl +:+ (match_line +:+ nl).
Definition short_output : string :=
  (match_line +:+ nl) +:+ noise_line +:+ nl +:+ (match_line +:+ nl).
Definition long_tool (path : string) (args : list string)
  : string * option error :=
  (long_output, None).
Definition short_tool (path : string) (args : list string)
  : string * option error :=
  (short_output, None).

End Example.

(* ===================================================================== *)
(** ** More of the standard library: package strings, path/filepath *)
(* ===================================================================== *)

(** Functions of package strings beyond [Index] and [Contains]. *)
Module StringsLib.
Import Strings.

(** [strings.HasPrefix(s, prefix)] *)
Definition HasPrefix (s prefix : string) : bool := String.prefix prefix s.

(** [strings.HasSuffix(s, suffix)]:
    [len(s) >= len(suffix) && s[len(s)-len(suffix):] == suffix]. *)
Definition HasSuffix (s suffix : string) : bool :=
  (String.length suffix <=? String.length s)%nat
  && String.eqb
       (substring (String.length s - String.length suffix)
          (String.length suffix) s)
       suffix.

(** [strings.TrimSuffix(s, suffix)] *)
Definition TrimSuffix (s suffix : string) : string :=
  if HasSuffix s suffix
  then substring 0 (String.length s - String.length suffix) s
  else s.

(** [strings.ReplaceAll(s, old, new)] for a non-empty [old]: the
    occurrences of [old] are replaced from left to right, without
    overlap. [skip] counts the bytes of a replaced occurrence that are
    still to be passed over. *)
Fixpoint replace_from (s old new : string) (skip : nat) : string :=
  match s with
  | EmptyString => EmptyString
  | String c s' =>
      match skip with
      | S k => replace_from s' old new k
      | O =>
          if String.prefix old s
          then new +:+ replace_from s' old new (String.length old - 1)
          else String c (replace_from s' old new 0)
      end
  end.

Definition ReplaceAll (s old new : string) : string := replace_from s old new 0.

(** [strings.Join(elems, sep)] *)
Definition Join (elems : list string) (sep : string) : string :=
  String.concat sep elems.

End StringsLib.

(** Package path/filepath on a Unix system: the separator is the slash and
    there are no volume names. *)
Module Filepath.

Definition Separator : ascii := "/"%char.

(** [os.IsPathSeparator(path[i])]; [i] is within the path wherever the
    library reads it. *)
Definition sep_at (path : string) (i : nat) : bool :=
  match String.get i path with
  | Some c => Ascii.eqb c Separator
  | None => false
  end.

(** [for len(path) > 0 && os.IsPathSeparator(path[len(path)-1])
       { path = path[0 : len(path)-1] }], with [n = len(path)]. *)
Fixpoint strip_trailing (path : string) (n : nat) : string :=
  match n with
  | O => path
  | S n' =>
      if sep_at path n' then strip_trailing (substring 0 n' path) n' else path
  end.

(** [i := len(path) - 1; for i >= 0 && !os.IsPathSeparator(path[i]) { i-- }]:
    the index the loop stops at, [None] standing for [-1]; [n] is [i + 1]. *)
Fixpoint last_separator (path : string) (n : nat) : option nat :=
  match n with
  | O => None
  | S i => if sep_at path i then Some i else last_separator path i
  end.

(** [filepath.Base(path)] *)
Definition Base (path : string) : string :=
  if String.eqb path "" then "."
  else
    let path := strip_trailing path (String.length path) in
    let path :=
      match last_separator path (String.length path) with
      | Some i => substring (S i) (String.length path - S i) path
      | None => path
      end in
    if String.eqb path "" then String Separator EmptyString else path.

(** [for i := len(path) - 1; i >= 0 && !os.IsPathSeparator(path[i]); i--
       { if path[i] == '.' { return path[i:] } }; return ""],
    with [n = i + 1]. *)
Fixpoint ext_from (path : string) (n : nat) : string :=
  match n with
  | O => ""
  | S i =>
      if sep_at path i then ""
      else
        match String.get i path with
        | Some c =>
            if Ascii.eqb c "."%char
            then substring i (String.length path - i) path
            else ext_from path i
        | None => ext_from path i
        end
  end.

(** [filepath.Ext(path)] *)
Definition Ext (path : string) : string := ext_from path (String.length path).

End Filepath.

(* ===================================================================== *)
(** ** Package model *)
(* ===================================================================== *)

Module Model.

(** [GetSessionID(filename)] *)
Definition GetSessionID (filename : string) : string :=
  let base := Filepath.Base filename in
  StringsLib.TrimSuffix base ".jsonl".

(** [model.FullSession], over the type of [time.Time] values. *)
Record FullSession (Time : Type) := {
  ID : string;
  FilePath : string;
  Summary : string;
  LastActive : Time;
  MessageCount : Z;
  TotalCostUSD : float;
  LastRawMessages : list string
}.
Arguments ID {Time} _.
Arguments FilePath {Time} _.
Arguments Summary {Time} _.
Arguments LastActive {Time} _.
Arguments MessageCount {Time} _.
Arguments TotalCostUSD {Time} _.
Arguments LastRawMessages {Time} _.

(** The method [GetResumeCommand] of [FullSession]. *)
Definition GetResumeCommand {Time} (s : FullSession Time) : string :=
  "claude --resume " +:+ ID s.

End Model.

(* ===================================================================== *)
(** ** The file system as the program reads it *)
(* ===================================================================== *)

(** One [os.DirEntry]: its name, whether it is a directory, and the
    modification time its [Info()] reports ([None]: [Info()] fails, the
    file was removed or cannot be read). *)
Record DirEntry (Time : Type) := {
  entry_Name : string;
  entry_IsDir : bool;
  entry_ModTime : option Time
}.
Arguments entry_Name {Time} _.
Arguments entry_IsDir {Time} _.
Arguments entry_ModTime {Time} _.

(* ===================================================================== *)
(** ** main.go: the helpers of main *)
(* ===================================================================== *)

Module Main.

(** [convertToClaudePath(path)] *)
Definition convertToClaudePath (path : string) : string :=
  let claudePath :=
    StringsLib.ReplaceAll path (String Filepath.Separator EmptyString) "-" in
  if negb (StringsLib.HasPrefix claudePath "-")
  then "-" +:+ claudePath
  else claudePath.

Section World.
Context {Time : Type}.
(** [os.ReadDir(dir)]: the entries, sorted by name, or an error. *)
Variable os_ReadDir : string -> list (DirEntry Time) + error.

(** The loop of [hasJSONLFiles]. *)
Fixpoint any_jsonl (entries : list (DirEntry Time)) : bool :=
  match entries with
  | [] => false
  | entry :: rest =>
      if negb (entry_IsDir entry)
         && String.eqb (Filepath.Ext (entry_Name entry)) ".jsonl"
      then true
      else any_jsonl rest
  end.

(** [hasJSONLFiles(dir)] *)
Definition hasJSONLFiles (dir : string) : bool :=
  match os_ReadDir dir with
  | inr _ => false
  | inl entries => any_jsonl entries
  end.

End World.
End Main.

Module FilepathClean.
Import Filepath.

(** [path[i] == c] *)
Definition byte_is (path : string) (i : nat) (c : ascii) : bool :=
  match String.get i path with
  | Some c' => Ascii.eqb c' c
  | None => false
  end.

(** In [Clean], on a dot-dot element: [out.w--] done, the loop
    [for out.w > dotdot && !os.IsPathSeparator(out.index(out.w)) { out.w-- }]
    from [out.w = w]; the result is the new [out.w]. *)
Fixpoint backtrack (out : string) (dotdot w : nat) : nat :=
  match w with
  | O => O
  | S w' =>
      if (dotdot <? w)%nat && negb (sep_at out w)
      then backtrack out dotdot w'
      else w
  end.

(** In [Clean], the copy of a path element:
    [for ; r < n && !os.IsPathSeparator(path[r]); r++ { out.append(path[r]) }]. *)
Fixpoint copy_element (fuel : nat) (path : string) (r : nat) (out : string)
  : string * nat :=
  match fuel with
  | O => (out, r)
  | S fuel' =>
      match String.get r path with
      | Some c =>
          if Ascii.eqb c Separator then (out, r)
          else copy_element fuel' path (S r) (out +:+ String c EmptyString)
      | None => (out, r)
      end
  end.

(** The loop [for r < n] of [Clean]: [out] is the buffer written so far
    ([out.w] is its length). Every turn moves [r] forward, so [len(path)]
    turns are enough. *)
Fixpoint clean_loop (fuel : nat) (path : string) (rooted : bool)
         (out : string) (r dotdot : nat) : string :=
  match fuel with
  | O => out
  | S fuel' =>
      let n := String.length path in
      if negb (r <? n)%nat then out
      else if sep_at path r then
        (* empty path element *)
        clean_loop fuel' path rooted out (S r) dotdot
      else if byte_is path r "."
              && ((S r =? n)%nat || sep_at path (S r)) then
        (* . element *)
        clean_loop fuel' path rooted out (S r) dotdot
      else if byte_is path r "." && byte_is path (S r) "."
              && ((S (S r) =? n)%nat || sep_at path (S (S r))) then
        (* .. element: remove to last separator *)
        let r := S (S r) in
        if (dotdot <? String.length out)%nat then
          let w := backtrack out dotdot (String.length out - 1) in
          clean_loop fuel' path rooted (substring 0 w out) r dotdot
        else if negb rooted then
          let out :=
            (if (0 <? String.length out)%nat
             then out +:+ String Separator EmptyString else out) +:+ ".." in
          clean_loop fuel' path rooted out r (String.length out)
        else clean_loop fuel' path rooted out r dotdot
      else
        (* real path element *)
        let out :=
          if (rooted && negb (String.length out =? 1)%nat)
             || (negb rooted && negb (String.length out =? 0)%nat)
          then out +:+ String Separator EmptyString else out in
        let '(out, r) := copy_element n path r out in
        clean_loop fuel' path rooted out r dotdot
  end.

(** [filepath.Clean(path)] *)
Definition Clean (path : string) : string :=
  if String.eqb path "" then "."
  else
    let rooted := sep_at path 0 in
    let out :=
      if rooted
      then clean_loop (String.length path) path rooted
             (String Separator EmptyString) 1 1
      else clean_loop (String.length path) path rooted "" 0 0 in
    if (String.length out =? 0)%nat then "." else out.

(** [filepath.Join(a, b)]: the elements from the first non-empty one on,
    joined with the separator and cleaned. *)
Definition Join (a b : string) : string :=
  if negb (String.eqb a "")
  then Clean (StringsLib.Join [a; b] (String Separator EmptyString))
  else if negb (String.eqb b "")
  then Clean (StringsLib.Join [b] (String Separator EmptyString))
  else "".

End FilepathClean.

(** [bufio.Scanner] with a buffer set by [Buffer(buf, max)]. *)
Module bufioMax.

(** The lines [Scan] delivers when no token may reach [max] bytes:
    scanning stops for good at the first line that does not fit. *)
Fixpoint deliver (max : Z) (lines : list string) : list string :=
  match lines with
  | [] => []
  | l :: rest =>
      if (Strings.len l <? max)%Z
      then bufio.dropCR l :: deliver max rest
      else []
  end.

Definition ScanLines (max : Z) (input : string) : list string :=
  deliver max (bufio.split_lines input EmptyString).

End bufioMax.

(* ===================================================================== *)
(** ** Package parser *)
(* ===================================================================== *)

Module Parser.
Import Search.

Section World.
Context {Time : Type}.
(** [os.ReadDir(dir)]: the entries, sorted by name, or an error. *)
Variable os_ReadDir : string -> list (DirEntry Time) + error.
(** [os.Open(path)] and the reads of the scanner: the bytes read up to the
    end of the file (or up to a failing read), or the error of [Open]. *)
Variable os_Open : string -> string + error.
Variable json_Unmarshal : string -> option (gmap string iface).
(** [strings.TrimSpace] *)
Variable strings_TrimSpace : string -> string.
(** [time.Parse(layout, value)]; [None] is a parse error. *)
Variable time_Parse : string -> string -> option Time.
(** [time.Time{}] *)
Variable time_zero : Time.

Local Abbreviation SessionInfo := (Search.SessionInfo Time).
Local Abbreviation FullSession := (Model.FullSession Time).

(** *** ListSessions *)

(** The loop over the directory entries, appending to [sessions]. *)
Fixpoint list_entries (claudeDir : string) (entries : list (DirEntry Time))
         (sessions : list SessionInfo) : list SessionInfo :=
  match entries with
  | [] => sessions
  | entry :: rest =>
      if entry_IsDir entry
         || negb (StringsLib.HasSuffix (entry_Name entry) ".jsonl")
      then list_entries claudeDir rest sessions
      else
        match entry_ModTime entry with
        | None => list_entries claudeDir rest sessions
        | Some modTime =>
            list_entries claudeDir rest
              (sessions ++
                 [ {| ID := Model.GetSessionID (entry_Name entry);
                      FilePath := FilepathClean.Join claudeDir (entry_Name entry);
                      LastActive := modTime |} ])
        end
  end.

(** The method [ListSessions] of [Parser]. *)
Definition ListSessions (claudeDir : string)
  : list SessionInfo * option error :=
  match os_ReadDir claudeDir with
  | inr err => ([], Some err)
  | inl entries => (list_entries claudeDir entries [], None)
  end.

(** *** ParseFullSession *)

Definition RFC3339 : string := "2006-01-02T15:04:05Z07:00".

(** What the loop over the lines carries from one line to the next. *)
Record scan_state := {
  allLines : list string;
  lastUserMessages : list string;
  messageCount : Z;
  totalCost : float;
  lastActive : Time
}.

(** One turn of the loop [for scanner.Scan()] on the line [line]. *)
Definition scan_line (st : scan_state) (line : string) : scan_state :=
  if String.eqb line "" then st
  else
    let allLines := allLines st ++ [line] in
    match json_Unmarshal line with
    | None =>
        {| allLines := allLines; lastUserMessages := lastUserMessages st;
           messageCount := messageCount st; totalCost := totalCost st;
           lastActive := lastActive st |}
    | Some data =>
        (* count messages, collect the user messages for the summary *)
        let '(messageCount, lastUserMessages) :=
          match as_string (data !! "type") with
          | Some msgType =>
              let messageCount :=
                if String.eqb msgType "user" || String.eqb msgType "assistant"
                then GoInt.add (messageCount st) 1
                else messageCount st in
              let lastUserMessages :=
                if String.eqb msgType "user" then
                  match as_object (data !! "message") with
                  | Some msg =>
                      match as_string (msg !! "content") with
                      | Some content =>
                          let content := strings_TrimSpace content in
                          if negb (Strings.Contains content "system-reminder")
                          then lastUserMessages st ++ [content]
                          else lastUserMessages st
                      | None => lastUserMessages st
                      end
                  | None => lastUserMessages st
                  end
                else lastUserMessages st in
              (messageCount, lastUserMessages)
          | None => (messageCount st, lastUserMessages st)
          end in
        (* timestamp *)
        let lastActive :=
          match as_string (data !! "timestamp") with
          | Some ts =>
              match time_Parse RFC3339 ts with
              | Some t => t
              | None => lastActive st
              end
          | None => lastActive st
          end in
        (* cost *)
        let totalCost :=
          match as_float64 (data !! "costUSD") with
          | Some cost => PrimFloat.add (totalCost st) cost
          | None => totalCost st
          end in
        {| allLines := allLines; lastUserMessages := lastUserMessages;
           messageCount := messageCount; totalCost := totalCost;
           lastActive := lastActive |}
    end.

(** [if len(msg) > 150 { msg = msg[:147] + "..." }]; [None] is a
    slice-bounds panic. *)
Definition summary_part (msg : string) : option string :=
  if (Strings.len msg >? 150)%Z
  then head ← Strings.slice msg 0 147; Some (head +:+ "...")
  else Some msg.

(** [for i := start; i < len(lastUserMessages); i++], appending to
    [summaryParts]; [None] is an index or slice-bounds panic. The loop
    starts at an index that is not negative, so it makes at most
    [len(lastUserMessages)] turns. *)
Fixpoint summary_parts (fuel : nat) (lastUserMessages : list string) (i : Z)
         (summaryParts : list string) : option (list string) :=
  match fuel with
  | O => Some summaryParts
  | S fuel' =>
      if (i <? slice_len lastUserMessages)%Z then
        msg ← at_index lastUserMessages i;
        msg ← summary_part msg;
        summary_parts fuel' lastUserMessages (GoInt.add i 1)
          (summaryParts ++ [msg])
      else Some summaryParts
  end.

(** The summary: the last three user messages. *)
Definition summary_of (lastUserMessages : list string) : option string :=
  if (slice_len lastUserMessages >? 0)%Z then
    let start := GoInt.sub (slice_len lastUserMessages) 3 in
    let start := if (start <? 0)%Z then 0%Z else start in
    summaryParts ←
      summary_parts (length lastUserMessages) lastUserMessages start [];
    Some (StringsLib.Join summaryParts " | ")
  else Some ""%string.

(** The last raw message: [[]string{allLines[len(allLines)-1]}]. *)
Definition last_raw (allLines : list string) : option (list string) :=
  if (slice_len allLines >? 0)%Z then
    line ← at_index allLines (GoInt.sub (slice_len allLines) 1);
    Some [line]
  else Some [].

(** The method [ParseFullSession] of [Parser]: the session or the error of
    [os.Open]; [None] is a panic. The scanner's buffer may grow to
    [1024*1024] bytes. *)
Definition ParseFullSession (filePath : string)
  : option (FullSession + error) :=
  match os_Open filePath with
  | inr err => Some (inr err)
  | inl file =>
      let st :=
        fold_left scan_line (bufioMax.ScanLines (1024 * 1024) file)
          {| allLines := []; lastUserMessages := []; messageCount := 0;
             totalCost := 0%float; lastActive := time_zero |} in
      summary ← summary_of (lastUserMessages st);
      lastRaw ← last_raw (allLines st);
      Some (inl {| Model.ID := Model.GetSessionID filePath;
                   Model.FilePath := filePath;
                   Model.Summary := summary;
                   Model.LastActive := lastActive st;
                   Model.MessageCount := messageCount st;
                   Model.TotalCostUSD := totalCost st;
                   Model.LastRawMessages := lastRaw |})
  end.

End World.
End Parser.

(* ===================================================================== *)
(** ** Runes: packages unicode/utf8 and unicode, strings.Fields *)
(* ===================================================================== *)

Module Utf8.
Local Open Scope Z_scope.

(** The value of a byte. *)
Definition byte (c : ascii) : Z := Z.of_N (N_of_ascii c).

(** [byte(x)]: the low eight bits, as a byte of a string. *)
Definition to_byte (x : Z) : ascii := ascii_of_N (Z.to_N (x mod 256)).

Definition RuneError : Z := 65533.   (* U+FFFD *)
Definition MaxRune : Z := 1114111.   (* U+10FFFF *)

(** The table [first]: what the first byte of a sequence tells. The low
    three bits are the length of the sequence, the high four bits the
    index of the range its second byte must be in; [0xF0] is an ASCII
    byte and [0xF1] a byte that starts no sequence. *)
Definition first (b : Z) : Z :=
  if b <? 128 then 240          (* 0x00-0x7F: as *)
  else if b <? 194 then 241     (* 0x80-0xC1: xx *)
  else if b <? 224 then 2       (* 0xC2-0xDF: s1 *)
  else if b =? 224 then 19      (* 0xE0: s2 *)
  else if b <? 237 then 3       (* 0xE1-0xEC: s3 *)
  else if b =? 237 then 35      (* 0xED: s4 *)
  else if b <? 240 then 3       (* 0xEE-0xEF: s3 *)
  else if b =? 240 then 52      (* 0xF0: s5 *)
  else if b <? 244 then 4       (* 0xF1-0xF3: s6 *)
  else if b =? 244 then 68      (* 0xF4: s7 *)
  else 241.                     (* 0xF5-0xFF: xx *)

(** The table [acceptRanges]: the lowest and the highest second byte. *)
Definition acceptRanges (i : Z) : Z * Z :=
  if i =? 0 then (128, 191)
  else if i =? 1 then (160, 191)
  else if i =? 2 then (128, 159)
  else if i =? 3 then (144, 191)
  else if i =? 4 then (128, 143)
  else (0, 0).

(** A continuation byte: [locb <= b <= hicb]. *)
Definition is_cont (b : Z) : bool := (128 <=? b) && (b <=? 191).

(** [utf8.DecodeRuneInString(s)]: the first rune of [s] and its width in
    bytes; a byte that starts no valid sequence is [RuneError] of width
    1. *)
Definition DecodeRuneInString (s : string) : Z * nat :=
  match s with
  | EmptyString => (RuneError, 0%nat)
  | String c0 rest =>
      let s0 := byte c0 in
      let x := first s0 in
      if x >=? 240 then
        (* ASCII, or invalid: the mask is all ones when [x] is odd *)
        (if Z.odd x then RuneError else s0, 1%nat)
      else
        let sz := Z.land x 7 in
        let '(lo, hi) := acceptRanges (Z.shiftr x 4) in
        if Strings.len s <? sz then (RuneError, 1%nat)
        else
          match rest with
          | EmptyString => (RuneError, 1%nat)
          | String c1 rest1 =>
              let s1 := byte c1 in
              if (s1 <? lo) || (hi <? s1) then (RuneError, 1%nat)
              else if sz <=? 2 then
                (Z.lor (Z.shiftl (Z.land s0 31) 6) (Z.land s1 63), 2%nat)
              else
                match rest1 with
                | EmptyString => (RuneError, 1%nat)
                | String c2 rest2 =>
                    let s2 := byte c2 in
                    if negb (is_cont s2) then (RuneError, 1%nat)
                    else if sz <=? 3 then
                      (Z.lor (Z.lor (Z.shiftl (Z.land s0 15) 12)
                                (Z.shiftl (Z.land s1 63) 6))
                         (Z.land s2 63), 3%nat)
                    else
                      match rest2 with
                      | EmptyString => (RuneError, 1%nat)
                      | String c3 _ =>
                          let s3 := byte c3 in
                          if negb (is_cont s3) then (RuneError, 1%nat)
                          else
                            (Z.lor (Z.lor (Z.lor (Z.shiftl (Z.land s0 7) 18)
                                             (Z.shiftl (Z.land s1 63) 12))
                                      (Z.shiftl (Z.land s2 63) 6))
                               (Z.land s3 63), 4%nat)
                      end
                end
          end
  end.

(** The runes of a string with the bytes of each, as [for i, r := range s]
    walks them; [fuel] bounds the number of runes by the number of
    bytes. *)
Fixpoint decode_from (fuel : nat) (s : string) : list (Z * string) :=
  match fuel with
  | O => []
  | S fuel' =>
      match s with
      | EmptyString => []
      | _ =>
          let '(r, width) := DecodeRuneInString s in
          (r, substring 0 width s)
            :: decode_from fuel' (Strings.drop_bytes width s)
      end
  end.

Definition decode (s : string) : list (Z * string) :=
  decode_from (String.length s) s.

(** [[]rune(s)] *)
Definition runes (s : string) : list Z := fst <$> decode s.

(** [utf8.AppendRune]: the encoding of a rune; a rune that is not a valid
    code point is encoded as [RuneError]. As in the library the tests are
    on [uint32(r)]. *)
Definition EncodeRune (r : Z) : string :=
  let i := r mod 2 ^ 32 in
  let three (r : Z) : string :=
    String (to_byte (Z.lor 224 (Z.shiftr r 12)))
      (String (to_byte (Z.lor 128 (Z.land (Z.shiftr r 6) 63)))
         (String (to_byte (Z.lor 128 (Z.land r 63))) EmptyString)) in
  if i <=? 127 then String (to_byte r) EmptyString
  else if i <=? 2047 then
    String (to_byte (Z.lor 192 (Z.shiftr r 6)))
      (String (to_byte (Z.lor 128 (Z.land r 63))) EmptyString)
  else if (MaxRune <? i) || ((55296 <=? i) && (i <=? 57343)) then
    three RuneError
  else if i <=? 65535 then three r
  else
    String (to_byte (Z.lor 240 (Z.shiftr r 18)))
      (String (to_byte (Z.lor 128 (Z.land (Z.shiftr r 12) 63)))
         (String (to_byte (Z.lor 128 (Z.land (Z.shiftr r 6) 63)))
            (String (to_byte (Z.lor 128 (Z.land r 63))) EmptyString))).

End Utf8.

Module Unicode.
Local Open Scope Z_scope.

(** [unicode.IsSpace(r)]: the code points with the property White_Space. *)
Definition IsSpace (r : Z) : bool :=
  if (0 <=? r) && (r <=? 255) then
    ((9 <=? r) && (r <=? 13)) || (r =? 32) || (r =? 133) || (r =? 160)
  else
    (r =? 5760) || ((8192 <=? r) && (r <=? 8202)) || (r =? 8232)
    || (r =? 8233) || (r =? 8239) || (r =? 8287) || (r =? 12288).

End Unicode.

Module StringsFields.

(** The loop of [strings.FieldsFunc(s, unicode.IsSpace)] over the runes of
    [s]: [cur] holds the bytes of the field being read, if any. *)
Fixpoint fields_of (rs : list (Z * string)) (cur : string)
  : list string :=
  match rs with
  | [] => if String.eqb cur "" then [] else [cur]
  | (r, bytes) :: rest =>
      if Unicode.IsSpace r
      then (if String.eqb cur "" then [] else [cur]) ++ fields_of rest ""
      else fields_of rest (cur +:+ bytes)
  end.

(** [strings.Fields(s)]: the pieces of [s] between runs of white space. *)
Definition Fields (s : string) : list string := fields_of (Utf8.decode s) "".

End StringsFields.

(* ===================================================================== *)
(** ** Package ui: the helpers of app.go *)
(* ===================================================================== *)

Module UiText.
Import Search.

(** One turn of the loop of [wrapText] over the words. *)
Definition wrap_word (width : Z) (st : list string * string) (word : string)
  : list string * string :=
  let '(lines, currentLine) := st in
  if String.eqb currentLine "" then (lines, word)
  else if (Strings.len (currentLine +:+ " " +:+ word) <=? width)%Z
  then (lines, currentLine +:+ " " +:+ word)
  else (lines ++ [currentLine], word).

(** [wrapText(text, width)] *)
Definition wrapText (text : string) (width : Z) : list string :=
  if (width <=? 0)%Z then [text]
  else
    let words := StringsFields.Fields text in
    if (slice_len words =? 0)%Z then []
    else
      let '(lines, currentLine) := fold_left (wrap_word width) words ([], ""%string) in
      if negb (String.eqb currentLine "") then lines ++ [currentLine]
      else lines.

End UiText.

(* ===================================================================== *)
(** ** filter.go: highlighting the matched characters *)
(* ===================================================================== *)

Module Highlight.
Import Search.
Local Open Scope Z_scope.

(** The map of the indexes to highlight: the loop
    [for _, idx := range indices { if idx < len(runes) { indexMap[idx] = true } }]. *)
Definition index_map (n : Z) (indices : list Z) : gmap Z bool :=
  foldl (fun indexMap idx =>
           if idx <? n then <[idx := true]> indexMap else indexMap)
        ∅ indices.

(** The loop [for i, r := range runes] that writes to the builder; a
    missing key of the map reads as false. *)
Fixpoint write_runes (highlightStyle : string -> string)
         (indexMap : gmap Z bool) (i : Z) (runes : list Z) (result : string)
  : string :=
  match runes with
  | [] => result
  | r :: rest =>
      write_runes highlightStyle indexMap (i + 1) rest
        (if default false (indexMap !! i)
         then result +:+ highlightStyle (Utf8.EncodeRune r)
         else result +:+ Utf8.EncodeRune r)
  end.

(** [HighlightText(text, indices, highlightStyle)] *)
Definition HighlightText (text : string) (indices : list Z)
           (highlightStyle : string -> string) : string :=
  if slice_len indices =? 0 then text
  else
    let runes := Utf8.runes text in
    let indexMap := index_map (slice_len runes) indices in
    write_runes highlightStyle indexMap 0 runes "".

End Highlight.

(* ===================================================================== *)
(** ** engine.go: the engine over both searches *)
(* ===================================================================== *)

Module Engine.
Import Search.

(** [SearchType] *)
Definition SearchTypeFilter : Z := 0.
Definition SearchTypeContent : Z := 1.

(** [engine]; the filter engine has no field. *)
Record engine (Time : Type) := {
  engine_sessions : list (SessionInfo Time);
  engine_content : contentEngine
}.
Arguments engine_sessions {Time} _.
Arguments engine_content {Time} _.

Section World.
Context {Time : Type}.
Variable time_Format : Time -> string -> string.
Variable exec_LookPath : string -> bool.
Variable exec_Output : string -> list string -> string * option error.
Variable json_Unmarshal : string -> option (gmap string iface).
Variable fuzzy_FindFrom : string -> list string -> list fuzzy.Match.

(** [NewEngine(sessions)] *)
Definition NewEngine (sessions : list (SessionInfo Time)) : engine Time :=
  {| engine_sessions := sessions;
     engine_content := NewContentEngine exec_LookPath |}.

(** The method [UpdateSessions] of [engine]. *)
Definition UpdateSessions (e : engine Time) (sessions : list (SessionInfo Time))
  : engine Time :=
  {| engine_sessions := sessions; engine_content := engine_content e |}.

(** The method [Search] of [engine]: whatever the scheduling of a content
    search, the call ends, in an outcome that satisfies [P]. A panic of
    [Filter] is the outcome [Panics]. *)
Definition Search_always (e : engine Time) (ctx : context) (query : string)
           (searchType : Z) (P : outcome -> Prop) : Prop :=
  if (searchType =? SearchTypeFilter)%Z then
    match Filter time_Format fuzzy_FindFrom query (engine_sessions e) with
    | Some results => P (Returns results None)
    | None => P Panics
    end
  else if (searchType =? SearchTypeContent)%Z then
    SearchContent_always exec_Output json_Unmarshal (engine_content e) query
      (engine_sessions e) ctx P
  else P (Returns [] None).

End World.
End Engine.

(* ===================================================================== *)
(** ** Package ui: the model of the application and its Update *)
(* ===================================================================== *)

Module Ui.
Import Search Engine.

(** [SearchState] *)
Inductive SearchState : Type :=
| SearchStateNormal    (* no search active *)
| SearchStateInput     (* the user is typing in the search box *)
| SearchStateResults.  (* the user is navigating the filtered results *)

Section World.
Context {Time : Type}.
(** The text input of the bubbles library, the key messages of bubbletea
    and the commands the text input returns. *)
Context {TextInput KeyMsg InputCmd : Type}.
Variable textinput_Update : TextInput -> KeyMsg -> TextInput * InputCmd.
Variable textinput_Value : TextInput -> string.
Variable textinput_Focus : TextInput -> TextInput.
Variable textinput_Blur : TextInput -> TextInput.
Variable textinput_SetValue : TextInput -> string -> TextInput.
(** The text input as [NewApp] sets it up. *)
Variable textinput_New : TextInput.
(** [msg.String()] of a key message. *)
Variable KeyMsg_String : KeyMsg -> string.
(** [sort.Slice(x, less)], with [less] over the items. *)
Variable sort_Slice :
  (SessionInfo Time -> SessionInfo Time -> bool) ->
  list (SessionInfo Time) -> list (SessionInfo Time).
(** [t.After(u)] *)
Variable time_After : Time -> Time -> bool.
Variable time_zero : Time.
Variable exec_LookPath : string -> bool.
(** The method [Copy] of the clipboard manager. *)
Variable clipboard_Copy : string -> option error.
(** [err.Error()] *)
Variable error_Error : error -> string.

Local Abbreviation SessionInfo := (Search.SessionInfo Time).
Local Abbreviation FullSession := (Model.FullSession Time).
Local Abbreviation engine := (Engine.engine Time).

(** The commands [Update] returns. *)
Inductive Cmd : Type :=
| CmdNil                                (* nil *)
| CmdLoadSessions                       (* m.loadSessions() *)
| CmdLoadFullSession (filePath : string) (* m.loadFullSession(filePath) *)
| CmdPerformSearch                      (* m.performSearchCmd() *)
| CmdQuit                               (* tea.Quit *)
| CmdBlink                              (* textinput.Blink *)
| CmdClearStatusLater                   (* tea.Tick(2*time.Second, ...) *)
| CmdInput (cmd : InputCmd)             (* what the text input returned *)
| CmdBatch (cmds : list Cmd).           (* tea.Batch(...) *)

(** The messages [Update] receives. *)
Inductive Msg : Type :=
| WindowSizeMsg (Width Height : Z)
| sessionsLoadedMsg (sessions : list SessionInfo) (err : option error)
| fullSessionLoadedMsg (session : option FullSession) (err : option error)
| clearStatusMsg
| searchCompleteMsg (results : list SearchResult) (query : string)
                    (err : option error)
| KeyPress (key : KeyMsg)
| OtherMsg.

(** [Model]; the parser and the clipboard manager have no state. *)
Record Model := {
  sessions : list SessionInfo;
  fullSession : option FullSession;
  claudeDir : string;
  version : string;
  width : Z;
  height : Z;
  selected : Z;
  scrollOffset : Z;
  loading : bool;
  err : option error;
  searchEngine : option engine;
  searchState : SearchState;
  searchInput : TextInput;
  searchQuery : string;
  searchResults : list SearchResult;
  filteredSessions : list SessionInfo;
  statusMsg : string;
  statusTimer : Time
}.

Definition set_sessions (m : Model) (v : list SessionInfo) : Model :=
  {| sessions := v; fullSession := fullSession m; claudeDir := claudeDir m;
     version := version m; width := width m; height := height m;
     selected := selected m; scrollOffset := scrollOffset m;
     loading := loading m; err := err m; searchEngine := searchEngine m;
     searchState := searchState m; searchInput := searchInput m;
     searchQuery := searchQuery m; searchResults := searchResults m;
     filteredSessions := filteredSessions m; statusMsg := statusMsg m;
     statusTimer := statusTimer m |}.
Definition set_fullSession (m : Model) (v : option FullSession) : Model :=
  {| sessions := sessions m; fullSession := v; claudeDir := claudeDir m;
     version := version m; width := width m; height := height m;
     selected := selected m; scrollOffset := scrollOffset m;
     loading := loading m; err := err m; searchEngine := searchEngine m;
     searchState := searchState m; searchInput := searchInput m;
     searchQuery := searchQuery m; searchResults := searchResults m;
     filteredSessions := filteredSessions m; statusMsg := statusMsg m;
     statusTimer := statusTimer m |}.
Definition set_size (m : Model) (w h : Z) : Model :=
  {| sessions := sessions m; fullSession := fullSession m;
     claudeDir := claudeDir m; version := version m; width := w; height := h;
     selected := selected m; scrollOffset := scrollOffset m;
     loading := loading m; err := err m; searchEngine := searchEngine m;
     searchState := searchState m; searchInput := searchInput m;
     searchQuery := searchQuery m; searchResults := searchResults m;
     filteredSessions := filteredSessions m; statusMsg := statusMsg m;
     statusTimer := statusTimer m |}.
Definition set_selected (m : Model) (v : Z) : Model :=
  {| sessions := sessions m; fullSession := fullSession m;
     claudeDir := claudeDir m; version := version m; width := width m;
     height := height m; selected := v; scrollOffset := scrollOffset m;
     loading := loading m; err := err m; searchEngine := searchEngine m;
     searchState := searchState m; searchInput := searchInput m;
     searchQuery := searchQuery m; searchResults := searchResults m;
     filteredSessions := filteredSessions m; statusMsg := statusMsg m;
     statusTimer := statusTimer m |}.
Definition set_scrollOffset (m : Model) (v : Z) : Model :=
  {| sessions := sessions m; fullSession := fullSession m;
     claudeDir := claudeDir m; version := version m; width := width m;
     height := height m; selected := selected m; scrollOffset := v;
     loading := loading m; err := err m; searchEngine := searchEngine m;
     searchState := searchState m; searchInput := searchInput m;
     searchQuery := searchQuery m; searchResults := searchResults m;
     filteredSessions := filteredSessions m; statusMsg := statusMsg m;
     statusTimer := statusTimer m |}.
Definition set_loading (m : Model) (v : bool) : Model :=
  {| sessions := sessions m; fullSession := fullSession m;
     claudeDir := claudeDir m; version := version m; width := width m;
     height := height m; selected := selected m;
     scrollOffset := scrollOffset m; loading := v; err := err m;
     searchEngine := searchEngine m; searchState := searchState m;
     searchInput := searchInput m; searchQuery := searchQuery m;
     searchResults := searchResults m;
     filteredSessions := filteredSessions m; statusMsg := statusMsg m;
     statusTimer := statusTimer m |}.
Definition set_err (m : Model) (v : option error) : Model :=
  {| sessions := sessions m; fullSession := fullSession m;
     claudeDir := claudeDir m; version := version m; width := width m;
     height := height m; selected := selected m;
     scrollOffset := scrollOffset m; loading := loading m; err := v;
     searchEngine := searchEngine m; searchState := searchState m;
     searchInput := searchInput m; searchQuery := searchQuery m;
     searchResults := searchResults m;
     filteredSessions := filteredSessions m; statusMsg := statusMsg m;
     statusTimer := statusTimer m |}.
Definition set_searchEngine (m : Model) (v : option engine) : Model :=
  {| sessions := sessions m; fullSession := fullSession m;
     claudeDir := claudeDir m; version := version m; width := width m;
     height := height m; selected := selected m;
     scrollOffset := scrollOffset m; loading := loading m; err := err m;
     searchEngine := v; searchState := searchState m;
     searchInput := searchInput m; searchQuery := searchQuery m;
     searchResults := searchResults m;
     filteredSessions := filteredSessions m; statusMsg := statusMsg m;
     statusTimer := statusTimer m |}.
Definition set_searchState (m : Model) (v : SearchState) : Model :=
  {| sessions := sessions m; fullSession := fullSession m;
     claudeDir := claudeDir m; version := version m; width := width m;
     height := height m; selected := selected m;
     scrollOffset := scrollOffset m; loading := loading m; err := err m;
     searchEngine := searchEngine m; searchState := v;
     searchInput := searchInput m; searchQuery := searchQuery m;
     searchResults := searchResults m;
     filteredSessions := filteredSessions m; statusMsg := statusMsg m;
     statusTimer := statusTimer m |}.
Definition set_searchInput (m : Model) (v : TextInput) : Model :=
  {| sessions := sessions m; fullSession := fullSession m;
     claudeDir := claudeDir m; version := version m; width := width m;
     height := height m; selected := selected m;
     scrollOffset := scrollOffset m; loading := loading m; err := err m;
     searchEngine := searchEngine m; searchState := searchState m;
     searchInput := v; searchQuery := searchQuery m;
     searchResults := searchResults m;
     filteredSessions := filteredSessions m; statusMsg := statusMsg m;
     statusTimer := statusTimer m |}.
Definition set_searchQuery (m : Model) (v : string) : Model :=
  {| sessions := sessions m; fullSession := fullSession m;
     claudeDir := claudeDir m; version := version m; width := width m;
     height := height m; selected := selected m;
     scrollOffset := scrollOffset m; loading := loading m; err := err m;
     searchEngine := searchEngine m; searchState := searchState m;
     searchInput := searchInput m; searchQuery := v;
     searchResults := searchResults m;
     filteredSessions := filteredSessions m; statusMsg := statusMsg m;
     statusTimer := statusTimer m |}.
Definition set_searchResults (m : Model) (v : list SearchResult) : Model :=
  {| sessions := sessions m; fullSession := fullSession m;
     claudeDir := claudeDir m; version := version m; width := width m;
     height := height m; selected := selected m;
     scrollOffset := scrollOffset m; loading := loading m; err := err m;
     searchEngine := searchEngine m; searchState := searchState m;
     searchInput := searchInput m; searchQuery := searchQuery m;
     searchResults := v;
     filteredSessions := filteredSessions m; statusMsg := statusMsg m;
     statusTimer := statusTimer m |}.
Definition set_filteredSessions (m : Model) (v : list SessionInfo) : Model :=
  {| sessions := sessions m; fullSession := fullSession m;
     claudeDir := claudeDir m; version := version m; width := width m;
     height := height m; selected := selected m;
     scrollOffset := scrollOffset m; loading := loading m; err := err m;
     searchEngine := searchEngine m; searchState := searchState m;
     searchInput := searchInput m; searchQuery := searchQuery m;
     searchResults := searchResults m;
     filteredSessions := v; statusMsg := statusMsg m;
     statusTimer := statusTimer m |}.
Definition set_statusMsg (m : Model) (v : string) : Model :=
  {| sessions := sessions m; fullSession := fullSession m;
     claudeDir := claudeDir m; version := version m; width := width m;
     height := height m; selected := selected m;
     scrollOffset := scrollOffset m; loading := loading m; err := err m;
     searchEngine := searchEngine m; searchState := searchState m;
     searchInput := searchInput m; searchQuery := searchQuery m;
     searchResults := searchResults m;
     filteredSessions := filteredSessions m; statusMsg := v;
     statusTimer := statusTimer m |}.
Definition set_statusTimer (m : Model) (v : Time) : Model :=
  {| sessions := sessions m; fullSession := fullSession m;
     claudeDir := claudeDir m; version := version m; width := width m;
     height := height m; selected := selected m;
     scrollOffset := scrollOffset m; loading := loading m; err := err m;
     searchEngine := searchEngine m; searchState := searchState m;
     searchInput := searchInput m; searchQuery := searchQuery m;
     searchResults := searchResults m;
     filteredSessions := filteredSessions m; statusMsg := statusMsg m;
     statusTimer := v |}.

(** [NewApp(claudeDir, version)] *)
Definition NewApp (claudeDir version : string) : Model :=
  {| sessions := []; fullSession := None; claudeDir := claudeDir;
     version := version; width := 80; height := 24; selected := 0;
     scrollOffset := 0; loading := true; err := None; searchEngine := None;
     searchState := SearchStateNormal; searchInput := textinput_New;
     searchQuery := ""; searchResults := []; filteredSessions := [];
     statusMsg := ""; statusTimer := time_zero |}.

(** The method [Init]. *)
Definition Init (m : Model) : Cmd := CmdLoadSessions.

(** The method [ensureVisible]. *)
Definition ensureVisible (m : Model) : Model :=
  let innerHeight := GoInt.sub (GoInt.sub (height m) 1) 5 in
  let itemsHeight := GoInt.sub innerHeight 2 in
  let itemsHeight := if (itemsHeight <? 1)%Z then 1%Z else itemsHeight in
  (* adjust scroll to keep selection visible *)
  let m :=
    if (selected m <? scrollOffset m)%Z then set_scrollOffset m (selected m)
    else if (selected m >=? GoInt.add (scrollOffset m) itemsHeight)%Z
    then set_scrollOffset m
           (GoInt.add (GoInt.sub (selected m) itemsHeight) 1)
    else m in
  (* ensure scroll offset is valid *)
  let maxScroll := GoInt.sub (slice_len (filteredSessions m)) itemsHeight in
  let maxScroll := if (maxScroll <? 0)%Z then 0%Z else maxScroll in
  let m :=
    if (scrollOffset m >? maxScroll)%Z then set_scrollOffset m maxScroll
    else m in
  if (scrollOffset m <? 0)%Z then set_scrollOffset m 0 else m.

(** The method [checkRipgrep]. *)
Definition checkRipgrep (m : Model) : bool := exec_LookPath "rg".

(** The method [enterSearchMode]; [now] is what [time.Now()] returns. *)
Definition enterSearchMode (now : Time) (m : Model) : Model :=
  let m :=
    if negb (checkRipgrep m) then
      set_statusTimer
        (set_statusMsg m
           "Warning: ripgrep (rg) not found. Install it for search to work.")
        now
    else m in
  let m := set_searchState m SearchStateInput in
  let m := set_searchInput m (textinput_Focus (searchInput m)) in
  set_searchInput m (textinput_SetValue (searchInput m) (searchQuery m)).

(** The method [clearSearch]. *)
Definition clearSearch (m : Model) : Model :=
  let m := set_searchState m SearchStateNormal in
  let m := set_searchInput m (textinput_Blur (searchInput m)) in
  let m := set_searchInput m (textinput_SetValue (searchInput m) "") in
  let m := set_searchQuery m "" in
  let m := set_searchResults m [] in
  let m := set_filteredSessions m (sessions m) in
  let m := set_selected m 0 in
  set_scrollOffset m 0.

(** The session a key has moved the selection to is loaded when the
    selection is within the list:
    [if m.selected < len(m.filteredSessions)
       { return m, m.loadFullSession(m.filteredSessions[m.selected].FilePath) }];
    [None] is an index panic. *)
Definition load_selected (m : Model) : option (Model * Cmd) :=
  if (selected m <? slice_len (filteredSessions m))%Z then
    session ← at_index (filteredSessions m) (selected m);
    Some (m, CmdLoadFullSession (FilePath session))
  else Some (m, CmdNil).

(** The keys up and k. *)
Definition key_up (m : Model) : option (Model * Cmd) :=
  if (selected m >? 0)%Z then
    let m := set_selected m (GoInt.sub (selected m) 1) in
    let m := ensureVisible m in
    load_selected m
  else Some (m, CmdNil).

(** The keys down and j. *)
Definition key_down (m : Model) : option (Model * Cmd) :=
  if (selected m <? GoInt.sub (slice_len (filteredSessions m)) 1)%Z then
    let m := set_selected m (GoInt.add (selected m) 1) in
    let m := ensureVisible m in
    load_selected m
  else Some (m, CmdNil).

(** The key enter outside of the search box. *)
Definition key_enter (now : Time) (m : Model) : option (Model * Cmd) :=
  match fullSession m with
  | Some full =>
      let cmd := Model.GetResumeCommand full in
      let m :=
        match clipboard_Copy cmd with
        | Some err => set_statusMsg m ("Copy failed: " +:+ error_Error err)
        | None => set_statusMsg m "Copied to clipboard!"
        end in
      let m := set_statusTimer m now in
      Some (m, CmdClearStatusLater)
  | None => Some (m, CmdNil)
  end.

(** The key r. *)
Definition key_refresh (m : Model) : option (Model * Cmd) :=
  let m := set_loading m true in
  let m := clearSearch m in
  Some (m, CmdLoadSessions).

(** The loop over the results of a finished search, appending to
    [m.filteredSessions]; [None] is an index panic. *)
Fixpoint filter_sessions (all : list SessionInfo)
         (results : list SearchResult) (filtered : list SessionInfo)
  : option (list SessionInfo) :=
  match results with
  | [] => Some filtered
  | result :: rest =>
      if (SessionIndex result <? slice_len all)%Z then
        session ← at_index all (SessionIndex result);
        filter_sessions all rest (filtered ++ [session])
      else filter_sessions all rest filtered
  end.

Definition eqs (a b : string) : bool := String.eqb a b.

(** The method [Update]: the new model and the command; [now] is what
    [time.Now()] returns during the call; [None] is a panic. *)
Definition Update (now : Time) (m : Model) (msg : Msg)
  : option (Model * Cmd) :=
  match msg with
  | WindowSizeMsg w h => Some (set_size m w h, CmdNil)

  | sessionsLoadedMsg loaded e =>
      let m := set_loading m false in
      let m := set_sessions m loaded in
      let m := set_err m e in
      (* sort by most recent *)
      let m :=
        set_sessions m
          (sort_Slice
             (fun a b => time_After (LastActive a) (LastActive b))
             (sessions m)) in
      (* initialize the search engine with the sessions *)
      let m :=
        if (slice_len (sessions m) >? 0)%Z then
          let m := set_searchEngine m
                     (Some (NewEngine exec_LookPath (sessions m))) in
          set_filteredSessions m (sessions m)
        else m in
      (* select the first and load it *)
      if (slice_len (filteredSessions m) >? 0)%Z then
        let m := set_selected m 0 in
        let m := set_scrollOffset m 0 in
        session ← at_index (filteredSessions m) 0;
        Some (m, CmdLoadFullSession (FilePath session))
      else Some (m, CmdNil)

  | fullSessionLoadedMsg session e =>
      let m := set_fullSession m session in
      let m :=
        match e with
        | Some e' =>
            set_statusTimer (set_statusMsg m ("Error: " +:+ error_Error e'))
              now
        | None => m
        end in
      Some (m, CmdNil)

  | clearStatusMsg => Some (set_statusMsg m "", CmdNil)

  | searchCompleteMsg results query e =>
      (* ignore if the search query has changed *)
      if negb (eqs query (searchQuery m)) then Some (m, CmdNil)
      else
        match e with
        | Some e' =>
            let m := set_statusMsg m ("Search error: " +:+ error_Error e') in
            let m := set_statusTimer m now in
            Some (m, CmdNil)
        | None =>
            (* store the search results *)
            let m := set_searchResults m results in
            (* update the filtered sessions *)
            filtered ← filter_sessions (sessions m) results [];
            let m := set_filteredSessions m filtered in
            (* update the status *)
            let m :=
              if (slice_len (filteredSessions m) =? 0)%Z then
                set_statusMsg m
                  ("No matches found for '" +:+ searchQuery m +:+ "'")
              else
                set_statusMsg m
                  ("Found " +:+ pretty (slice_len (filteredSessions m))
                   +:+ " sessions matching '" +:+ searchQuery m +:+ "'") in
            let m := set_statusTimer m now in
            (* reset the selection and load the first session *)
            if (slice_len (filteredSessions m) >? 0)%Z then
              let m := set_selected m 0 in
              let m := set_scrollOffset m 0 in
              session ← at_index (filteredSessions m) 0;
              Some (m, CmdLoadFullSession (FilePath session))
            else Some (m, CmdNil)
        end

  | KeyPress key =>
      let k := KeyMsg_String key in
      match searchState m with
      | SearchStateInput =>
          if eqs k "esc" then Some (clearSearch m, CmdNil)
          else if eqs k "tab" || eqs k "enter" then
            if negb (eqs (searchQuery m) "") then
              let m := set_searchState m SearchStateResults in
              let m := set_searchInput m (textinput_Blur (searchInput m)) in
              Some (m, CmdNil)
            else Some (m, CmdNil)
          else
            (* update the search input *)
            let '(input, cmd) := textinput_Update (searchInput m) key in
            let m := set_searchInput m input in
            let m := set_searchQuery m (textinput_Value (searchInput m)) in
            (* trigger the search *)
            if negb (eqs (searchQuery m) "") then
              let m := set_statusMsg m "Searching..." in
              let m := set_statusTimer m now in
              Some (m, CmdBatch [CmdInput cmd; CmdPerformSearch])
            else
              let m := set_filteredSessions m (sessions m) in
              let m := set_searchResults m [] in
              let m := set_statusMsg m "" in
              Some (m, CmdInput cmd)
      | SearchStateResults =>
          if eqs k "ctrl+c" || eqs k "q" then Some (m, CmdQuit)
          else if eqs k "esc" then Some (clearSearch m, CmdNil)
          else if eqs k "/" then
            let m := set_searchState m SearchStateInput in
            let m := set_searchInput m (textinput_Focus (searchInput m)) in
            Some (m, CmdBlink)
          else if eqs k "up" || eqs k "k" then key_up m
          else if eqs k "down" || eqs k "j" then key_down m
          else if eqs k "enter" then key_enter now m
          else if eqs k "r" then key_refresh m
          else Some (m, CmdNil)
      | SearchStateNormal =>
          if eqs k "ctrl+c" || eqs k "q" then Some (m, CmdQuit)
          else if eqs k "/" then Some (enterSearchMode now m, CmdBlink)
          else if eqs k "up" || eqs k "k" then key_up m
          else if eqs k "down" || eqs k "j" then key_down m
          else if eqs k "enter" then key_enter now m
          else if eqs k "r" then key_refresh m
          else Some (m, CmdNil)
      end

  | OtherMsg => Some (m, CmdNil)
  end.

(** The program on a sequence of messages, each with the time of its
    [Update]; [None] is a panic. *)
Fixpoint updates (msgs : list (Time * Msg)) (m : Model) : option Model :=
  match msgs with
  | [] => Some m
  | (now, msg) :: rest =>
      '(m, _) ← Update now m msg;
      updates rest m
  end.

End World.
End Ui.

(** The command [performSearchCmd] returns, when it runs. It runs in a
    goroutine of its own and reads the model through the pointer it has
    captured, while [Update] goes on changing that model: [reads k] is the
    model at the moment of the command's read number [k] of a field. *)
Module UiSearch.
Import Search Engine Ui.

Section World.
Context {Time TextInput KeyMsg : Type}.
Variable exec_Output : string -> list string -> string * option error.
Variable json_Unmarshal : string -> option (gmap string iface).
Variable time_Format : Time -> string -> string.
Variable fuzzy_FindFrom : string -> list string -> list fuzzy.Match.

Local Abbreviation Model := (@Ui.Model Time TextInput).
Local Abbreviation Msg := (@Ui.Msg Time KeyMsg).

(** Whatever the scheduling of the search, the command ends; [P] holds of
    the message it returns ([None]: a panic, of the search or of the call
    through a nil engine). The context is the background context with a
    timeout of ten seconds, which may expire at any time. *)
Definition performSearch_always (reads : nat -> Model)
           (P : option Msg -> Prop) : Prop :=
  match searchEngine (reads 0%nat) with
  | None =>
      P (Some (searchCompleteMsg [] (searchQuery (reads 1%nat)) None))
  | Some _ =>
      if String.eqb (searchQuery (reads 1%nat)) "" then
        P (Some (searchCompleteMsg [] (searchQuery (reads 2%nat)) None))
      else
        match searchEngine (reads 2%nat) with
        | Some e =>
            Search_always time_Format exec_Output json_Unmarshal
              fuzzy_FindFrom e (Pending DeadlineExceeded)
              (searchQuery (reads 3%nat)) SearchTypeContent
              (fun o =>
                 match o with
                 | Returns results err =>
                     P (Some (searchCompleteMsg results
                                (searchQuery (reads 4%nat)) err))
                 | Panics => P None
                 end)
        | None => P None
        end
  end.

End World.
End UiSearch.

(* ===================================================================== *)
(** ** A second concrete world: a directory of transcripts *)
(* ===================================================================== *)

(** A directory of transcripts and what is in them. *)
Module ExampleFiles.
Import Search.

Definition projects : string := "/home/u/.claude/projects/-home-u-app".

(** Two transcripts, a text file, a directory with a transcript's name,
    and a transcript that is removed before it is looked at. *)
Definition listing : list (DirEntry unit) :=
  [ {| entry_Name := "a1.jsonl"; entry_IsDir := false; entry_ModTime := Some tt |};
    {| entry_Name := "b2.jsonl"; entry_IsDir := false; entry_ModTime := Some tt |};
    {| entry_Name := "dir.jsonl"; entry_IsDir := true; entry_ModTime := Some tt |};
    {| entry_Name := "gone.jsonl"; entry_IsDir := false; entry_ModTime := None |};
    {| entry_Name := "notes.txt"; entry_IsDir := false; entry_ModTime := Some tt |} ].

Definition read_dir (dir : string) : list (DirEntry unit) + error :=
  if String.eqb dir projects then inl listing
  else inr (ErrOther "no such directory").

(** The lines of a transcript, shortened to the members the parser reads. *)
Definition user_line : string := "{user: fix the login page}".
Definition reply_line : string := "{assistant}".
Definition reminder_line : string := "{user: system-reminder}".
Definition other_line : string := "not a record".

Definition transcript : string :=
  user_line +:+ Example.nl +:+ Example.nl +:+ reply_line +:+ Example.nl
  +:+ reminder_line +:+ Example.nl +:+ other_line.

Definition open_file (path : string) : string + error :=
  if String.eqb path (projects +:+ "/a1.jsonl") then inl transcript
  else inr (ErrOther "no such file").

Definition typed (msgType : string) : gmap string iface :=
  {[ "type"%string := IString msgType ]}.

Definition user_record (content : string) : gmap string iface :=
  {[ "type"%string := IString "user";
     "message"%string := IObject {[ "content"%string := IString content ]} ]}.

Definition decode (line : string) : option (gmap string iface) :=
  if String.eqb line user_line then Some (user_record "fix the login page")
  else if String.eqb line reply_line then Some (typed "assistant")
  else if String.eqb line reminder_line
  then Some (user_record "system-reminder")
  else None.

(** These contents have no space around them. *)
Definition trim (s : string) : string := s.
Definition parse_time (layout value : string) : option unit := None.

(** The first transcript as [ListSessions] lists it and as
    [ParseFullSession] reads it. *)
Definition a1 : SessionInfo unit :=
  {| ID := "a1"; FilePath := projects +:+ "/a1.jsonl"; LastActive := tt |}.

Definition a1_parsed : Model.FullSession unit :=
  {| Model.ID := "a1"; Model.FilePath := projects +:+ "/a1.jsonl";
     Model.Summary := "fix the login page"; Model.LastActive := tt;
     Model.MessageCount := 3; Model.TotalCostUSD := 0%float;
     Model.LastRawMessages := [other_line] |}.

(** A file and an output of the tool that end in a line of 1 MiB. *)
Definition long_line : string := Example.doubled 20 "x".
Definition long_file : string := (user_line +:+ Example.nl) +:+ long_line.
Definition open_long (path : string) : string + error := inl long_file.
Definition open_cut (path : string) : string + error :=
  inl (user_line +:+ Example.nl).
Definition mib_tool (path : string) (args : list string)
  : string * option error :=
  (Example.rg_output +:+ long_line, None).

(** Accented letters, two bytes each in UTF-8: the word deja vu with its
    accents. *)
Definition deja_vu : string :=
  "d" +:+ String "195" (String "169" "j")
  +:+ String "195" (String "160" " vu").
Definition bracketed (s : string) : string := "[" +:+ s +:+ "]".

End ExampleFiles.

(* ===================================================================== *)
(** ** A third concrete world: the application at the keyboard *)
(* ===================================================================== *)

Module ExampleUi.
Import Search Engine Ui Example.

(** A text input that holds what was typed; the key backspace empties
    it. *)
Definition type_key (input key : string) : string * unit :=
  (if String.eqb key "backspace" then ""%string else input +:+ key, tt).
Definition value (input : string) : string := input.
Definition focus (input : string) : string := input.
Definition set_value (input v : string) : string := v.
Definition key_name (key : string) : string := key.

(** All the sessions have the same time: the sort may leave them as they
    are. *)
Definition after (t u : unit) : bool := false.
Definition sorted (less : SessionInfo unit -> SessionInfo unit -> bool)
           (sessions : list (SessionInfo unit)) : list (SessionInfo unit) :=
  sessions.

Definition copy (text : string) : option error := None.
Definition describe (e : error) : string := "error".

Definition start : @Model unit string :=
  NewApp ""%string tt "/home/u/.claude/projects/-home-u-app" "1.0".

Definition run (msgs : list (unit * @Msg unit string)) (m : @Model unit string)
  : option (@Model unit string) :=
  updates type_key value focus focus set_value key_name sorted after
    rg_on_path copy describe msgs m.

(** The sessions are loaded and the user moves down the list. *)
Definition browsing : list (unit * @Msg unit string) :=
  [ (tt, sessionsLoadedMsg [s_oauth; s_webpack] None);
    (tt, KeyPress "down"%string);
    (tt, searchCompleteMsg [oauth_result 0] "" None) ].

(** The model once the sessions are loaded. *)
Definition loaded : @Model unit string :=
  default start
    (run [(tt, sessionsLoadedMsg [s_oauth; s_webpack] None)] start).

(** The sessions are loaded, the user opens the search box and types a
    letter; then takes it back. *)
Definition typing : list (unit * @Msg unit string) :=
  [ (tt, sessionsLoadedMsg [s_oauth; s_webpack] None);
    (tt, KeyPress "/"%string);
    (tt, KeyPress "O"%string) ].
Definition searching : @Model unit string := default start (run typing start).
Definition cleared : @Model unit string :=
  default start (run (typing ++ [(tt, KeyPress "backspace"%string)]) start).

(** The command starts before the letter is taken back and tests the
    query after. *)
Definition overtaken (k : nat) : @Model unit string :=
  match k with O => searching | _ => cleared end.


End ExampleUi.

(* ##################################################################### *)
(** * Part II: the facts *)
(* ##################################################################### *)

(* ===================================================================== *)
(** ** Integers that do not wrap *)
(* ===================================================================== *)

Module GoIntFacts.
Import GoInt.
Local Open Scope Z_scope.

Lemma wrap_in_range z : in_range z -> wrap z = z.
Proof.
  unfold in_range, min_int, max_int, wrap. intros Hz.
  rewrite Z.mod_small; lia.
Qed.

Lemma add_exact a b : in_range (a + b) -> add a b = a + b.
Proof. apply wrap_in_range. Qed.

Lemma sub_exact a b : in_range (a - b) -> sub a b = a - b.
Proof. apply wrap_in_range. Qed.

End GoIntFacts.

(* ===================================================================== *)
(** ** Byte strings *)
(* ===================================================================== *)

Module StringFacts.
Import Strings.

Lemma length_substring (s : string) (n m : nat) :
  n + m <= String.length s -> String.length (substring n m s) = m.
Proof.
  revert n m. induction s as [|c s IH]; intros n m Hle; simpl in *.
  - destruct n, m; simpl; lia.
  - destruct n as [|n].
    + destruct m as [|m]; simpl; [reflexivity|].
      f_equal. apply (IH 0). lia.
    + apply IH. lia.
Qed.

Lemma substring_drop_bytes (s : string) (n : nat) :
  substring n (String.length s - n) s = drop_bytes n s.
Proof.
  revert n. induction s as [|c s IH]; intros [|n]; simpl; try reflexivity.
  - f_equal. specialize (IH 0). rewrite Nat.sub_0_r in IH.
    destruct s; exact IH.
  - apply IH.
Qed.

Lemma length_drop_bytes (s : string) (n : nat) :
  String.length (drop_bytes n s) = String.length s - n.
Proof.
  revert n. induction s as [|c s IH]; intros [|n]; simpl; auto.
Qed.

Lemma prefix_length (p s : string) :
  String.prefix p s = true -> String.length p <= String.length s.
Proof.
  revert s. induction p as [|a p IH]; intros [|b s]; simpl; try lia; try discriminate.
  destruct (Ascii.ascii_dec a b); [|discriminate].
  intros H. apply IH in H. lia.
Qed.

Lemma first_occurrence_0 (substr s : string) :
  String.prefix substr s = true -> first_occurrence substr s 0.
Proof.
  intros Hp. split; [lia|]. split; [exact Hp|]. intros j Hj. lia.
Qed.

Lemma first_occurrence_S (substr : string) (c : ascii) (s : string) (i : nat) :
  String.prefix substr (String c s) = false ->
  first_occurrence substr (String c s) (S i) <-> first_occurrence substr s i.
Proof.
  intros Hp. unfold first_occurrence. cbn [String.length drop_bytes].
  split; intros (Hle & Hpre & Hmin); (split; [lia|]); (split; [exact Hpre|]).
  - intros j Hj. apply (Hmin (S j)). lia.
  - intros [|j] Hj; [exact Hp|]. apply Hmin. lia.
Qed.

Lemma first_occurrence_inv_0 (substr s : string) (i : nat) :
  String.prefix substr s = true -> first_occurrence substr s i -> i = 0.
Proof.
  intros Hp (_ & _ & Hmin). destruct i as [|i]; [reflexivity|].
  specialize (Hmin 0 ltac:(lia)). cbn [drop_bytes] in Hmin. congruence.
Qed.

Lemma first_occurrence_inv_S (substr s : string) (i : nat) :
  String.prefix substr s = false -> first_occurrence substr s i ->
  exists c s' k, s = String c s' /\ i = S k.
Proof.
  intros Hp (Hle & Hpre & _). destruct i as [|i].
  { cbn [drop_bytes] in Hpre. congruence. }
  destruct s as [|c s']; [cbn [String.length] in Hle; lia|]. eauto.
Qed.

Lemma index_nat_first (s substr : string) (i : nat) :
  index_nat s substr = Some i <-> first_occurrence substr s i.
Proof.
  revert i. induction s as [|c s IH]; intros i; cbn [index_nat].
  - destruct (String.prefix substr "") eqn:Hp.
    + split.
      * intros Heq; injection Heq as <-. by apply first_occurrence_0.
      * intros Hfo. by rewrite (first_occurrence_inv_0 _ _ _ Hp Hfo).
    + split; [discriminate|].
      intros Hfo. destruct (first_occurrence_inv_S _ _ _ Hp Hfo)
        as (c & s' & k & Hs & _). discriminate.
  - destruct (String.prefix substr (String c s)) eqn:Hp.
    + split.
      * intros Heq; injection Heq as <-. by apply first_occurrence_0.
      * intros Hfo. by rewrite (first_occurrence_inv_0 _ _ _ Hp Hfo).
    + split.
      * destruct (index_nat s substr) as [k|] eqn:Hk; [|discriminate].
        intros Heq; injection Heq as <-.
        apply first_occurrence_S; [exact Hp|]. by apply IH.
      * intros Hfo. destruct (first_occurrence_inv_S _ _ _ Hp Hfo)
          as (c' & s' & k & Hs & ->).
        apply first_occurrence_S in Hfo; [|exact Hp].
        apply IH in Hfo. by rewrite Hfo.
Qed.

Lemma first_occurrence_fits (substr s : string) (i : nat) :
  first_occurrence substr s i -> i + String.length substr <= String.length s.
Proof.
  intros (Hle & Hpre & _). apply prefix_length in Hpre.
  rewrite length_drop_bytes in Hpre. lia.
Qed.

Lemma Index_first (s substr : string) (i : nat) :
  first_occurrence substr s i -> Index s substr = Z.of_nat i.
Proof. intros H%index_nat_first. unfold Index. by rewrite H. Qed.

Lemma Index_absent (s substr : string) :
  Index s substr = (-1)%Z <-> forall i, ~ first_occurrence substr s i.
Proof.
  unfold Index. destruct (index_nat s substr) as [k|] eqn:Hk.
  - split; [lia|]. intros H. apply index_nat_first in Hk. by apply H in Hk.
  - split; [|reflexivity]. intros _ i Hi%index_nat_first. congruence.
Qed.

Lemma Index_cases (s substr : string) :
  (Index s substr = (-1)%Z /\ forall i, ~ first_occurrence substr s i) \/
  (exists i, Index s substr = Z.of_nat i /\ first_occurrence substr s i).
Proof.
  unfold Index. destruct (index_nat s substr) as [k|] eqn:Hk.
  - right. exists k. split; [reflexivity|]. by apply index_nat_first.
  - left. split; [reflexivity|]. intros i Hi%index_nat_first. congruence.
Qed.

Lemma slice_Some (s : string) (lo hi : Z) :
  (0 <= lo <= hi)%Z -> (hi <= len s)%Z ->
  slice s lo hi = Some (substring (Z.to_nat lo) (Z.to_nat (hi - lo)) s).
Proof.
  intros H1 H2. unfold slice.
  destruct (Z.leb_spec 0 lo), (Z.leb_spec lo hi), (Z.leb_spec hi (len s));
    simpl; try lia; reflexivity.
Qed.

Lemma len_slice (s : string) (lo hi : Z) :
  (0 <= lo <= hi)%Z -> (hi <= len s)%Z ->
  len (substring (Z.to_nat lo) (Z.to_nat (hi - lo)) s) = (hi - lo)%Z.
Proof.
  intros H1 H2. unfold len in *. rewrite length_substring; lia.
Qed.

Lemma slice_from_Some (s : string) (lo : Z) :
  (0 <= lo <= len s)%Z ->
  slice_from s lo = Some (drop_bytes (Z.to_nat lo) s).
Proof.
  intros H. unfold slice_from. rewrite slice_Some by lia.
  f_equal. rewrite <- substring_drop_bytes. f_equal. unfold len. lia.
Qed.

End StringFacts.

(* ===================================================================== *)
(** ** extractContext: windows and totality *)
(* ===================================================================== *)

Module ExtractFacts.
Import GoInt GoIntFacts Strings StringFacts Extract.
Local Open Scope Z_scope.

Lemma max_int_val : max_int = 9223372036854775807.
Proof. reflexivity. Qed.

Lemma min_int_val : min_int = -9223372036854775808.
Proof. reflexivity. Qed.

Ltac int_range := unfold in_range; rewrite min_int_val, max_int_val; lia.

Ltac int_exact :=
  repeat first
    [ rewrite add_exact by int_range | rewrite sub_exact by int_range ].

Lemma len_nonneg (s : string) : 0 <= len s.
Proof. unfold len. lia. Qed.

Lemma len_content_key : len content_key = 11.
Proof. reflexivity. Qed.

(** A clipped window computed the way the code does it, with the code's
    tests, is the specification's [window]. *)
Lemma code_window (radius : Z) (field : string) (s e : Z) :
  0 <= radius -> 0 <= s <= e -> s <= len field ->
  e + radius <= max_int ->
  (let contextStart := s - radius in
   let contextStart := if contextStart <? 0 then 0 else contextStart in
   let contextEnd := e + radius in
   let contextEnd := if contextEnd >? len field then len field else contextEnd in
   body ← slice field contextStart contextEnd;
   Some ((if contextStart >? 0 then ellipsis else "")
         +:+ body
         +:+ (if contextEnd <? len field then ellipsis else "")))
  = Some (window radius field s e).
Proof.
  intros Hr Hse Hs He. cbv zeta. unfold window.
  pose proof (len_nonneg field) as Hlen.
  assert ((if s - radius <? 0 then 0 else s - radius) = Z.max 0 (s - radius))
    as -> by (destruct (Z.ltb_spec (s - radius) 0); lia).
  assert ((if e + radius >? len field then len field else e + radius)
          = Z.min (len field) (e + radius)) as ->.
  { rewrite Z.gtb_ltb. destruct (Z.ltb_spec (len field) (e + radius)); lia. }
  rewrite slice_Some by lia. cbn [mbind option_bind].
  rewrite (Z.gtb_ltb (Z.max 0 (s - radius)) 0). reflexivity.
Qed.

Lemma genericContext_window (text : string) (s e : Z) :
  fits_int text -> 0 <= s <= e -> e <= len text ->
  genericContext text s e = Some (window 30 text s e).
Proof.
  unfold fits_int. rewrite max_int_val. intros Hfit Hse He.
  unfold genericContext. int_exact.
  apply code_window; rewrite ?max_int_val; lia.
Qed.

(** What [extractContext] computes once the field has been located. *)
Lemma extractContext_located (text : string) (fs fe s e : Z) :
  fits_int text -> 0 <= s <= e -> e <= len text ->
  located_field text fs fe ->
  extractContext text s e =
    if (s >=? fs) && (s <? fe)
    then Some (window 50 (field_text text fs fe) (s - fs) (e - fs))
    else Some (window 30 text s e).
Proof.
  unfold fits_int. rewrite max_int_val.
  intros Hfit Hse He (i & j & Hi & Hfs & Hj & Hfe).
  pose proof (first_occurrence_fits _ _ _ Hi) as Hifit.
  pose proof (first_occurrence_fits _ _ _ Hj) as Hjfit.
  rewrite length_drop_bytes in Hjfit.
  assert (Z.of_nat (String.length content_key) = 11) as Hk by reflexivity.
  assert (Z.of_nat (String.length dquote) = 1) as Hq by reflexivity.
  assert (len text = Z.of_nat (String.length text)) as Hlen by reflexivity.
  unfold extractContext, Contains.
  rewrite (Index_first _ _ _ Hi).
  destruct (Z.geb_spec (Z.of_nat i) 0) as [_|]; [|lia].
  destruct (Z.eqb_spec (Z.of_nat i) (-1)) as [|_]; [lia|]. cbn [negb].
  rewrite len_content_key. int_exact.
  assert (fs = Z.of_nat i + 11) as Hfs' by (rewrite Hfs, len_content_key; lia).
  rewrite <- Hfs'.
  rewrite slice_from_Some by lia. cbn [mbind option_bind].
  rewrite (Index_first _ _ _ Hj).
  destruct (Z.eqb_spec (Z.of_nat j) (-1)) as [|_]; [lia|]. cbn [negb].
  int_exact. rewrite <- Hfe.
  rewrite slice_Some by lia. cbn [mbind option_bind].
  fold (field_text text fs fe).
  assert (len (field_text text fs fe) = fe - fs) as Hflen.
  { unfold field_text. apply len_slice; lia. }
  destruct (Z.geb_spec s fs) as [Hge|Hlt]; cbn [andb];
    [|apply genericContext_window; unfold fits_int; rewrite ?max_int_val; lia].
  destruct (Z.ltb_spec s fe) as [Hin|Hout];
    [|apply genericContext_window; unfold fits_int; rewrite ?max_int_val; lia].
  rewrite (sub_exact s fs), (sub_exact e s) by int_range.
  rewrite (sub_exact (s - fs) 50), (add_exact (s - fs) (e - s)) by int_range.
  rewrite (add_exact (s - fs + (e - s)) 50) by int_range.
  replace (s - fs + (e - s)) with (e - fs) by lia.
  apply code_window; rewrite ?max_int_val; lia.
Qed.

(** What [extractContext] computes when no field can be located. *)
Lemma extractContext_unlocated (text : string) (s e : Z) :
  fits_int text -> 0 <= s <= e -> e <= len text ->
  no_located_field text ->
  extractContext text s e = Some (window 30 text s e).
Proof.
  intros Hfit Hse He Hno.
  pose proof Hfit as Hfit'. unfold fits_int in Hfit'. rewrite max_int_val in Hfit'.
  unfold extractContext, Contains.
  destruct (Index_cases text content_key) as [[Hi _]|(i & Hi & Hfo)].
  { rewrite Hi. cbn. by apply genericContext_window. }
  rewrite Hi.
  pose proof (first_occurrence_fits _ _ _ Hfo) as Hifit.
  assert (Z.of_nat (String.length content_key) = 11) as Hk by reflexivity.
  assert (len text = Z.of_nat (String.length text)) as Hlen by reflexivity.
  destruct (Z.geb_spec (Z.of_nat i) 0) as [_|]; [|lia].
  destruct (Z.eqb_spec (Z.of_nat i) (-1)) as [|_]; [lia|]. cbn [negb].
  rewrite len_content_key. int_exact.
  rewrite slice_from_Some by lia. cbn [mbind option_bind].
  destruct (Index_cases (drop_bytes (Z.to_nat (Z.of_nat i + 11)) text) dquote)
    as [[Hj _]|(j & Hj & Hfoj)].
  { rewrite Hj. cbn. by apply genericContext_window. }
  exfalso. apply (Hno (Z.of_nat i + 11) (Z.of_nat i + 11 + Z.of_nat j)).
  exists i, j. rewrite len_content_key. repeat split; try apply Hfo; try apply Hfoj.
Qed.

Lemma first_occurrence_unique (substr s : string) (i j : nat) :
  first_occurrence substr s i -> first_occurrence substr s j -> i = j.
Proof.
  intros Hi%index_nat_first Hj%index_nat_first. congruence.
Qed.

Lemma located_field_unique (text : string) (fs fe fs' fe' : Z) :
  located_field text fs fe -> located_field text fs' fe' ->
  fs = fs' /\ fe = fe'.
Proof.
  intros (i & j & Hi & -> & Hj & ->) (i' & j' & Hi' & -> & Hj' & ->).
  pose proof (first_occurrence_unique _ _ _ _ Hi Hi') as <-.
  pose proof (first_occurrence_unique _ _ _ _ Hj Hj') as <-.
  done.
Qed.

(** Either the field can be located, or it cannot. *)
Lemma located_field_cases (text : string) :
  (exists fs fe, located_field text fs fe) \/ no_located_field text.
Proof.
  destruct (Index_cases text content_key) as [[_ Hno]|(i & _ & Hfo)].
  { right. intros fs fe (i & j & Hi & _). by apply (Hno i). }
  destruct (Index_cases
              (drop_bytes (Z.to_nat (Z.of_nat i + len content_key)) text) dquote)
    as [[_ Hno]|(j & _ & Hfoj)].
  - right. intros fs fe (i' & j & Hi' & -> & Hj & _).
    pose proof (first_occurrence_unique _ _ _ _ Hfo Hi') as <-.
    by apply (Hno j).
  - left. exists (Z.of_nat i + len content_key),
      (Z.of_nat i + len content_key + Z.of_nat j).
    by exists i, j.
Qed.

(** Within the bounds of the line, no slice expression of
    [extractContext] is out of range. *)
Lemma extractContext_total (text : string) (s e : Z) :
  fits_int text -> 0 <= s <= e -> e <= len text ->
  is_Some (extractContext text s e).
Proof.
  intros Hfit Hse He.
  destruct (located_field_cases text) as [(fs & fe & Hfield)|Hno].
  - rewrite (extractContext_located text fs fe) by done.
    destruct (_ && _); eauto.
  - rewrite extractContext_unlocated by done. eauto.
Qed.

End ExtractFacts.

(* ===================================================================== *)
(** ** SearchContent: what every run does *)
(* ===================================================================== *)

Module ListFacts.

Lemma omap_submseteq {A B} (f : A -> option B) (l k : list A) :
  l ⊆+ k -> omap f l ⊆+ omap f k.
Proof.
  induction 1 as [|x l k _ IH|x y l|x l k _ IH|l1 l2 l3 _ IH1 _ IH2]; simpl.
  - constructor.
  - destruct (f x); [by apply submseteq_skip|exact IH].
  - destruct (f x), (f y); try reflexivity. apply submseteq_swap.
  - destruct (f x); [by apply submseteq_cons|exact IH].
  - by etrans.
Qed.

Lemma submseteq_NoDup {A} (l k : list A) : l ⊆+ k -> NoDup k -> NoDup l.
Proof.
  intros (l' & Hperm & Hsub)%submseteq_sublist_r Hk.
  rewrite Hperm. by eapply sublist_NoDup.
Qed.

Lemma omap_fmap_sublist {A B C} (f : A -> option B) (g : B -> C) (h : A -> C)
      (l : list A) :
  (forall a b, f a = Some b -> g b = h a) ->
  (g <$> omap f l) `sublist_of` (h <$> l).
Proof.
  intros Hfg. induction l as [|a l IH]; simpl; [constructor|].
  destruct (f a) as [b|] eqn:Hfa; simpl.
  - rewrite (Hfg a b Hfa). by apply sublist_skip.
  - by apply sublist_cons.
Qed.

Lemma length_omap_le {A B} (f : A -> option B) (l : list A) :
  length (omap f l) <= length l.
Proof.
  induction l as [|a l IH]; cbn; [lia|]. destruct (f a); cbn; lia.
Qed.

Lemma elem_of_insert_inv {A} (l : list A) (w : nat) (x y : A) :
  x ∈ <[w := y]> l -> x = y \/ x ∈ l.
Proof.
  revert w. induction l as [|a l IH]; intros [|w]; cbn; auto.
  - rewrite !elem_of_cons. intros [->|H]; auto.
  - rewrite !elem_of_cons. intros [->|H]; auto.
    destruct (IH w H); auto.
Qed.

End ListFacts.

Module ContentFacts.
Import Search ListFacts.

Section Facts.
Context {Time : Type}.
Variable exec_Output : string -> list string -> string * option error.
Variable json_Unmarshal : string -> option (gmap string iface).
Variable c : contentEngine.
Variable q : string.
Variable sessions : list (SessionInfo Time).

Local Abbreviation searchFile := (Search.searchFile exec_Output json_Unmarshal c).
Local Abbreviation step := (Search.step exec_Output json_Unmarshal c q sessions).
Local Abbreviation caller_step := (Search.caller_step q sessions).
Local Abbreviation worker_step :=
  (Search.worker_step exec_Output json_Unmarshal c sessions).
Local Abbreviation ends_with :=
  (Search.ends_with exec_Output json_Unmarshal c q sessions).
Local Abbreviation state := (@Search.state Time).
Local Abbreviation searchJob := (@Search.searchJob Time).
Local Abbreviation worker_state := (@Search.worker_state Time).

(** The job queued for the session at position [i]. *)
Definition job_at (i : nat) (session : SessionInfo Time) : searchJob :=
  {| query := q; session := session; sessionIndex := Z.of_nat i |}.

Definition all_jobs : list searchJob := imap job_at sessions.

(** What a worker sends on [results] for a job, if anything. *)
Definition result_for (job : searchJob) (matches : list Match) : SearchResult :=
  {| SessionID := ID (session job);
     SessionIndex := sessionIndex job;
     Matches := matches;
     Score := Float64.of_int (slice_len matches) |}.

Definition result_of (job : searchJob) : option SearchResult :=
  match searchFile (query job) (FilePath (session job)) with
  | Some (matches, None) =>
      if (slice_len matches >? 0)%Z then Some (result_for job matches) else None
  | _ => None
  end.

(** The results of a call that runs every job: one per session whose file
    was searched without an error and holds a match, in input order. *)
Definition expected : list SearchResult := omap result_of all_jobs.

(** Where the jobs and results of a state are. *)
Definition held_job (ws : worker_state) : option searchJob :=
  match ws with
  | AtSelect job | Searching job => Some job
  | _ => None
  end.

Definition held (st : state) : list searchJob := omap held_job (st_workers st).

Definition unsent (st : state) : list searchJob :=
  match st_caller st with
  | Queueing i => drop i all_jobs
  | _ => []
  end.

Definition collected (st : state) : list SearchResult :=
  match st_caller st with
  | Collecting searchResults => searchResults
  | Finished (Returns results _) => results
  | _ => []
  end.

Definition pending_jobs (st : state) : list searchJob :=
  held st ++ st_jobs st ++ unsent st.

Definition ledger (st : state) : list SearchResult :=
  collected st ++ st_results st ++ omap result_of (pending_jobs st).

(** A measure that every step decreases. *)
Definition worker_weight (ws : worker_state) : nat :=
  match ws with
  | AtRange => 1 | AtSelect _ => 4 | Searching _ => 3 | Exited => 0
  end.

Definition caller_weight (cs : caller_state) : nat :=
  match cs with
  | Queueing i => 5 * (length sessions - i) + 2
  | Collecting _ => 1
  | Finished _ => 0
  end.

Definition ctx_weight (ctx : context) : nat :=
  match ctx with Pending _ => 1 | _ => 0 end.

Definition measure (st : state) : nat :=
  caller_weight (st_caller st) + ctx_weight (st_ctx st)
  + 4 * length (st_jobs st)
  + sum_list_with worker_weight (st_workers st)
  + length (st_results st)
  + (if st_results_closed st then 0 else 1).

(** What holds in every state of every run. *)
Record Inv (st : state) : Prop := {
  inv_jobs : pending_jobs st ⊆+ all_jobs;
  inv_ledger : ledger st ⊆+ expected;
  inv_collecting :
    forall acc, st_caller st = Collecting acc -> st_jobs_closed st = true;
  inv_closed :
    st_results_closed st = true -> Forall (fun ws => ws = Exited) (st_workers st)
}.

(** *** Lists of workers *)

Lemma swap_middle {A} (l1 l2 x y : list A) :
  (l1 ++ y ++ l2) ++ x ≡ₚ (l1 ++ x ++ l2) ++ y.
Proof.
  rewrite <- !(assoc_L (++)). apply Permutation_app_head.
  rewrite (Permutation_app_comm y), (Permutation_app_comm x).
  rewrite <- !(assoc_L (++)). apply Permutation_app_head.
  apply Permutation_app_comm.
Qed.

Lemma omap_cons_option_list {A B} (g : A -> option B) (a : A) (l : list A) :
  omap g (a :: l) = option_list (g a) ++ omap g l.
Proof. simpl. by destruct (g a). Qed.

Lemma held_insert (ws : list worker_state) (w : nat) (x y : worker_state) :
  ws !! w = Some x ->
  omap held_job (<[w := y]> ws) ++ option_list (held_job x)
  ≡ₚ omap held_job ws ++ option_list (held_job y).
Proof.
  intros Hw. rewrite insert_take_drop by (by eapply lookup_lt_Some).
  rewrite <- (take_drop_middle ws w x Hw) at 3.
  rewrite !omap_app, !omap_cons_option_list.
  apply swap_middle.
Qed.

Lemma weight_insert (ws : list worker_state) (w : nat) (x y : worker_state) :
  ws !! w = Some x ->
  sum_list_with worker_weight (<[w := y]> ws) + worker_weight x
  = sum_list_with worker_weight ws + worker_weight y.
Proof.
  intros Hw. rewrite insert_take_drop by (by eapply lookup_lt_Some).
  rewrite <- (take_drop_middle ws w x Hw) at 3.
  rewrite !sum_list_with_app. cbn [sum_list_with]. lia.
Qed.

Lemma all_jobs_lookup (i : nat) (session : SessionInfo Time) :
  sessions !! i = Some session -> all_jobs !! i = Some (job_at i session).
Proof. intros H. unfold all_jobs. by rewrite list_lookup_imap, H. Qed.

Lemma length_all_jobs : length all_jobs = length sessions.
Proof. unfold all_jobs. apply length_imap. Qed.

Ltac fields :=
  cbn [Search.step st_caller st_ctx st_jobs st_jobs_closed st_workers
       st_results st_results_closed].

Ltac unfold_ledger :=
  unfold ledger, pending_jobs, collected, unsent, held, measure in *;
  cbn [st_caller st_ctx st_jobs st_jobs_closed st_workers st_results
       st_results_closed set_caller set_ctx set_jobs close_jobs set_worker
       set_results close_results caller_weight ctx_weight] in *.

(** *** Every step keeps the invariant and decreases the measure *)

Lemma caller_step_inv (pick_done : bool) (st st' : state) :
  Inv st -> caller_step pick_done st = Some st' ->
  Inv st' /\ measure st' < measure st.
Proof.
  intros [Hjobs Hledger Hcoll Hclosed] Hstep.
  destruct st as [cs ctx jobs jc ws rs rc].
  unfold Search.caller_step in Hstep. unfold_ledger.
  destruct cs as [i|acc|o]; [| |discriminate].
  - destruct (sessions !! i) as [session|] eqn:Hs.
    + pose proof (lookup_lt_Some _ _ _ Hs) as Hi.
      rewrite (drop_S _ _ _ (all_jobs_lookup _ _ Hs)) in Hjobs, Hledger.
      destruct pick_done.
      * destruct (ctx_done ctx) as [e|]; [|discriminate].
        injection Hstep as <-. unfold_ledger. split; [split|lia]; cbn.
        -- etrans; [|exact Hjobs]. apply submseteq_skips_l, submseteq_skips_l.
           apply submseteq_nil_l.
        -- etrans; [|exact Hledger]. cbn. apply submseteq_skips_l.
           apply omap_submseteq, submseteq_skips_l, submseteq_skips_l.
           apply submseteq_nil_l.
        -- discriminate.
        -- exact Hclosed.
      * destruct (length jobs <? capacity sessions)%nat; [|discriminate].
        injection Hstep as <-. unfold_ledger. split; [split|]; cbn.
        -- by rewrite <- (assoc_L (++) jobs).
        -- by rewrite <- (assoc_L (++) jobs).
        -- discriminate.
        -- exact Hclosed.
        -- rewrite length_app. cbn. lia.
    + destruct pick_done; [discriminate|].
      injection Hstep as <-. unfold_ledger. split; [split|lia]; cbn.
      * etrans; [|exact Hjobs]. apply submseteq_skips_l, submseteq_skips_l.
        apply submseteq_nil_l.
      * etrans; [|exact Hledger]. cbn. apply submseteq_skips_l.
        apply omap_submseteq, submseteq_skips_l, submseteq_skips_l.
        apply submseteq_nil_l.
      * reflexivity.
      * exact Hclosed.
  - destruct pick_done; [discriminate|].
    destruct rs as [|result rest].
    + destruct rc; [|discriminate].
      injection Hstep as <-. unfold_ledger. split; [split|lia]; cbn.
      * exact Hjobs.
      * exact Hledger.
      * discriminate.
      * exact Hclosed.
    + injection Hstep as <-. unfold_ledger. split; [split|]; cbn.
      * exact Hjobs.
      * etrans; [|exact Hledger].
        destruct (slice_len (Matches result) >? 0)%Z.
        -- by rewrite <- (assoc_L (++) acc).
        -- apply submseteq_skips_l. by apply submseteq_cons.
      * intros acc' _. by apply (Hcoll acc).
      * exact Hclosed.
      * cbn in *. lia.
Qed.

Lemma result_of_Some (job : searchJob) (matches : list Match) :
  searchFile (query job) (FilePath (session job)) = Some (matches, None) ->
  (slice_len matches >? 0)%Z = true ->
  result_of job = Some (result_for job matches).
Proof. intros H1 H2. unfold result_of. by rewrite H1, H2. Qed.

Lemma result_of_None (job : searchJob) (matches : list Match) (err : option error) :
  searchFile (query job) (FilePath (session job)) = Some (matches, err) ->
  (err = None -> (slice_len matches >? 0)%Z = false) ->
  result_of job = None.
Proof.
  intros H1 H2. unfold result_of. rewrite H1.
  destruct err; [reflexivity|]. by rewrite H2.
Qed.

Lemma not_all_exited (ws : list worker_state) (w : nat) (x : worker_state) :
  ws !! w = Some x -> x <> Exited -> ~ Forall (fun ws => ws = Exited) ws.
Proof. intros Hw Hx HF. apply Hx. by eapply (Forall_lookup_1 _ _ _ _ HF Hw). Qed.

Lemma worker_step_inv (w : nat) (st st' : state) :
  Inv st -> outcome_of st = None -> worker_step w st = Some st' ->
  Inv st' /\ measure st' < measure st.
Proof.
  intros [Hjobs Hledger Hcoll Hclosed] Hrun Hstep.
  destruct st as [cs ctx jobs jc ws rs rc].
  unfold Search.worker_step in Hstep. unfold outcome_of in Hrun. unfold_ledger.
  destruct (ws !! w) as [x|] eqn:Hw; [|discriminate].
  assert (x <> Exited -> rc = true -> False) as Hopen.
  { intros Hx Hrc. by eapply not_all_exited; [exact Hw|exact Hx|apply Hclosed]. }
  destruct x as [|job|job|]; [| | |discriminate].
  - (* at the range over jobs *)
    destruct jobs as [|job rest].
    + destruct jc; [|discriminate]. injection Hstep as <-. unfold_ledger.
      pose proof (held_insert ws w AtRange Exited Hw) as Hh.
      pose proof (weight_insert ws w AtRange Exited Hw) as Hm.
      cbn [held_job option_list option_rect worker_weight] in Hh, Hm.
      rewrite !app_nil_r in Hh.
      split; [split; unfold_ledger|unfold_ledger; lia].
      * by rewrite Hh.
      * by rewrite Hh.
      * exact Hcoll.
      * intros Hrc. exfalso. by apply Hopen.
    + injection Hstep as <-. unfold_ledger.
      pose proof (held_insert ws w AtRange (AtSelect job) Hw) as Hh.
      pose proof (weight_insert ws w AtRange (AtSelect job) Hw) as Hm.
      cbn [held_job option_list option_rect worker_weight] in Hh, Hm.
      rewrite !app_nil_r in Hh.
      assert (omap held_job (<[w:=AtSelect job]> ws) ++ rest
                ++ match cs with Queueing i => drop i all_jobs | _ => [] end
              ≡ₚ omap held_job ws ++ (job :: rest)
                ++ match cs with Queueing i => drop i all_jobs | _ => [] end)
        as Hp by (rewrite Hh, <- (assoc_L (++)); reflexivity).
      split; [split; unfold_ledger|unfold_ledger; cbn [length] in *; lia].
      * by rewrite Hp.
      * by rewrite Hp.
      * exact Hcoll.
      * intros Hrc. exfalso. by apply Hopen.
  - (* at the select, holding a job *)
    destruct (ctx_done ctx) as [e|].
    + pose proof (held_insert ws w (AtSelect job) Exited Hw) as HhE.
      pose proof (weight_insert ws w (AtSelect job) Exited Hw) as HmE.
      cbn [held_job option_list option_rect worker_weight] in HhE, HmE.
      rewrite !app_nil_r in HhE.
      injection Hstep as <-. unfold_ledger.
      split; [split; unfold_ledger|unfold_ledger; lia].
      * rewrite <- HhE in Hjobs. etrans; [|exact Hjobs].
        rewrite <- !(assoc_L (++)). apply submseteq_skips_l.
        by apply submseteq_cons.
      * rewrite <- HhE in Hledger. etrans; [|exact Hledger].
        do 2 apply submseteq_skips_l. apply omap_submseteq.
        rewrite <- !(assoc_L (++)). apply submseteq_skips_l.
        by apply submseteq_cons.
      * exact Hcoll.
      * intros Hrc. exfalso. by apply Hopen.
    + pose proof (held_insert ws w (AtSelect job) (Searching job) Hw) as Hh.
      pose proof (weight_insert ws w (AtSelect job) (Searching job) Hw) as Hm.
      cbn [held_job option_list option_rect worker_weight] in Hh, Hm.
      apply Permutation_app_inv_r in Hh.
      injection Hstep as <-. unfold_ledger.
      split; [split; unfold_ledger|unfold_ledger; lia].
      * by rewrite Hh.
      * by rewrite Hh.
      * exact Hcoll.
      * intros Hrc. exfalso. by apply Hopen.
  - (* past the select, searching the file of the job *)
    pose proof (held_insert ws w (Searching job) AtRange Hw) as HhR.
    pose proof (weight_insert ws w (Searching job) AtRange Hw) as HmR.
    cbn [held_job option_list option_rect worker_weight] in HhR, HmR.
    rewrite !app_nil_r in HhR.
    destruct (searchFile (query job) (FilePath (session job)))
      as [[matches err]|] eqn:Hsf.
    2:{ injection Hstep as <-. unfold_ledger.
        split; [split; unfold_ledger
               |unfold_ledger; destruct cs; cbn in *; try discriminate; lia].
        - etrans; [|exact Hjobs]. do 2 apply submseteq_skips_l.
          apply submseteq_nil_l.
        - etrans; [|exact Hledger]. cbn [app]. apply submseteq_inserts_l.
          apply submseteq_skips_l. apply omap_submseteq.
          do 2 apply submseteq_skips_l. apply submseteq_nil_l.
        - discriminate.
        - exact Hclosed. }
    destruct err as [e|].
    + injection Hstep as <-. unfold_ledger.
      rewrite <- HhR in Hjobs, Hledger.
      rewrite <- !(assoc_L (++)), !omap_app in Hledger. cbn in Hledger.
      rewrite (result_of_None job matches (Some e) Hsf) in Hledger by done.
      split; [split; unfold_ledger|unfold_ledger; lia].
      * etrans; [|exact Hjobs].
        rewrite <- !(assoc_L (++)). apply submseteq_skips_l.
        by apply submseteq_cons.
      * by rewrite !omap_app.
      * exact Hcoll.
      * intros Hrc. exfalso. by apply Hopen.
    + destruct (slice_len matches >? 0)%Z eqn:Hlen.
      * destruct (length rs <? capacity sessions)%nat; [|discriminate].
        injection Hstep as <-. unfold_ledger.
        rewrite <- HhR in Hjobs, Hledger.
        rewrite <- !(assoc_L (++)), !omap_app in Hledger. cbn in Hledger.
        rewrite (result_of_Some job matches Hsf Hlen) in Hledger.
        split; [split; unfold_ledger
               |unfold_ledger; rewrite length_app; cbn [length]; lia].
        -- etrans; [|exact Hjobs].
           rewrite <- !(assoc_L (++)). apply submseteq_skips_l.
           by apply submseteq_cons.
        -- etrans; [|exact Hledger]. apply submseteq_skips_l.
           rewrite !omap_app, <- !(assoc_L (++)). apply submseteq_skips_l.
           apply Permutation_submseteq. cbn.
           fold (result_for job matches).
           apply Permutation_middle.
        -- exact Hcoll.
        -- intros Hrc. exfalso. by apply Hopen.
      * injection Hstep as <-. unfold_ledger.
        rewrite <- HhR in Hjobs, Hledger.
        rewrite <- !(assoc_L (++)), !omap_app in Hledger. cbn in Hledger.
        rewrite (result_of_None job matches None Hsf) in Hledger by done.
        split; [split; unfold_ledger|unfold_ledger; lia].
        -- etrans; [|exact Hjobs].
           rewrite <- !(assoc_L (++)). apply submseteq_skips_l.
           by apply submseteq_cons.
        -- by rewrite !omap_app.
        -- exact Hcoll.
        -- intros Hrc. exfalso. by apply Hopen.
Qed.

Lemma closer_step_inv (st st' : state) :
  Inv st -> closer_step st = Some st' -> Inv st' /\ measure st' < measure st.
Proof.
  intros [Hjobs Hledger Hcoll Hclosed] Hstep.
  destruct st as [cs ctx jobs jc ws rs rc].
  unfold closer_step in Hstep. unfold_ledger.
  destruct cs as [i|acc|o]; try discriminate.
  destruct rc; [discriminate|]. cbn [negb andb] in Hstep.
  destruct (forallb _ ws) eqn:Hall; [|discriminate].
  injection Hstep as <-. split; [split; unfold_ledger|unfold_ledger; lia];
    try assumption.
  intros _. apply Forall_forall. intros x Hx.
  rewrite forallb_forall in Hall. apply list_elem_of_In in Hx.
  specialize (Hall x Hx). by destruct x.
Qed.

Lemma expire_step_inv (st st' : state) :
  Inv st -> expire_step st = Some st' -> Inv st' /\ measure st' < measure st.
Proof.
  intros [Hjobs Hledger Hcoll Hclosed] Hstep.
  destruct st as [cs ctx jobs jc ws rs rc].
  unfold expire_step in Hstep. unfold_ledger.
  destruct ctx as [|e|e]; try discriminate.
  injection Hstep as <-. split; [split; unfold_ledger|unfold_ledger; lia];
    assumption.
Qed.

Lemma step_inv (a : action) (st st' : state) :
  Inv st -> outcome_of st = None -> step a st = Some st' ->
  Inv st' /\ measure st' < measure st.
Proof.
  intros HI Hrun Hstep. destruct a as [pick_done|w| |]; cbn in Hstep.
  - by eapply caller_step_inv.
  - by eapply worker_step_inv.
  - by eapply closer_step_inv.
  - by eapply expire_step_inv.
Qed.

(** *** No run gets stuck before the caller has finished *)

Lemma forallb_false_lookup {A} (f : A -> bool) (l : list A) :
  forallb f l = false -> exists i x, l !! i = Some x /\ f x = false.
Proof.
  induction l as [|a l IH]; cbn; [discriminate|].
  destruct (f a) eqn:Hfa; cbn.
  - intros (i & x & Hi & Hx)%IH. by exists (S i), x.
  - intros _. by exists 0, a.
Qed.

Lemma length_expected : length expected <= length sessions.
Proof.
  unfold expected. rewrite <- length_all_jobs. apply length_omap_le.
Qed.

Lemma progress (st : state) :
  Inv st -> outcome_of st = None -> exists a st', step a st = Some st'.
Proof.
  intros [Hjobs Hledger Hcoll Hclosed] Hrun.
  destruct st as [cs ctx jobs jc ws rs rc].
  unfold outcome_of in Hrun. unfold_ledger.
  destruct cs as [i|acc|o]; [| |discriminate].
  - (* the queueing loop can always go on *)
    exists (Caller false). fields. unfold Search.caller_step. fields.
    destruct (sessions !! i) as [session|] eqn:Hs; [|eauto].
    rewrite (drop_S _ _ _ (all_jobs_lookup _ _ Hs)) in Hjobs.
    apply submseteq_length in Hjobs.
    rewrite !length_app, length_all_jobs in Hjobs. cbn in Hjobs.
    unfold capacity.
    destruct (Nat.ltb_spec (length jobs) (length sessions)); [eauto|lia].
  - destruct rs as [|result rest].
    2:{ exists (Caller false). fields. unfold Search.caller_step. fields. eauto. }
    destruct rc.
    { exists (Caller false). fields. unfold Search.caller_step. fields. eauto. }
    destruct (forallb (fun ws => match ws with Exited => true | _ => false end) ws)
      eqn:Hall.
    { exists Closer. fields. unfold closer_step. fields. rewrite Hall. cbn [negb andb]. eauto. }
    apply forallb_false_lookup in Hall as (w & x & Hw & Hx).
    exists (Worker w). fields. unfold Search.worker_step. fields. rewrite Hw.
    destruct x as [|job|job|]; [| | |discriminate].
    + destruct jobs as [|job rest]; [|eauto].
      rewrite (Hcoll acc eq_refl). eauto.
    + destruct (ctx_done ctx); eauto.
    + destruct (searchFile (query job) (FilePath (session job)))
        as [[matches err]|] eqn:Hsf; [|eauto].
      destruct err; [eauto|].
      destruct (slice_len matches >? 0)%Z eqn:Hlen; [|eauto].
      pose proof (held_insert ws w (Searching job) Exited Hw) as Hh.
      cbn [held_job option_list option_rect] in Hh. rewrite app_nil_r in Hh.
      rewrite <- Hh in Hledger. apply submseteq_length in Hledger.
      rewrite !length_app, !omap_app, !length_app in Hledger. cbn in Hledger.
      rewrite (result_of_Some job matches Hsf Hlen) in Hledger. cbn in Hledger.
      pose proof length_expected. unfold capacity.
      destruct (Nat.ltb_spec (length (@nil SearchResult)) (length sessions));
        [eauto|cbn [length] in *; lia].
Qed.

(** *** Every run ends *)

Lemma ends_with_invariant (J : state -> Prop) (P : outcome -> Prop) :
  (forall st, J st -> Inv st) ->
  (forall a st st', J st -> outcome_of st = None -> step a st = Some st' -> J st') ->
  (forall st o, J st -> outcome_of st = Some o -> P o) ->
  forall st, J st -> ends_with P st.
Proof.
  intros HJI Hkeep Hend st.
  remember (measure st) as n eqn:Hn. revert st Hn.
  induction (lt_wf n) as [n _ IH]. intros st -> HJ.
  destruct (outcome_of st) as [o|] eqn:Ho.
  - eapply ends_now; eauto.
  - apply ends_later; [exact Ho|apply progress; auto|].
    intros a st' Hstep.
    destruct (step_inv a st st' (HJI st HJ) Ho Hstep) as [_ Hlt].
    eapply IH; [exact Hlt|reflexivity|]. eauto.
Qed.

(** *** The first state, and what a finished call returned *)

Lemma held_initial (n : nat) : omap held_job (replicate n (@AtRange Time)) = [].
Proof. induction n as [|n IH]; [reflexivity|exact IH]. Qed.

Lemma Inv_initial (ctx : context) : Inv (initial c ctx).
Proof.
  split; unfold_ledger; unfold initial; fields.
  - by rewrite held_initial.
  - by rewrite held_initial.
  - discriminate.
  - discriminate.
Qed.

Lemma returned_submseteq (st : state) (rs : list SearchResult) (err : option error) :
  Inv st -> outcome_of st = Some (Returns rs err) -> rs ⊆+ expected.
Proof.
  intros [_ Hledger _ _] Ho. unfold outcome_of in Ho. unfold_ledger.
  destruct (st_caller st) as [| |o]; try discriminate.
  injection Ho as ->. etrans; [|exact Hledger].
  rewrite <- (app_nil_r rs) at 1. apply submseteq_skips_l, submseteq_nil_l.
Qed.

(** Whatever the context and the scheduling, the call ends, and what it
    returns is made of results of [expected], none taken twice. *)
Lemma SearchContent_returns_expected (ctx : context) :
  SearchContent_always exec_Output json_Unmarshal c q sessions ctx
    (fun o => forall rs err, o = Returns rs err -> rs ⊆+ expected).
Proof.
  apply (ends_with_invariant Inv); auto using Inv_initial.
  - intros a st st' HI Ho Hstep. by destruct (step_inv a st st' HI Ho Hstep).
  - intros st o HI Ho rs err ->. by eapply returned_submseteq.
Qed.

(** *** What is in [expected] *)

Lemma result_of_inv (job : searchJob) (r : SearchResult) :
  result_of job = Some r ->
  SessionID r = ID (session job) /\ SessionIndex r = sessionIndex job /\
  (slice_len (Matches r) >? 0)%Z = true /\
  searchFile (query job) (FilePath (session job)) = Some (Matches r, None).
Proof.
  unfold result_of.
  destruct (searchFile _ _) as [[matches [e|]]|]; try discriminate.
  destruct (slice_len matches >? 0)%Z eqn:Hlen; [|discriminate].
  intros Heq; injection Heq as <-. by cbn.
Qed.

Lemma elem_of_all_jobs (job : searchJob) :
  job ∈ all_jobs <->
  exists i session, sessions !! i = Some session /\ job = job_at i session.
Proof.
  unfold all_jobs. rewrite list_elem_of_lookup. split.
  - intros (i & Hi). rewrite list_lookup_imap in Hi.
    destruct (sessions !! i) as [session|] eqn:Hs; [|discriminate].
    injection Hi as <-. eauto.
  - intros (i & session & Hs & ->). exists i. by rewrite list_lookup_imap, Hs.
Qed.

Lemma elem_of_expected (r : SearchResult) :
  r ∈ expected <->
  exists i session matches,
    sessions !! i = Some session /\
    searchFile q (FilePath session) = Some (matches, None) /\
    (slice_len matches >? 0)%Z = true /\
    r = result_for (job_at i session) matches.
Proof.
  unfold expected. rewrite list_elem_of_omap. split.
  - intros (job & (i & session & Hs & ->)%elem_of_all_jobs & Hr).
    pose proof (result_of_inv _ _ Hr) as (HID & Hidx & Hlen & Hsf).
    exists i, session, (Matches r). cbn in *. repeat split; try assumption.
    rewrite (result_of_Some (job_at i session) _ Hsf Hlen) in Hr. by injection Hr.
  - intros (i & session & matches & Hs & Hsf & Hlen & ->).
    exists (job_at i session). split; [apply elem_of_all_jobs; eauto|].
    by apply result_of_Some.
Qed.

Lemma expected_indexes_sublist :
  (SessionIndex <$> expected) `sublist_of` (Z.of_nat <$> seq 0 (length sessions)).
Proof.
  unfold expected.
  assert (Z.of_nat <$> seq 0 (length sessions) = sessionIndex <$> all_jobs) as ->.
  { unfold all_jobs. rewrite fmap_imap. symmetry. apply (imap_seq_0 sessions Z.of_nat). }
  apply omap_fmap_sublist. intros job r Hr.
  by destruct (result_of_inv _ _ Hr) as (_ & Hidx & _).
Qed.

Lemma NoDup_expected_indexes : NoDup (SessionIndex <$> expected).
Proof.
  eapply sublist_NoDup; [|apply expected_indexes_sublist].
  apply NoDup_fmap_2; [apply Nat2Z.inj'|apply NoDup_seq].
Qed.

(** *** A call that is never cancelled and never panics runs every job *)

(** No search of a session's file panics. *)
Definition no_panic : Prop :=
  forall i session,
    sessions !! i = Some session -> searchFile q (FilePath session) <> None.

Record Exact (st : state) : Prop := {
  ex_ctx : st_ctx st = Background;
  ex_length : length expected <= length (ledger st);
  ex_workers : st_workers st <> [];
  ex_drained :
    Exited ∈ st_workers st -> st_jobs st = [] /\ st_jobs_closed st = true;
  ex_queueing :
    forall i, st_caller st = Queueing i -> st_jobs_closed st = false;
  ex_finished :
    forall o, st_caller st = Finished o ->
    exists rs, o = Returns rs None /\ st_results st = [] /\
               st_results_closed st = true
}.

Lemma held_none (ws : list worker_state) :
  Forall (fun ws => ws = Exited) ws -> omap held_job ws = [].
Proof.
  induction 1 as [|x ws -> _ IH]; [reflexivity|]. cbn. exact IH.
Qed.

Lemma some_exited (ws : list worker_state) :
  ws <> [] -> Forall (fun ws => ws = Exited) ws -> Exited ∈ ws.
Proof.
  intros Hne HF. destruct HF as [|x ws -> _]; [done|]. by left.
Qed.

Lemma held_elem (ws : list worker_state) (w : nat) (x : worker_state)
      (job : searchJob) :
  ws !! w = Some x -> held_job x = Some job -> job ∈ omap held_job ws.
Proof.
  intros Hw Hx. apply list_elem_of_omap. exists x.
  split; [|exact Hx]. apply list_elem_of_lookup. eauto.
Qed.

Lemma ledger_length (st : state) :
  length (ledger st)
  = length (collected st) + length (st_results st)
    + length (omap result_of (held st))
    + length (omap result_of (st_jobs st))
    + length (omap result_of (unsent st)).
Proof.
  unfold ledger, pending_jobs. rewrite !omap_app, !length_app. lia.
Qed.

Lemma held_result_length (ws : list worker_state) (w : nat)
      (x y : worker_state) :
  ws !! w = Some x ->
  length (omap result_of (omap held_job (<[w := y]> ws)))
  + length (omap result_of (option_list (held_job x)))
  = length (omap result_of (omap held_job ws))
    + length (omap result_of (option_list (held_job y))).
Proof.
  intros Hw. rewrite <- !length_app, <- !omap_app.
  apply Permutation_length, omap_Permutation. by apply held_insert.
Qed.

Lemma expected_has_matches (r : SearchResult) :
  r ∈ expected -> (slice_len (Matches r) >? 0)%Z = true.
Proof.
  intros (i & session & matches & _ & _ & Hlen & ->)%elem_of_expected.
  exact Hlen.
Qed.

Lemma caller_step_exact (pick_done : bool) (st st' : state) :
  Inv st -> Exact st -> caller_step pick_done st = Some st' -> Exact st'.
Proof.
  intros [Hjobs Hledger Hcoll Hclosed] [Hctx Hlen Hws Hdr Hq Hfin] Hstep.
  rewrite ledger_length in Hlen.
  destruct st as [cs ctx jobs jc ws rs rc].
  unfold Search.caller_step in Hstep. unfold_ledger. subst ctx.
  destruct cs as [i|acc|o]; [| |discriminate].
  - specialize (Hq i eq_refl). subst jc.
    assert (Exited ∉ ws) as Hnone by (intros [_ [=]]%Hdr).
    destruct (sessions !! i) as [session|] eqn:Hs.
    + destruct pick_done; [discriminate|].
      destruct (length jobs <? capacity sessions)%nat; [|discriminate].
      injection Hstep as <-.
      rewrite (drop_S _ _ _ (all_jobs_lookup _ _ Hs)) in Hlen.
      split; try rewrite ledger_length; unfold_ledger; try done.
      rewrite omap_app, length_app.
      rewrite omap_cons_option_list, length_app in Hlen.
      fold (job_at i session).
      rewrite (omap_cons_option_list result_of (job_at i session) []), length_app.
      change (omap result_of []) with (@nil SearchResult).
      cbn [length] in *. lia.
    + destruct pick_done; [discriminate|].
      injection Hstep as <-.
      rewrite drop_ge in Hlen
        by (rewrite length_all_jobs; by apply lookup_ge_None).
      split; try rewrite ledger_length; unfold_ledger; try done.
  - destruct pick_done; [discriminate|].
    destruct rs as [|result rest].
    + destruct rc; [|discriminate]. injection Hstep as <-.
      split; try rewrite ledger_length; unfold_ledger; try done.
      intros o Heq; injection Heq as <-. eauto.
    + injection Hstep as <-.
      assert (result ∈ expected) as Hin.
      { eapply elem_of_submseteq; [|exact Hledger].
        rewrite !elem_of_app, elem_of_cons. auto. }
      rewrite (expected_has_matches _ Hin).
      split; try rewrite ledger_length; unfold_ledger; try done.
      rewrite length_app. cbn [length] in *. lia.
Qed.

Lemma worker_step_exact (w : nat) (st st' : state) :
  no_panic -> Inv st -> Exact st -> outcome_of st = None ->
  worker_step w st = Some st' -> Exact st'.
Proof.
  intros Hnp [Hjobs Hledger Hcoll Hclosed] [Hctx Hlen Hws Hdr Hq Hfin] Ho Hstep.
  rewrite ledger_length in Hlen.
  destruct st as [cs ctx jobs jc ws rs rc].
  unfold Search.worker_step in Hstep. unfold outcome_of in Ho.
  unfold_ledger. subst ctx.
  destruct (ws !! w) as [x|] eqn:Hw; [|discriminate].
  assert (forall y, <[w := y]> ws <> []) as Hne.
  { intros y Heq. apply (f_equal length) in Heq. rewrite length_insert in Heq.
    destruct ws; [done|discriminate]. }
  destruct x as [|job|job|]; [| | |discriminate].
  - pose proof (fun y => held_result_length ws w AtRange y Hw) as Hh.
    cbn [held_job option_list option_rect] in Hh.
    destruct jobs as [|job rest].
    + destruct jc; [|discriminate]. injection Hstep as <-.
      specialize (Hh Exited). cbn in Hh.
      split; try rewrite ledger_length; unfold_ledger; try done.
      cbn [length] in *. lia.
    + injection Hstep as <-. specialize (Hh (AtSelect job)).
      cbn [held_job option_list option_rect] in Hh.
      rewrite omap_cons_option_list, length_app in Hlen.
      rewrite (omap_cons_option_list result_of job []), length_app in Hh.
      change (omap result_of []) with (@nil SearchResult) in Hh.
      split; try rewrite ledger_length; unfold_ledger; try done.
      * cbn [length] in *. lia.
      * intros [[=]|Hin]%elem_of_insert_inv. by destruct (Hdr Hin).
  - cbn [ctx_done] in Hstep. injection Hstep as <-.
    pose proof (held_result_length ws w (AtSelect job) (Searching job) Hw) as Hh.
    cbn [held_job] in Hh.
    split; try rewrite ledger_length; unfold_ledger; try done.
    + lia.
    + intros [[=]|Hin]%elem_of_insert_inv. by apply Hdr.
  - pose proof (fun y => held_result_length ws w (Searching job) y Hw) as Hh.
    cbn [held_job option_list option_rect] in Hh.
    assert (job ∈ all_jobs) as Hjob.
    { eapply elem_of_submseteq; [|exact Hjobs].
      rewrite elem_of_app. left. by eapply held_elem. }
    apply elem_of_all_jobs in Hjob as (i & session & Hs & ->).
    destruct (searchFile (query (job_at i session))
                (FilePath (Search.session (job_at i session))))
      as [[matches err]|] eqn:Hsf; [|by apply Hnp in Hs].
    assert (forall st'',
              st'' = set_worker
                       {| st_caller := cs; st_ctx := Background; st_jobs := jobs;
                          st_jobs_closed := jc; st_workers := ws;
                          st_results := rs; st_results_closed := rc |} w AtRange ->
              result_of (job_at i session) = None -> Exact st'') as Hdrop.
    { intros st'' -> Hnone. specialize (Hh AtRange).
      cbn [held_job option_list option_rect] in Hh.
      rewrite (omap_cons_option_list result_of (job_at i session) []), Hnone in Hh.
      change (omap result_of []) with (@nil SearchResult) in Hh.
      split; try rewrite ledger_length; unfold_ledger; try done.
      - cbn [length option_list option_rect app] in *. lia.
      - intros [[=]|Hin]%elem_of_insert_inv. by apply Hdr. }
    destruct err as [e|].
    { injection Hstep as <-. apply Hdrop; [reflexivity|].
      by eapply result_of_None. }
    destruct (slice_len matches >? 0)%Z eqn:Hpos.
    2:{ injection Hstep as <-. apply Hdrop; [reflexivity|].
        by eapply result_of_None. }
    destruct (length rs <? capacity sessions)%nat; [|discriminate].
    injection Hstep as <-. specialize (Hh AtRange).
    cbn [held_job option_list option_rect] in Hh.
    rewrite (omap_cons_option_list result_of (job_at i session) []) in Hh.
    rewrite (result_of_Some _ _ Hsf Hpos) in Hh.
    change (omap result_of []) with (@nil SearchResult) in Hh.
    split; try rewrite ledger_length; unfold_ledger; try done.
    + rewrite length_app. cbn [length option_list option_rect app] in *. lia.
    + intros [[=]|Hin]%elem_of_insert_inv. by apply Hdr.
    + intros o ->. discriminate.
Qed.

Lemma closer_step_exact (st st' : state) :
  Exact st -> closer_step st = Some st' -> Exact st'.
Proof.
  intros [Hctx Hlen Hws Hdr Hq Hfin] Hstep.
  rewrite ledger_length in Hlen.
  destruct st as [cs ctx jobs jc ws rs rc].
  unfold closer_step in Hstep. unfold_ledger.
  destruct cs as [i|acc|o]; try discriminate.
  destruct (negb rc && _); [|discriminate]. injection Hstep as <-.
  split; try rewrite ledger_length; unfold_ledger; done.
Qed.

Lemma step_exact (a : action) (st st' : state) :
  no_panic -> Inv st /\ Exact st -> outcome_of st = None ->
  step a st = Some st' -> Inv st' /\ Exact st'.
Proof.
  intros Hnp [HI HE] Ho Hstep.
  split; [by destruct (step_inv a st st' HI Ho Hstep)|].
  destruct a as [pick_done|w| |]; cbn in Hstep.
  - by eapply caller_step_exact.
  - by eapply worker_step_exact.
  - by eapply closer_step_exact.
  - unfold expire_step in Hstep. by rewrite (ex_ctx _ HE) in Hstep.
Qed.

Lemma Exact_initial : (0 < maxWorkers c)%Z -> Exact (initial c Background).
Proof.
  intros Hpos. split; try rewrite ledger_length; unfold_ledger;
    unfold initial; fields; try done.
  - rewrite held_initial. unfold expected. rewrite drop_0. lia.
  - destruct (Z.to_nat (maxWorkers c)) eqn:Hn; [lia|discriminate].
  - intros ([=] & _)%elem_of_replicate.
Qed.

Lemma returned_exact (st : state) (o : outcome) :
  Inv st /\ Exact st -> outcome_of st = Some o ->
  exists rs, o = Returns rs None /\ rs ≡ₚ expected.
Proof.
  intros [[Hjobs Hledger Hcoll Hclosed] [Hctx Hlen Hws Hdr Hq Hfin]] Ho.
  rewrite ledger_length in Hlen.
  destruct st as [cs ctx jobs jc ws rs rc].
  unfold outcome_of in Ho. unfold_ledger.
  destruct cs as [| |o']; try discriminate. injection Ho as ->.
  destruct (Hfin o eq_refl) as (res & -> & -> & ->).
  specialize (Hclosed eq_refl).
  destruct (Hdr (some_exited ws Hws Hclosed)) as [-> _].
  rewrite (held_none ws Hclosed) in Hledger, Hlen.
  exists res. split; [reflexivity|].
  cbn in Hledger, Hlen. rewrite app_nil_r in Hledger.
  apply submseteq_length_Permutation; [exact Hledger|lia].
Qed.

(** With a context that is never done, at least one worker, and searches
    that do not panic, the call always ends, with a nil error and exactly
    the results of [expected], in some order. *)
Lemma SearchContent_background_exact :
  (0 < maxWorkers c)%Z -> no_panic ->
  SearchContent_always exec_Output json_Unmarshal c q sessions Background
    (fun o => exists rs, o = Returns rs None /\ rs ≡ₚ expected).
Proof.
  intros Hpos Hnp.
  apply (ends_with_invariant (fun st => Inv st /\ Exact st)).
  - by intros st [HI _].
  - intros a st st' HJ Ho Hstep. by eapply step_exact.
  - intros st o HJ Ho. by eapply returned_exact.
  - split; [apply Inv_initial|by apply Exact_initial].
Qed.

(** *** What the results of [expected] look like *)

Lemma expected_matches_nonempty (r : SearchResult) :
  r ∈ expected -> Matches r <> [].
Proof.
  intros Hlen%expected_has_matches Heq. rewrite Heq in Hlen. discriminate.
Qed.

Lemma expected_position (r : SearchResult) :
  r ∈ expected ->
  exists session,
    at_index sessions (SessionIndex r) = Some session /\
    SessionID r = ID session.
Proof.
  intros (i & session & matches & Hs & _ & _ & ->)%elem_of_expected.
  exists session. cbn. split; [|reflexivity].
  unfold at_index. destruct (Z.leb_spec 0 (Z.of_nat i)); [|lia].
  by rewrite Nat2Z.id.
Qed.

Lemma expected_ids_sublist :
  (SessionID <$> expected) `sublist_of` (ID <$> sessions).
Proof.
  unfold expected.
  assert (ID <$> sessions = (fun job => ID (session job)) <$> all_jobs) as ->.
  { unfold all_jobs. rewrite fmap_imap. symmetry. apply (imap_const ID). }
  apply omap_fmap_sublist. intros job r Hr.
  by destruct (result_of_inv _ _ Hr) as (HID & _).
Qed.

Lemma ends_with_mono (P Q : outcome -> Prop) (st : state) :
  (forall o, P o -> Q o) -> ends_with P st -> ends_with Q st.
Proof.
  intros HPQ. induction 1 as [st o Ho HP|st Ho Hex _ IH].
  - eapply ends_now; eauto.
  - apply ends_later; auto.
Qed.

(** The sub-multisets of [expected] keep its properties. *)
Lemma submseteq_expected (rs : list SearchResult) :
  rs ⊆+ expected ->
  Forall (fun r => Matches r <> []) rs /\
  NoDup (SessionIndex <$> rs) /\
  Forall (fun r => exists session,
              at_index sessions (SessionIndex r) = Some session /\
              SessionID r = ID session) rs /\
  (NoDup (ID <$> sessions) -> NoDup (SessionID <$> rs)).
Proof.
  intros Hsub. repeat split.
  - apply Forall_forall. intros r Hr. apply expected_matches_nonempty.
    by eapply elem_of_submseteq.
  - eapply submseteq_NoDup; [by apply fmap_submseteq|].
    apply NoDup_expected_indexes.
  - apply Forall_forall. intros r Hr. apply expected_position.
    by eapply elem_of_submseteq.
  - intros Hids. eapply submseteq_NoDup; [by apply fmap_submseteq|].
    eapply sublist_NoDup; [exact Hids|apply expected_ids_sublist].
Qed.

(** When every search fails, or finds nothing, nothing is expected. *)
Lemma expected_nil :
  (forall i session, sessions !! i = Some session ->
     exists e, searchFile q (FilePath session) = Some ([], e)) ->
  expected = [].
Proof.
  intros Hall. apply elem_of_nil_inv. intros r Hr.
  apply elem_of_expected in Hr as (i & session & matches & Hs & Hsf & Hlen & _).
  destruct (Hall i session Hs) as (e & He). rewrite He in Hsf.
  injection Hsf as <- _. discriminate.
Qed.

(** When no search finds anything, whether it fails or not, the call ends
    with no result and a nil error. *)
Lemma SearchContent_nothing_found :
  (0 < maxWorkers c)%Z ->
  (forall filePath, exists e, searchFile q filePath = Some ([], e)) ->
  SearchContent_always exec_Output json_Unmarshal c q sessions Background
    (fun o => o = Returns [] None).
Proof.
  intros Hpos Hsf. unfold Search.SearchContent_always.
  eapply ends_with_mono; [|apply SearchContent_background_exact; [exact Hpos|]].
  - intros o (results & -> & Hperm).
    rewrite expected_nil in Hperm by (intros; apply Hsf).
    by apply Permutation_nil_r in Hperm as ->.
  - intros i session _ Hnone. destruct (Hsf (FilePath session)) as [e He].
    congruence.
Qed.

End Facts.
End ContentFacts.

(* ===================================================================== *)
(** ** Filter: what the two branches return *)
(* ===================================================================== *)

Module FilterFacts.
Import Search.

Section Facts.
Context {Time : Type}.
Variable time_Format : Time -> string -> string.
Variable fuzzy_FindFrom : string -> list string -> list fuzzy.Match.

Local Abbreviation Filter := (Search.Filter time_Format fuzzy_FindFrom).

(** The result the empty query gives the session at position [i]. *)
Definition shown (i : nat) (session : SessionInfo Time) : SearchResult :=
  {| SessionID := ID session; SessionIndex := Z.of_nat i; Matches := [];
     Score := 1.0%float |}.

Lemma fill_all_spec (sessions : list (SessionInfo Time)) :
  forall (i : nat) (pre mid : list SearchResult),
    length pre = i -> length mid = length sessions ->
    fill_all i sessions (pre ++ mid)
    = pre ++ imap (fun j => shown (i + j)) sessions.
Proof.
  induction sessions as [|session rest IH]; intros i pre mid Hpre Hmid.
  - destruct mid; [reflexivity|discriminate].
  - destruct mid as [|m mid]; [discriminate|]. cbn [fill_all imap].
    fold (shown i session).
    rewrite insert_app_r_alt by lia. rewrite Hpre, Nat.sub_diag.
    cbn [insert list_insert].
    rewrite (cons_middle (shown i session) pre mid), (assoc_L (++)).
    rewrite IH; [|rewrite length_app; cbn; lia|by injection Hmid].
    rewrite <- (assoc_L (++)). cbn [app]. rewrite Nat.add_0_r.
    do 2 f_equal. apply imap_ext. intros j x _. cbn. f_equal. lia.
Qed.

Lemma Filter_empty_query (sessions : list (SessionInfo Time)) :
  Filter "" sessions = Some (imap shown sessions).
Proof.
  unfold Search.Filter. cbn [String.eqb]. f_equal.
  rewrite <- (app_nil_l (replicate _ _)).
  rewrite fill_all_spec; [reflexivity|reflexivity|apply length_replicate].
Qed.

Lemma collect_matches_mapM (sessions : list (SessionInfo Time))
      (matches : list fuzzy.Match) (results : list SearchResult) :
  collect_matches sessions matches results
  = (results ++.) <$> mapM (result_of_match sessions) matches.
Proof.
  revert results. induction matches as [|m rest IH]; intros results; cbn.
  - by rewrite app_nil_r.
  - destruct (result_of_match sessions m) as [r|]; cbn; [|reflexivity].
    rewrite IH. destruct (mapM _ rest) as [rs|]; cbn; [|reflexivity].
    by rewrite <- (assoc_L (++)).
Qed.

Lemma Filter_query (query : string) (sessions : list (SessionInfo Time)) :
  query <> ""%string ->
  Filter query sessions
  = mapM (result_of_match sessions)
      (fuzzy_FindFrom query (map (sessionSource_String time_Format) sessions)).
Proof.
  intros Hq. unfold Search.Filter.
  destruct (String.eqb_spec query ""); [done|].
  rewrite collect_matches_mapM. by destruct (mapM _ _).
Qed.

(** How a result follows from the match it was built for. *)
Definition built_from (sessions : list (SessionInfo Time))
           (m : fuzzy.Match) (r : SearchResult) : Prop :=
  SessionIndex r = fuzzy.Index m /\
  Score r = Float64.of_int (fuzzy.Score m) /\
  Matches r = matchIndices_of (fuzzy.MatchedIndexes m) /\
  exists session,
    at_index sessions (fuzzy.Index m) = Some session /\ SessionID r = ID session.

Lemma result_of_match_built (sessions : list (SessionInfo Time))
      (m : fuzzy.Match) (r : SearchResult) :
  result_of_match sessions m = Some r -> built_from sessions m r.
Proof.
  unfold result_of_match.
  destruct (at_index sessions (fuzzy.Index m)) as [session|] eqn:Hs;
    [|discriminate].
  cbn. intros Heq; injection Heq as <-. unfold built_from. cbn.
  repeat split; eauto.
Qed.

Lemma at_index_in_range {A} (xs : list A) (i : Z) :
  (0 <= i < slice_len xs)%Z -> is_Some (at_index xs i).
Proof.
  unfold at_index, slice_len. intros Hi.
  destruct (Z.leb_spec 0 i); [|lia].
  apply lookup_lt_is_Some. lia.
Qed.

(** The matchers whose output is usable: every reported index is a
    position of the source. *)
Definition indexes_in_range (sessions : list (SessionInfo Time))
           (matches : list fuzzy.Match) : Prop :=
  Forall (fun m => (0 <= fuzzy.Index m < slice_len sessions)%Z) matches.

Lemma ranked_by_Forall2 {A B} (R : A -> B -> Prop)
      (score1 : A -> float) (index1 : A -> Z)
      (score2 : B -> float) (index2 : B -> Z) (l : list A) (k : list B) :
  (forall x y, R x y -> score1 x = score2 y /\ index1 x = index2 y) ->
  Forall2 R l k ->
  ranked_by score1 index1 l = ranked_by score2 index2 k.
Proof.
  intros HR. induction 1 as [|x y l k Hxy Hlk IH]; [reflexivity|].
  cbn [ranked_by]. destruct Hlk as [|x' y' l' k' Hxy' _]; [reflexivity|].
  rewrite IH. unfold outranks.
  destruct (HR x y Hxy) as [-> ->], (HR x' y' Hxy') as [-> ->]. reflexivity.
Qed.

(** The matcher's output in the order of the specification. *)
Definition ranked_matches (matches : list fuzzy.Match) : bool :=
  ranked_by (fun m => Float64.of_int (fuzzy.Score m)) fuzzy.Index matches.

Lemma built_from_ranked (sessions : list (SessionInfo Time))
      (matches : list fuzzy.Match) (results : list SearchResult) :
  Forall2 (built_from sessions) matches results ->
  ranked results = ranked_matches matches.
Proof.
  intros H. symmetry. unfold ranked, ranked_matches.
  eapply ranked_by_Forall2; [|exact H].
  intros m r (Hidx & Hscore & _). by rewrite Hidx, Hscore.
Qed.

Lemma Filter_matcher_order (query : string) (sessions : list (SessionInfo Time)) :
  query <> ""%string ->
  let matches :=
    fuzzy_FindFrom query (map (sessionSource_String time_Format) sessions) in
  (forall results,
      Filter query sessions = Some results ->
      Forall2 (built_from sessions) matches results) /\
  (indexes_in_range sessions matches -> is_Some (Filter query sessions)).
Proof.
  intros Hq matches. rewrite (Filter_query query sessions Hq). fold matches.
  split.
  - intros results Hm%mapM_Some_1.
    eapply Forall2_impl; [exact Hm|]. intros m r. apply result_of_match_built.
  - intros Hrange. apply mapM_is_Some_2.
    eapply Forall_impl; [exact Hrange|]. intros m Hm. cbn.
    unfold result_of_match.
    destruct (at_index_in_range sessions _ Hm) as [session ->]. by cbn.
Qed.

End Facts.
End FilterFacts.

(* ===================================================================== *)
(** ** searchFile: exit statuses and the scanner loop *)
(* ===================================================================== *)

Module SearchFileFacts.
Import Search.

Section Facts.
Variable exec_Output : string -> list string -> string * option error.
Variable json_Unmarshal : string -> option (gmap string iface).

Local Abbreviation searchFile := (Search.searchFile exec_Output json_Unmarshal).
Local Abbreviation scan_record := (Search.scan_record json_Unmarshal).
Local Abbreviation scan_records := (Search.scan_records json_Unmarshal).

(** What one line of the tool's output adds to the matches. *)
Definition line_matches (line : string) : option (list Match) :=
  scan_record [] line.

Lemma scan_record_acc (matches : list Match) (line : string) :
  scan_record matches line = (matches ++.) <$> line_matches line.
Proof.
  unfold line_matches, Search.scan_record.
  destruct (json_Unmarshal line) as [result|]; cbn; [|by rewrite app_nil_r].
  destruct (iface_is_string _ _); cbn; [|by rewrite app_nil_r].
  destruct (as_object _) as [data|]; cbn; [|by rewrite app_nil_r].
  by destruct (match_of_data data).
Qed.

Lemma scan_records_lines (lines : list string) (matches : list Match) :
  scan_records lines matches
  = (fun found => matches ++ concat found) <$> mapM line_matches lines.
Proof.
  revert matches. induction lines as [|line rest IH]; intros matches; cbn.
  - by rewrite app_nil_r.
  - rewrite scan_record_acc.
    destruct (line_matches line) as [ms|]; cbn; [|reflexivity].
    rewrite IH. destruct (mapM line_matches rest) as [found|]; cbn;
      [|reflexivity].
    by rewrite <- (assoc_L (++)).
Qed.

Lemma line_matches_unparsed (line : string) :
  json_Unmarshal line = None -> line_matches line = Some [].
Proof. intros H. unfold line_matches, Search.scan_record. by rewrite H. Qed.

Lemma iface_is_string_true (v : option iface) (s : string) :
  iface_is_string v s = true <-> v = Some (IString s).
Proof.
  unfold iface_is_string. destruct v as [[| | |s'| |]|]; try (split; done).
  destruct (String.eqb_spec s' s) as [->|Hne]; split; try done.
  intros Heq; injection Heq as ->. done.
Qed.

Lemma line_matches_other_kind (line : string) (result : gmap string iface) :
  json_Unmarshal line = Some result ->
  result !! "type"%string <> Some (IString "match") ->
  line_matches line = Some [].
Proof.
  intros H Hkind. unfold line_matches, Search.scan_record. rewrite H.
  destruct (iface_is_string _ _) eqn:Hs; [|reflexivity].
  by apply iface_is_string_true in Hs.
Qed.

Lemma line_matches_at_most_one (line : string) (ms : list Match) :
  line_matches line = Some ms -> length ms <= 1.
Proof.
  unfold line_matches, Search.scan_record.
  destruct (json_Unmarshal line) as [result|]; [|intros [= <-]; cbn; lia].
  destruct (iface_is_string _ _); [|intros [= <-]; cbn; lia].
  destruct (as_object _) as [data|]; [|intros [= <-]; cbn; lia].
  destruct (match_of_data data); cbn; [|discriminate].
  intros [= <-]. cbn. lia.
Qed.

(** A match record with its whole payload. *)
Record match_record (result : gmap string iface) (lineNumber : float)
       (text : string) (start end_ : float) : Prop := {
  mr_type : result !! "type"%string = Some (IString "match");
  mr_payload :
    exists data lines submatch others,
      result !! "data"%string = Some (IObject data) /\
      data !! "line_number"%string = Some (IFloat64 lineNumber) /\
      data !! "lines"%string = Some (IObject lines) /\
      lines !! "text"%string = Some (IString text) /\
      data !! "submatches"%string = Some (IArray (IObject submatch :: others)) /\
      submatch !! "start"%string = Some (IFloat64 start) /\
      submatch !! "end"%string = Some (IFloat64 end_)
}.

Lemma line_matches_match (line : string) (result : gmap string iface)
      (lineNumber : float) (text : string) (start end_ : float)
      (snippet : string) :
  json_Unmarshal line = Some result ->
  match_record result lineNumber text start end_ ->
  Extract.extractContext text (Float64.to_int start) (Float64.to_int end_)
    = Some snippet ->
  line_matches line
  = Some [ {| Text := text;
              LineNumber := Float64.to_int lineNumber;
              StartOffset := Float64.to_int start;
              EndOffset := Float64.to_int end_;
              Context := snippet |} ].
Proof.
  intros H [Htype (data & lines & submatch & others & Hdata & Hln & Hlines
                   & Htext & Hsub & Hstart & Hend)] Hctx.
  unfold line_matches, Search.scan_record. rewrite H, Htype, Hdata. cbn.
  unfold match_of_data, first_submatch.
  rewrite Hln, Hlines. cbn [as_object as_float64]. rewrite Htext.
  cbn [as_string]. rewrite Hsub. cbn [as_array as_object].
  rewrite Hstart, Hend. cbn [as_float64]. cbn. by rewrite Hctx.
Qed.

Lemma searchFile_no_matches (c : contentEngine) (query filePath output : string) :
  exec_Output (rgPath c) (rg_args query filePath)
    = (output, Some (ExitError 1)) ->
  searchFile c query filePath = Some ([], None).
Proof. intros H. unfold Search.searchFile. by rewrite H. Qed.

Lemma searchFile_failure (c : contentEngine) (query filePath output : string)
      (e : error) :
  exec_Output (rgPath c) (rg_args query filePath) = (output, Some e) ->
  e <> ExitError 1 ->
  searchFile c query filePath = Some ([], Some e).
Proof.
  intros H He. unfold Search.searchFile. rewrite H.
  destruct e as [code| | | |]; try reflexivity.
  destruct (Z.eqb_spec code 1) as [->|]; [done|reflexivity].
Qed.

Lemma searchFile_output (c : contentEngine) (query filePath output : string) :
  exec_Output (rgPath c) (rg_args query filePath) = (output, None) ->
  searchFile c query filePath
  = (fun found => (concat found, None))
      <$> mapM line_matches (bufio.ScanLines output).
Proof.
  intros H. unfold Search.searchFile. rewrite H, scan_records_lines.
  by destruct (mapM _ _).
Qed.

Lemma searchFile_every_run_fails (c : contentEngine) (e : error) :
  (forall args, snd (exec_Output (rgPath c) args) = Some e) ->
  forall query filePath, exists e', searchFile c query filePath = Some ([], e').
Proof.
  intros Hfail query filePath. unfold Search.searchFile.
  specialize (Hfail (rg_args query filePath)).
  destruct (exec_Output _ _) as [output err]. cbn in Hfail. subst err.
  destruct e as [code| | | |]; eauto. destruct (code =? 1)%Z; eauto.
Qed.

(** *** Records that respect the invariant of Match do not panic *)

(** The offsets of the first sub-match of a record lie within its line
    text: [0 <= start <= end <= len(text)]. *)
Definition record_offsets_ok (data : gmap string iface) : Prop :=
  forall lines text m m' s e,
    as_object (data !! "lines"%string) = Some lines ->
    as_string (lines !! "text"%string) = Some text ->
    first_submatch data m = (m', s, e, true) ->
    Extract.fits_int text /\ (0 <= s <= e)%Z /\ (e <= Strings.len text)%Z.

Lemma match_of_data_total (data : gmap string iface) :
  record_offsets_ok data -> is_Some (match_of_data data).
Proof.
  intros Hok. unfold match_of_data.
  destruct (as_object (data !! "lines"%string)) as [lines|] eqn:Hl; [|eauto].
  destruct (as_string (lines !! "text"%string)) as [text|] eqn:Ht; [|eauto].
  destruct (first_submatch data _) as [[[m' s] e] has] eqn:Hsub.
  destruct has; [|eauto].
  destruct (Hok _ _ _ _ _ _ Hl Ht Hsub) as (Hfit & Hse & He).
  destruct (ExtractFacts.extractContext_total text s e Hfit Hse He) as [x ->].
  cbn. eauto.
Qed.

(** Every record the decoder yields respects the invariant. *)
Definition records_ok : Prop :=
  forall line result data,
    json_Unmarshal line = Some result ->
    as_object (result !! "data"%string) = Some data ->
    record_offsets_ok data.

Lemma line_matches_total (line : string) :
  records_ok -> is_Some (line_matches line).
Proof.
  intros Hok. unfold line_matches, Search.scan_record.
  destruct (json_Unmarshal line) as [result|] eqn:Hr; [|eauto].
  destruct (iface_is_string _ _); [|eauto].
  destruct (as_object _) as [data|] eqn:Hd; [|eauto].
  destruct (match_of_data_total data (Hok _ _ _ Hr Hd)) as [m ->].
  cbn. eauto.
Qed.

Lemma searchFile_total (c : contentEngine) (query filePath : string) :
  records_ok -> is_Some (searchFile c query filePath).
Proof.
  intros Hok. unfold Search.searchFile.
  destruct (exec_Output _ _) as [output [e|]].
  - destruct e as [code| | | |]; eauto. destruct (code =? 1)%Z; eauto.
  - rewrite scan_records_lines.
    assert (is_Some (mapM line_matches (bufio.ScanLines output))) as [found ->].
    { apply mapM_is_Some_2, Forall_forall. intros line _.
      by apply line_matches_total. }
    cbn. eauto.
Qed.

Lemma no_panic_of_records_ok {Time : Type} (c : contentEngine) (q : string)
      (sessions : list (SessionInfo Time)) :
  records_ok -> ContentFacts.no_panic exec_Output json_Unmarshal c q sessions.
Proof.
  intros Hok i session _ Hnone.
  destruct (searchFile_total c q (FilePath session) Hok) as [x Hx]. congruence.
Qed.

End Facts.
End SearchFileFacts.

(* ===================================================================== *)
(** ** Byte strings: append, substring, prefix *)
(* ===================================================================== *)

Module BytesFacts.
Import Strings.

Lemma append_nil_l (t : string) : "" +:+ t = t.
Proof. reflexivity. Qed.

Lemma append_cons (c : ascii) (s t : string) :
  String c s +:+ t = String c (s +:+ t).
Proof. reflexivity. Qed.

Ltac app_simpl := rewrite ?append_nil_l, ?append_cons; simpl.

Lemma length_append (s t : string) :
  String.length (s +:+ t) = String.length s + String.length t.
Proof. induction s as [|c s IH]; app_simpl; [reflexivity|]. by rewrite IH. Qed.

Lemma len_append (s t : string) :
  Strings.len (s +:+ t) = (Strings.len s + Strings.len t)%Z.
Proof. unfold Strings.len. rewrite length_append. lia. Qed.

Lemma append_nil_r (s : string) : s +:+ "" = s.
Proof. induction s as [|c s IH]; app_simpl; [reflexivity|]. by rewrite IH. Qed.

Lemma append_assoc (s t u : string) : (s +:+ t) +:+ u = s +:+ (t +:+ u).
Proof. induction s as [|c s IH]; app_simpl; [reflexivity|]. by rewrite IH. Qed.

Lemma substring_all (s : string) : substring 0 (String.length s) s = s.
Proof. induction s as [|c s IH]; simpl; [reflexivity|]. by rewrite IH. Qed.

Lemma substring_0_0 (s : string) : substring 0 0 s = ""%string.
Proof. by destruct s. Qed.

Lemma substring_append_l (p s : string) :
  substring 0 (String.length p) (p +:+ s) = p.
Proof.
  induction p as [|c p IH]; app_simpl; [apply substring_0_0|]. by rewrite IH.
Qed.

Lemma substring_append_r (p s : string) (m : nat) :
  substring (String.length p) m (p +:+ s) = substring 0 m s.
Proof. induction p as [|c p IH]; app_simpl; [reflexivity|]. exact IH. Qed.

Lemma substring_split (s : string) (k : nat) :
  k <= String.length s ->
  s = substring 0 k s +:+ substring k (String.length s - k) s.
Proof.
  revert k. induction s as [|c s IH]; intros [|k] Hk; simpl in *;
    rewrite ?append_nil_l, ?append_cons; try reflexivity; try lia.
  - f_equal. by rewrite substring_all.
  - f_equal. apply IH. lia.
Qed.

Lemma eqb_true (s t : string) : String.eqb s t = true <-> s = t.
Proof. apply String.eqb_eq. Qed.

Lemma get_append_l (s t : string) (i : nat) :
  i < String.length s -> String.get i (s +:+ t) = String.get i s.
Proof. intros H. symmetry. by apply append_correct1. Qed.

Lemma get_append_r (s t : string) (i : nat) :
  String.get (String.length s + i) (s +:+ t) = String.get i t.
Proof. rewrite Nat.add_comm. symmetry. apply append_correct2. Qed.

Lemma get_None (s : string) (i : nat) :
  String.length s <= i -> String.get i s = None.
Proof.
  revert i. induction s as [|c s IH]; intros i Hi; simpl in *.
  - reflexivity.
  - destruct i; [lia|]. apply IH. lia.
Qed.

Lemma get_Some (s : string) (i : nat) :
  i < String.length s -> is_Some (String.get i s).
Proof.
  revert i. induction s as [|c s IH]; intros i Hi; simpl in *; [lia|].
  destruct i; [eauto|]. apply IH. lia.
Qed.

Lemma prefix_append (p s : string) : String.prefix p (p +:+ s) = true.
Proof.
  induction p as [|c p IH]; app_simpl; [by destruct s|].
  destruct (Ascii.ascii_dec c c); [exact IH|congruence].
Qed.

Lemma prefix_inv (p s : string) :
  String.prefix p s = true -> exists t, s = p +:+ t.
Proof.
  revert s. induction p as [|c p IH]; intros s Hp; simpl in *.
  - by exists s.
  - destruct s as [|d s]; simpl in Hp; [discriminate|].
    destruct (Ascii.ascii_dec c d) as [->|]; [|discriminate].
    destruct (IH _ Hp) as [t ->]. exists t. by rewrite append_cons.
Qed.

End BytesFacts.

(* ===================================================================== *)
(** ** Package strings: suffixes, replacing one byte *)
(* ===================================================================== *)

Module StringsLibFacts.
Import Strings StringsLib BytesFacts.

Lemma HasSuffix_append (p suffix : string) : HasSuffix (p +:+ suffix) suffix = true.
Proof.
  unfold HasSuffix. rewrite length_append.
  apply andb_true_iff. split; [apply Nat.leb_le; lia|].
  apply eqb_true. replace (_ + _ - _) with (String.length p) by lia.
  rewrite substring_append_r. apply substring_all.
Qed.

Lemma HasSuffix_inv (s suffix : string) :
  HasSuffix s suffix = true ->
  s = substring 0 (String.length s - String.length suffix) s +:+ suffix.
Proof.
  unfold HasSuffix. intros [Hle Heq]%andb_true_iff.
  apply Nat.leb_le in Hle. apply eqb_true in Heq.
  rewrite (substring_split s (String.length s - String.length suffix)) at 1
    by lia.
  f_equal. rewrite <- Heq at 3. f_equal. lia.
Qed.

Lemma HasSuffix_iff (s suffix : string) :
  HasSuffix s suffix = true <-> exists p, s = p +:+ suffix.
Proof.
  split.
  - intros H. eexists. by apply HasSuffix_inv.
  - intros [p ->]. apply HasSuffix_append.
Qed.

Lemma TrimSuffix_append (p suffix : string) :
  TrimSuffix (p +:+ suffix) suffix = p.
Proof.
  unfold TrimSuffix. rewrite HasSuffix_append, length_append.
  replace (_ + _ - _) with (String.length p) by lia.
  apply substring_append_l.
Qed.

Lemma TrimSuffix_restore (s suffix : string) :
  HasSuffix s suffix = true -> TrimSuffix s suffix +:+ suffix = s.
Proof.
  intros H. unfold TrimSuffix. rewrite H. symmetry. by apply HasSuffix_inv.
Qed.

(** Replacing one byte by another, byte by byte. *)
Fixpoint map_bytes (f : ascii -> ascii) (s : string) : string :=
  match s with
  | EmptyString => EmptyString
  | String c s' => String (f c) (map_bytes f s')
  end.

Definition swap_byte (a b c : ascii) : ascii := if Ascii.eqb c a then b else c.

Lemma prefix_one (a : ascii) (s : string) :
  String.prefix (String a EmptyString) s
  = match s with String c _ => Ascii.eqb c a | EmptyString => false end.
Proof.
  destruct s as [|c s]; simpl; [reflexivity|].
  destruct (Ascii.ascii_dec a c) as [->|Hne].
  - rewrite Ascii.eqb_refl. by destruct s.
  - symmetry. apply Ascii.eqb_neq. congruence.
Qed.

Lemma ReplaceAll_one_byte (s : string) (a b : ascii) :
  ReplaceAll s (String a EmptyString) (String b EmptyString)
  = map_bytes (swap_byte a b) s.
Proof.
  unfold ReplaceAll. induction s as [|c s IH]; [reflexivity|].
  cbn [replace_from map_bytes]. rewrite prefix_one. unfold swap_byte at 1.
  destruct (Ascii.eqb c a); cbn; by rewrite IH.
Qed.

Lemma map_bytes_append (f : ascii -> ascii) (s t : string) :
  map_bytes f (s +:+ t) = map_bytes f s +:+ map_bytes f t.
Proof. induction s as [|c s IH]; app_simpl; [reflexivity|]. by rewrite IH. Qed.

Lemma length_map_bytes (f : ascii -> ascii) (s : string) :
  String.length (map_bytes f s) = String.length s.
Proof. induction s as [|c s IH]; simpl; [reflexivity|]. by rewrite IH. Qed.

Lemma map_bytes_id (f : ascii -> ascii) (s : string) :
  (forall i c, String.get i s = Some c -> f c = c) -> map_bytes f s = s.
Proof.
  induction s as [|c s IH]; intros H; simpl; [reflexivity|].
  rewrite (H 0 c eq_refl). f_equal. apply IH. intros i d Hd. by apply (H (S i)).
Qed.

Lemma get_map_bytes (f : ascii -> ascii) (s : string) (i : nat) :
  String.get i (map_bytes f s) = f <$> String.get i s.
Proof.
  revert i. induction s as [|c s IH]; intros [|i]; simpl; try reflexivity.
  apply IH.
Qed.

(** A string holds the byte [a] nowhere. *)
Definition free_of (a : ascii) (s : string) : Prop :=
  forall i, String.get i s <> Some a.

Lemma index_nat_one_None (a : ascii) (s : string) :
  index_nat s (String a EmptyString) = None <-> free_of a s.
Proof.
  induction s as [|c s IH]; cbn [index_nat]; rewrite prefix_one.
  - split; [|reflexivity]. intros _ i. by destruct i.
  - destruct (Ascii.eqb_spec c a) as [->|Hne].
    + split; [discriminate|]. intros H. by destruct (H 0).
    + destruct (index_nat s _) eqn:Hs; cbn.
      * split; [discriminate|]. intros H.
        assert (free_of a s) as Hf by (intros i; apply (H (S i))).
        apply IH in Hf. discriminate.
      * split; [|reflexivity]. intros _ [|i]; cbn; [congruence|].
        by apply IH.
Qed.

Lemma Contains_one_false (a : ascii) (s : string) :
  Contains s (String a EmptyString) = false <-> free_of a s.
Proof.
  unfold Contains, Index. rewrite <- index_nat_one_None.
  destruct (index_nat s _) as [n|]; [|done].
  destruct (Z.geb_spec (Z.of_nat n) 0); [split; discriminate|lia].
Qed.

End StringsLibFacts.

(* ===================================================================== *)
(** ** Package path/filepath: Base and Ext *)
(* ===================================================================== *)

Module FilepathFacts.
Import Strings StringsLib Filepath BytesFacts StringsLibFacts.

Definition slash : string := String Separator EmptyString.

Lemma sep_at_free (s : string) (i : nat) :
  free_of Separator s -> sep_at s i = false.
Proof.
  intros Hf. unfold sep_at. specialize (Hf i).
  destruct (String.get i s) as [c|]; [|reflexivity].
  apply Ascii.eqb_neq. congruence.
Qed.

Lemma sep_at_append_l (s t : string) (i : nat) :
  i < String.length s -> sep_at (s +:+ t) i = sep_at s i.
Proof. intros H. unfold sep_at. by rewrite get_append_l. Qed.

Lemma sep_at_append_r (s t : string) (i : nat) :
  sep_at (s +:+ t) (String.length s + i) = sep_at t i.
Proof. unfold sep_at. by rewrite get_append_r. Qed.

Lemma sep_at_slash (s t : string) :
  sep_at (s +:+ slash +:+ t) (String.length s) = true.
Proof.
  rewrite <- (Nat.add_0_r (String.length s)), sep_at_append_r. reflexivity.
Qed.

Lemma free_of_append (a : ascii) (s t : string) :
  free_of a s -> free_of a t -> free_of a (s +:+ t).
Proof.
  intros Hs Ht i. destruct (Nat.lt_ge_cases i (String.length s)) as [Hlt|Hge].
  - rewrite get_append_l by done. apply Hs.
  - replace i with (String.length s + (i - String.length s)) by lia.
    rewrite get_append_r. apply Ht.
Qed.

(** A path that does not end in a separator has no trailing separator to
    strip. *)
Lemma strip_trailing_none (path : string) (n : nat) :
  sep_at path (n - 1) = false -> strip_trailing path n = path.
Proof.
  destruct n as [|n]; [reflexivity|]. cbn [strip_trailing].
  rewrite Nat.sub_succ, Nat.sub_0_r. by intros ->.
Qed.

Lemma last_separator_none (path : string) (n : nat) :
  free_of Separator path -> last_separator path n = None.
Proof.
  intros Hf. induction n as [|n IH]; [reflexivity|].
  cbn [last_separator]. by rewrite sep_at_free.
Qed.

Lemma last_separator_found (pre name : string) (k : nat) :
  free_of Separator name -> k <= String.length name ->
  last_separator (pre +:+ slash +:+ name) (String.length pre + 1 + k)
  = Some (String.length pre).
Proof.
  intros Hf. induction k as [|k IH]; intros Hk.
  - rewrite Nat.add_0_r, Nat.add_1_r. cbn [last_separator].
    by rewrite sep_at_slash.
  - rewrite Nat.add_succ_r. cbn [last_separator].
    replace (String.length pre + 1 + k)
      with (String.length (pre +:+ slash) + k)
      by (rewrite length_append; reflexivity).
    rewrite <- append_assoc, sep_at_append_r, sep_at_free by done.
    rewrite append_assoc, length_append. apply IH. lia.
Qed.

(** The base of a bare name is the name. *)
Lemma Base_name (name : string) :
  name <> ""%string -> free_of Separator name -> Base name = name.
Proof.
  intros Hne Hf. unfold Base.
  destruct (String.eqb_spec name ""); [done|].
  rewrite strip_trailing_none by by apply sep_at_free.
  rewrite last_separator_none by done.
  by destruct (String.eqb_spec name "").
Qed.

(** The base of a name under a directory is the name. *)
Lemma Base_under (pre name : string) :
  name <> ""%string -> free_of Separator name ->
  Base (pre +:+ slash +:+ name) = name.
Proof.
  intros Hne Hf. unfold Base.
  assert (String.length name <> 0) as Hlen by by destruct name.
  assert (String.length (pre +:+ slash +:+ name)
          = String.length pre + 1 + String.length name) as Hl.
  { rewrite !length_append. cbn. lia. }
  destruct (String.eqb_spec (pre +:+ slash +:+ name) "") as [Heq|_].
  { rewrite Heq in Hl. cbn in Hl. lia. }
  rewrite strip_trailing_none.
  2:{ rewrite Hl.
      replace (String.length pre + 1 + String.length name - 1)
        with (String.length (pre +:+ slash) + (String.length name - 1))
        by (rewrite length_append; cbn; lia).
      rewrite <- append_assoc, sep_at_append_r. by apply sep_at_free. }
  rewrite Hl, last_separator_found by done.
  replace (S (String.length pre)) with (String.length (pre +:+ slash))
    by (rewrite length_append; cbn; lia).
  rewrite <- append_assoc, substring_append_r.
  replace (_ - _) with (String.length name)
    by (rewrite length_append; cbn; lia).
  rewrite substring_all.
  by destruct (String.eqb_spec name "").
Qed.

(** *** Ext *)

Lemma ext_from_suffix (p e : string) (k : nat) :
  free_of Separator e -> free_of "."%char e -> k <= String.length e ->
  ext_from (p +:+ "." +:+ e) (String.length p + 1 + k) = "." +:+ e.
Proof.
  intros Hs Hd. induction k as [|k IH]; intros Hk.
  - rewrite Nat.add_0_r, Nat.add_1_r. cbn [ext_from].
    assert (String.get (String.length p) (p +:+ "." +:+ e) = Some "."%char)
      as Hget.
    { rewrite <- (Nat.add_0_r (String.length p)) at 1.
      by rewrite get_append_r. }
    unfold sep_at. rewrite Hget. cbn.
    rewrite <- (Nat.add_0_r (String.length p)) at 2.
    rewrite length_append.
    replace (_ - _) with (String.length ("." +:+ e)) by lia.
    replace (String.length p + 0) with (String.length p) by lia.
    rewrite substring_append_r. apply substring_all.
  - rewrite Nat.add_succ_r. cbn [ext_from].
    assert (String.get (String.length p + 1 + k) (p +:+ "." +:+ e)
            = String.get k e) as Hget.
    { replace (String.length p + 1 + k)
        with (String.length (p +:+ ".") + k)
        by (rewrite length_append; reflexivity).
      by rewrite <- append_assoc, get_append_r. }
    unfold sep_at. rewrite Hget.
    destruct (get_Some e k ltac:(lia)) as [c Hc]. rewrite Hc.
    destruct (Ascii.eqb_spec c Separator) as [->|_]; [by destruct (Hs k)|].
    destruct (Ascii.eqb_spec c ".") as [->|_]; [by destruct (Hd k)|].
    apply IH. lia.
Qed.

(** Whatever [Ext] returns is a suffix of the path. *)
Lemma ext_from_is_suffix (path : string) (n : nat) :
  n <= String.length path ->
  ext_from path n = ""%string \/ HasSuffix path (ext_from path n) = true.
Proof.
  induction n as [|n IH]; intros Hn; [by left|].
  cbn [ext_from]. destruct (sep_at path n); [by left|].
  destruct (String.get n path) as [c|]; [|apply IH; lia].
  destruct (Ascii.eqb c "."); [|apply IH; lia].
  right. apply HasSuffix_iff. eexists. apply substring_split. lia.
Qed.

Lemma Ext_jsonl (name : string) :
  Ext name = ".jsonl"%string <-> HasSuffix name ".jsonl" = true.
Proof.
  split.
  - intros He. destruct (ext_from_is_suffix name (String.length name))
      as [H|H]; [lia| |]; fold (Ext name) in H; rewrite He in H; done.
  - intros [p ->]%HasSuffix_iff. unfold Ext.
    assert (String.length (p +:+ ".jsonl") = String.length p + 1 + 5) as ->
      by (rewrite length_append; cbn; lia).
    apply (ext_from_suffix p "jsonl" 5); [| |done].
    + by intros [|[|[|[|[|[|]]]]]].
    + by intros [|[|[|[|[|[|]]]]]].
Qed.

End FilepathFacts.

(* ===================================================================== *)
(** ** GetSessionID *)
(* ===================================================================== *)

Module ModelFacts.
Import Strings StringsLib Filepath BytesFacts StringsLibFacts FilepathFacts Model.

Lemma free_of_jsonl : free_of Separator ".jsonl".
Proof. by intros [|[|[|[|[|[|[|]]]]]]]. Qed.

(** The ID of a transcript is its file name without the extension,
    whatever the directory. *)
Lemma GetSessionID_under (dir id : string) :
  free_of Separator id ->
  GetSessionID (dir +:+ slash +:+ id +:+ ".jsonl") = id.
Proof.
  intros Hf. unfold GetSessionID.
  rewrite Base_under.
  - apply TrimSuffix_append.
  - by destruct id.
  - apply free_of_append; [done|apply free_of_jsonl].
Qed.

Lemma GetSessionID_name (name : string) :
  name <> ""%string -> free_of Separator name ->
  HasSuffix name ".jsonl" = true ->
  GetSessionID name +:+ ".jsonl" = name.
Proof.
  intros Hne Hf Hs. unfold GetSessionID. rewrite Base_name by done.
  by apply TrimSuffix_restore.
Qed.

End ModelFacts.

(* ===================================================================== *)
(** ** convertToClaudePath *)
(* ===================================================================== *)

Module MainFacts.
Import Strings StringsLib Filepath BytesFacts StringsLibFacts FilepathFacts Main.

(** The path with every separator turned into a dash. *)
Definition dashed (path : string) : string :=
  map_bytes (swap_byte Separator "-") path.

Lemma convertToClaudePath_dashed (path : string) :
  convertToClaudePath path
  = if String.prefix "-" (dashed path) then dashed path
    else "-" +:+ dashed path.
Proof.
  unfold convertToClaudePath, HasPrefix.
  change "-"%string with (String "-"%char EmptyString) at 1 2.
  rewrite ReplaceAll_one_byte. fold (dashed path).
  by destruct (String.prefix _ _).
Qed.

Lemma free_of_dashed (path : string) : free_of Separator (dashed path).
Proof.
  intros i. unfold dashed. rewrite get_map_bytes.
  destruct (String.get i path) as [c|]; [|done]. cbn. unfold swap_byte.
  destruct (Ascii.eqb_spec c Separator); [done|congruence].
Qed.

Lemma dashed_free (s : string) : free_of Separator s -> dashed s = s.
Proof.
  intros Hf. apply map_bytes_id. intros i c Hc. unfold swap_byte.
  destruct (Ascii.eqb_spec c Separator) as [->|]; [|done]. by destruct (Hf i).
Qed.

Lemma free_of_cons (a c : ascii) (s : string) :
  c <> a -> free_of a s -> free_of a (String c s).
Proof. intros Hne Hf [|i]; cbn; [congruence|apply Hf]. Qed.

Lemma free_of_convert (path : string) :
  free_of Separator (convertToClaudePath path).
Proof.
  rewrite convertToClaudePath_dashed.
  destruct (String.prefix _ _); [apply free_of_dashed|].
  rewrite append_cons, append_nil_l.
  apply free_of_cons; [done|apply free_of_dashed].
Qed.

Lemma prefix_convert (path : string) :
  String.prefix "-" (convertToClaudePath path) = true.
Proof.
  rewrite convertToClaudePath_dashed.
  destruct (String.prefix "-" (dashed path)) eqn:Hp; [exact Hp|].
  apply (prefix_append "-").
Qed.

End MainFacts.

(* ===================================================================== *)
(** ** ListSessions *)
(* ===================================================================== *)

Module ParserFacts.
Import Search StringsLib Filepath BytesFacts StringsLibFacts FilepathFacts
       ModelFacts Parser.

Section Facts.
Context {Time : Type}.
Variable os_ReadDir : string -> list (DirEntry Time) + error.

(** The session [ListSessions] makes of one directory entry, if it keeps
    it. *)
Definition session_of (claudeDir : string) (entry : DirEntry Time)
  : option (SessionInfo Time) :=
  if entry_IsDir entry then None
  else if StringsLib.HasSuffix (entry_Name entry) ".jsonl" then
    modTime ← entry_ModTime entry;
    Some {| ID := Model.GetSessionID (entry_Name entry);
            FilePath := FilepathClean.Join claudeDir (entry_Name entry);
            LastActive := modTime |}
  else None.

Lemma omap_cons_match {A B} (f : A -> option B) (x : A) (l : list A) :
  omap f (x :: l)
  = match f x with Some y => y :: omap f l | None => omap f l end.
Proof. reflexivity. Qed.

Lemma list_entries_omap (claudeDir : string) (entries : list (DirEntry Time))
      (sessions : list (SessionInfo Time)) :
  list_entries claudeDir entries sessions
  = sessions ++ omap (session_of claudeDir) entries.
Proof.
  revert sessions. induction entries as [|entry rest IH]; intros sessions.
  - cbn. by rewrite app_nil_r.
  - cbn [list_entries].
    rewrite omap_cons_match.
    unfold session_of at 1.
    destruct (entry_IsDir entry); cbn [orb negb]; [apply IH|].
    destruct (HasSuffix _ _); cbn [orb negb]; [|apply IH].
    destruct (entry_ModTime entry); cbn [mbind option_bind]; [|apply IH].
    rewrite IH, <- app_assoc. reflexivity.
Qed.

(** The names [os.ReadDir] reports: not empty, without a separator. *)
Definition plain_name (name : string) : Prop :=
  name <> ""%string /\ Strings.Contains name "/" = false.

Lemma plain_name_free (name : string) :
  plain_name name -> free_of Separator name.
Proof. intros [_ H]. by apply (Contains_one_false Separator). Qed.

Lemma session_of_name (claudeDir : string) (entry : DirEntry Time)
      (session : SessionInfo Time) :
  plain_name (entry_Name entry) ->
  session_of claudeDir entry = Some session ->
  ID session +:+ ".jsonl" = entry_Name entry.
Proof.
  intros Hplain. pose proof (plain_name_free _ Hplain) as Hf.
  destruct Hplain as [Hne _]. unfold session_of.
  destruct (entry_IsDir entry); [done|].
  destruct (HasSuffix _ _) eqn:Hs; [|done].
  destruct (entry_ModTime entry); [|done]. cbn.
  intros [= <-]. cbn. by apply GetSessionID_name.
Qed.

Lemma NoDup_session_ids (claudeDir : string) (entries : list (DirEntry Time)) :
  Forall (fun entry => plain_name (entry_Name entry)) entries ->
  NoDup (entry_Name <$> entries) ->
  NoDup (ID <$> omap (session_of claudeDir) entries).
Proof.
  induction entries as [|entry rest IH]; intros Hplain Hnd; [constructor|].
  apply Forall_cons in Hplain as [Hp Hplain].
  rewrite fmap_cons in Hnd. apply NoDup_cons in Hnd as [Hnotin Hnd].
  rewrite omap_cons_match.
  destruct (session_of claudeDir entry) as [session|] eqn:Hs; [|by apply IH].
  rewrite fmap_cons. apply NoDup_cons. split; [|by apply IH].
  intros Hin. apply Hnotin.
  apply list_elem_of_fmap in Hin as (session' & Hid & Hin).
  apply list_elem_of_omap in Hin as (entry' & Hin & Hs').
  apply list_elem_of_fmap. exists entry'. split; [|done].
  rewrite <- (session_of_name _ _ _ Hp Hs).
  rewrite Forall_forall in Hplain.
  rewrite <- (session_of_name _ _ _ (Hplain _ Hin) Hs').
  by rewrite Hid.
Qed.

Lemma any_jsonl_spec (entries : list (DirEntry Time)) :
  Main.any_jsonl entries = true <->
  exists entry, entry ∈ entries /\ entry_IsDir entry = false /\
                HasSuffix (entry_Name entry) ".jsonl" = true.
Proof.
  induction entries as [|entry rest IH]; cbn [Main.any_jsonl].
  - split; [done|]. intros (e & He & _). by apply elem_of_nil in He.
  - destruct (negb (entry_IsDir entry)
              && String.eqb (Ext (entry_Name entry)) ".jsonl") eqn:Hk.
    + split; [|done]. intros _. exists entry.
      apply andb_true_iff in Hk as [Hd He].
      apply negb_true_iff in Hd. apply String.eqb_eq, Ext_jsonl in He.
      split; [apply list_elem_of_here|done].
    + rewrite IH. split.
      * intros (e & He & H). exists e. split; [by apply list_elem_of_further|done].
      * intros (e & He & Hd & Hs). apply elem_of_cons in He as [->|He].
        -- apply Ext_jsonl, String.eqb_eq in Hs. rewrite Hd, Hs in Hk. done.
        -- by exists e.
Qed.

End Facts.
End ParserFacts.

(* ===================================================================== *)
(** ** filepath.Clean and filepath.Join on a directory and a name *)
(* ===================================================================== *)

Module CleanFacts.
Import Strings StringsLib Filepath FilepathClean BytesFacts StringsLibFacts
       FilepathFacts.

(** The directory part of a cleaned path: empty, or ending in a
    separator. *)
Definition dir_part (o : string) : Prop :=
  o = ""%string \/ exists p, o = p +:+ slash.

(** A proper file name: not empty, without a separator, and neither of the
    two special names. *)
Definition proper_name (name : string) : Prop :=
  name <> ""%string /\ free_of Separator name /\
  name <> "."%string /\ name <> ".."%string.

Lemma get_drop_bytes (s : string) (k : nat) (c : ascii) :
  String.get k s = Some c ->
  drop_bytes k s = String c (drop_bytes (S k) s).
Proof.
  revert k. induction s as [|d s IH]; intros [|k] H; cbn in *; try done.
  - by injection H as ->.
  - by apply IH.
Qed.

Lemma drop_bytes_all (s : string) (k : nat) :
  String.length s <= k -> drop_bytes k s = ""%string.
Proof.
  revert k. induction s as [|d s IH]; intros [|k] H; cbn in *; try done; try lia.
  apply IH. lia.
Qed.

Lemma copy_element_spec (fuel : nat) (path : string) (r : nat) (out : string) :
  exists e r',
    copy_element fuel path r out = (out +:+ e, r') /\ r <= r' /\
    (forall j, r <= j -> sep_at path j = true -> r' <= j) /\
    (0 < fuel -> r < String.length path -> sep_at path r = false -> r < r').
Proof.
  revert r out. induction fuel as [|fuel IH]; intros r out.
  - exists ""%string, r. rewrite append_nil_r. repeat split; try done; lia.
  - cbn [copy_element]. unfold sep_at at 2.
    destruct (String.get r path) as [c|] eqn:Hc.
    + destruct (Ascii.eqb c Separator) eqn:Hsep.
      * exists ""%string, r. rewrite append_nil_r. repeat split; try done; lia.
      * destruct (IH (S r) (out +:+ String c EmptyString))
          as (e & r' & Heq & Hle & Hstop & _).
        exists (String c e), r'. rewrite Heq, append_assoc.
        repeat split; try done; try lia.
        intros j Hj Hs. apply Hstop; [|done].
        destruct (decide (j = r)) as [->|]; [|lia].
        unfold sep_at in Hs. rewrite Hc, Hsep in Hs. done.
    + exists ""%string, r. rewrite append_nil_r. repeat split; try done.
      intros _ Hlt _. destruct (get_Some path r Hlt) as [c Hc']. congruence.
Qed.

Lemma copy_element_name (pre name : string) (fuel k : nat) (out : string) :
  free_of Separator name -> k <= String.length name ->
  String.length name - k <= fuel ->
  copy_element fuel (pre +:+ name) (String.length pre + k) out
  = (out +:+ drop_bytes k name, String.length pre + String.length name).
Proof.
  intros Hf. revert k out. induction fuel as [|fuel IH]; intros k out Hk Hfuel.
  - assert (k = String.length name) as -> by lia. cbn.
    by rewrite drop_bytes_all, append_nil_r.
  - cbn [copy_element]. rewrite get_append_r.
    destruct (String.get k name) as [c|] eqn:Hc.
    + destruct (Ascii.eqb_spec c Separator) as [->|_]; [by destruct (Hf k)|].
      assert (k < String.length name).
      { destruct (Nat.lt_ge_cases k (String.length name)); [done|].
        rewrite get_None in Hc by done. done. }
      rewrite <- Nat.add_succ_r, IH by lia.
      by rewrite append_assoc, (get_drop_bytes name k c).
    + assert (k = String.length name) as ->.
      { destruct (Nat.lt_ge_cases k (String.length name)) as [Hlt|]; [|lia].
        destruct (get_Some name k Hlt). congruence. }
      by rewrite drop_bytes_all, append_nil_r.
Qed.

Lemma backtrack_bounds (out : string) (dotdot w : nat) :
  dotdot <= w -> dotdot <= backtrack out dotdot w <= w.
Proof.
  induction w as [|w IH]; intros Hw; cbn [backtrack]; [lia|].
  destruct ((dotdot <? S w)%nat && negb (sep_at out (S w))) eqn:Hc; [|lia].
  apply andb_true_iff in Hc as [Hlt%Nat.ltb_lt _].
  destruct IH; lia.
Qed.

(** What [Clean] keeps of the buffer of a rooted path: its leading
    separator. *)
Definition rooted_ok (rooted : bool) (out : string) (dotdot : nat) : Prop :=
  rooted = true -> dotdot = 1 /\ exists t, out = slash +:+ t.

Lemma rooted_ok_append (rooted : bool) (out e : string) (dotdot : nat) :
  rooted_ok rooted out dotdot -> rooted_ok rooted (out +:+ e) dotdot.
Proof.
  intros H Hr. destruct (H Hr) as (-> & t & ->). split; [done|].
  exists (t +:+ e). by rewrite append_assoc.
Qed.

Lemma substring_0_cons (c : ascii) (s : string) (w : nat) :
  substring 0 (S w) (String c s) = String c (substring 0 w s).
Proof. reflexivity. Qed.

Lemma byte_is_name (pre name : string) (k : nat) (c : ascii) :
  byte_is (pre +:+ name) (String.length pre + k) c = byte_is name k c.
Proof. unfold byte_is. by rewrite get_append_r. Qed.

Lemma sep_at_name (pre name : string) (k : nat) :
  free_of Separator name ->
  sep_at (pre +:+ name) (String.length pre + k) = false.
Proof. intros Hf. rewrite sep_at_append_r. by apply sep_at_free. Qed.

Lemma not_dot (name : string) :
  name <> "."%string -> free_of Separator name ->
  byte_is name 0 "." && ((1 =? String.length name)%nat || sep_at name 1)
  = false.
Proof.
  intros Hne Hf. rewrite (sep_at_free name 1 Hf), orb_false_r.
  destruct name as [|c [|d name]]; cbn; try done.
  - unfold byte_is. cbn. destruct (Ascii.eqb_spec c "."); [congruence|done].
  - by rewrite andb_false_r.
Qed.

Lemma not_dotdot (name : string) :
  name <> ".."%string -> free_of Separator name ->
  byte_is name 0 "." && byte_is name 1 "."
  && ((2 =? String.length name)%nat || sep_at name 2) = false.
Proof.
  intros Hne Hf. rewrite (sep_at_free name 2 Hf), orb_false_r.
  destruct name as [|c [|d [|e name]]]; cbn; try done.
  - by rewrite andb_false_r.
  - unfold byte_is. cbn.
    destruct (Ascii.eqb_spec c "."), (Ascii.eqb_spec d "."); cbn; try done.
    congruence.
  - by rewrite andb_false_r.
Qed.

Lemma rooted_ok_backtrack (rooted : bool) (out : string) (dotdot : nat) :
  rooted_ok rooted out dotdot -> (dotdot < String.length out) ->
  rooted_ok rooted
    (substring 0 (backtrack out dotdot (String.length out - 1)) out) dotdot.
Proof.
  intros H Hlt Hr. destruct (H Hr) as (-> & t & ->). split; [done|].
  destruct (backtrack_bounds (slash +:+ t) 1 (String.length (slash +:+ t) - 1))
    as [Hlo _]; [lia|].
  destruct (backtrack _ _ _) as [|w]; [lia|].
  unfold slash. rewrite append_cons, append_nil_l, substring_0_cons.
  eexists. by rewrite append_cons, append_nil_l.
Qed.

Lemma clean_loop_done (fuel : nat) (path : string) (rooted : bool)
      (out : string) (r dotdot : nat) :
  String.length path <= r -> clean_loop fuel path rooted out r dotdot = out.
Proof.
  intros Hr. destruct fuel; [reflexivity|]. cbn [clean_loop].
  destruct (Nat.ltb_spec r (String.length path)); [lia|reflexivity].
Qed.

Lemma byte_is_not_sep (path : string) (r : nat) (c : ascii) :
  c <> Separator -> byte_is path r c = true -> sep_at path r = false.
Proof.
  unfold byte_is, sep_at. destruct (String.get r path) as [d|]; [|done].
  intros Hne ->%Ascii.eqb_eq. by apply Ascii.eqb_neq.
Qed.

(** The loop of [Clean] on a path that ends in a proper name, the name
    coming first or after a separator: whatever it has made of the bytes
    before, it ends with the name after a directory part. *)
Lemma clean_loop_last (pre name : string) (rooted : bool) :
  proper_name name -> dir_part pre ->
  forall fuel out r dotdot,
    r <= String.length pre -> String.length pre - r < fuel ->
    rooted_ok rooted out dotdot ->
    exists o, dir_part o /\
      clean_loop fuel (pre +:+ name) rooted out r dotdot = o +:+ name.
Proof.
  intros (Hne & Hf & Hdot & Hdotdot) Hpre.
  assert (0 < String.length name) as Hlen by (destruct name; [done|cbn; lia]).
  set (path := pre +:+ name).
  assert (String.length path = String.length pre + String.length name) as Hn
    by apply length_append.
  assert (forall r, r < String.length pre ->
                    sep_at path (String.length pre - 1) = true) as Hsep.
  { intros r Hr. destruct Hpre as [->|[p ->]]; [cbn in Hr; lia|].
    unfold path. rewrite length_append. cbn.
    replace (String.length p + 1 - 1) with (String.length p) by lia.
    rewrite append_assoc. apply sep_at_slash. }
  induction fuel as [|fuel IH]; intros out r dotdot Hr Hfuel Hok; [lia|].
  cbn [clean_loop]. fold path.
  destruct (Nat.ltb_spec r (String.length path)) as [_|]; [|lia].
  cbn [negb].
  destruct (decide (r = String.length pre)) as [->|Hlt].
  - (* the name *)
    pose proof (sep_at_name pre name 0 Hf) as Hs0.
    pose proof (sep_at_name pre name 1 Hf) as Hs1.
    pose proof (sep_at_name pre name 2 Hf) as Hs2.
    pose proof (byte_is_name pre name 0 ".") as Hb0.
    pose proof (byte_is_name pre name 1 ".") as Hb1.
    rewrite Nat.add_0_r in Hs0, Hb0. rewrite Nat.add_1_r in Hs1, Hb1.
    replace (String.length pre + 2) with (S (S (String.length pre))) in Hs2
      by lia.
    fold path in Hs0, Hs1, Hs2, Hb0, Hb1.
    rewrite Hs0, Hs1, Hs2, Hb0, Hb1, !orb_false_r.
    pose proof (not_dot name Hdot Hf) as Hd1.
    pose proof (not_dotdot name Hdotdot Hf) as Hd2.
    rewrite (sep_at_free name 1 Hf), orb_false_r in Hd1.
    rewrite (sep_at_free name 2 Hf), orb_false_r in Hd2.
    replace (S (String.length pre) =? String.length path)%nat
      with (1 =? String.length name)%nat
      by (rewrite Hn; destruct (Nat.eqb_spec 1 (String.length name)),
            (Nat.eqb_spec (S (String.length pre))
               (String.length pre + String.length name)); try done; lia).
    replace (S (S (String.length pre)) =? String.length path)%nat
      with (2 =? String.length name)%nat
      by (rewrite Hn; destruct (Nat.eqb_spec 2 (String.length name)),
            (Nat.eqb_spec (S (S (String.length pre)))
               (String.length pre + String.length name)); try done; lia).
    rewrite Hd1, Hd2.
    set (out' := if _ : bool then _ else _).
    assert (dir_part out') as Hdir.
    { subst out'. destruct rooted.
      - destruct (Hok eq_refl) as (_ & t & ->). cbn [andb negb orb].
        rewrite orb_false_r.
        destruct (Nat.eqb_spec (String.length (slash +:+ t)) 1) as [Hl|_];
          cbn [negb].
        + right. exists ""%string. destruct t; [done|].
          rewrite length_append in Hl. cbn in Hl. lia.
        + right. by eexists.
      - cbn [andb negb orb].
        destruct (Nat.eqb_spec (String.length out) 0) as [Hl|_]; cbn [negb].
        + left. by destruct out.
        + right. by eexists. }
    pose proof (copy_element_name pre name (String.length path) 0 out' Hf
                  ltac:(lia) ltac:(lia)) as Hcopy.
    rewrite Nat.add_0_r in Hcopy. fold path in Hcopy. rewrite Hcopy.
    cbn [drop_bytes]. rewrite clean_loop_done by lia.
    by exists out'.
  - (* before the name *)
    assert (r < String.length pre) as Hr' by lia.
    specialize (Hsep r Hr').
    destruct (sep_at path r) eqn:Hs.
    { apply IH; [lia|lia|done]. }
    destruct (byte_is path r "."
              && ((S r =? String.length path)%nat || sep_at path (S r))).
    { apply IH; [lia|lia|done]. }
    destruct (byte_is path r "." && byte_is path (S r) "."
              && ((S (S r) =? String.length path)%nat
                  || sep_at path (S (S r)))) eqn:Hdd.
    { apply andb_true_iff in Hdd as [[H1 H2]%andb_true_iff _].
      apply byte_is_not_sep in H1; [|done].
      apply byte_is_not_sep in H2; [|done].
      assert (S (S r) <= String.length pre) as Hle.
      { destruct (decide (S r = String.length pre)) as [He|]; [|lia].
        rewrite <- He in Hsep. cbn in Hsep. rewrite Nat.sub_0_r in Hsep.
        congruence. }
      destruct (Nat.ltb_spec dotdot (String.length out)).
      - apply IH; [done|lia|]. by apply rooted_ok_backtrack.
      - destruct rooted; cbn [negb].
        + apply IH; [done|lia|done].
        + apply IH; [done|lia|]. by intros ?. }
    set (out' := if _ : bool then _ else _).
    destruct (copy_element_spec (String.length path) path r out')
      as (e & r' & -> & Hge & Hstop & Hmove).
    specialize (Hstop (String.length pre - 1)).
    assert (r < r') by (apply Hmove; [lia|lia|done]).
    assert (r' <= String.length pre - 1).
    { apply Hstop; [|done].
      destruct (decide (r = String.length pre - 1)) as [He|]; [|lia].
      rewrite <- He in Hsep. congruence. }
    apply IH; [lia|lia|].
    apply rooted_ok_append. subst out'.
    destruct (rooted && negb (String.length out =? 1)%nat
              || negb rooted && negb (String.length out =? 0)%nat);
      [by apply rooted_ok_append|done].
Qed.

Lemma Clean_last (pre name : string) :
  proper_name name -> dir_part pre ->
  exists o, dir_part o /\ Clean (pre +:+ name) = o +:+ name.
Proof.
  intros Hname Hpre.
  assert (0 < String.length name) as Hlen.
  { destruct Hname as [Hne _]. destruct name; [done|cbn; lia]. }
  unfold Clean.
  destruct (String.eqb_spec (pre +:+ name) "") as [He|_].
  { apply (f_equal String.length) in He. rewrite length_append in He.
    cbn in He. lia. }
  assert (forall o, dir_part o ->
            exists o', dir_part o' /\
              (if (String.length (o +:+ name) =? 0)%nat then "."%string
               else o +:+ name) = o' +:+ name) as Hfin.
  { intros o Hdir. exists o. split; [done|].
    destruct (Nat.eqb_spec (String.length (o +:+ name)) 0) as [He|]; [|done].
    rewrite length_append in He. lia. }
  destruct (sep_at (pre +:+ name) 0) eqn:Hrooted.
  - destruct (clean_loop_last pre name true Hname Hpre
                (String.length (pre +:+ name)) slash 1 1)
      as (o & Hdir & Heq).
    + destruct pre as [|c pre]; [|cbn; lia].
      rewrite append_nil_l in Hrooted.
      destruct Hname as (_ & Hf & _). by rewrite sep_at_free in Hrooted.
    + rewrite length_append. lia.
    + intros _. split; [done|]. by exists ""%string.
    + unfold slash in Heq. rewrite Heq. by apply Hfin.
  - destruct (clean_loop_last pre name false Hname Hpre
                (String.length (pre +:+ name)) "" 0 0)
      as (o & Hdir & Heq).
    + lia.
    + rewrite length_append. lia.
    + by intros ?.
    + rewrite Heq. by apply Hfin.
Qed.

(** The base of a cleaned path that ends in a proper name is the name. *)
Lemma Base_Clean (pre name : string) :
  proper_name name -> dir_part pre ->
  Base (Clean (pre +:+ name)) = name.
Proof.
  intros Hname Hpre.
  destruct (Clean_last pre name Hname Hpre) as (o & [->|[p ->]] & ->).
  - rewrite append_nil_l. destruct Hname as (? & ? & _). by apply Base_name.
  - rewrite append_assoc. destruct Hname as (? & ? & _). by apply Base_under.
Qed.

Lemma Base_Join (dir name : string) :
  proper_name name -> Base (Join dir name) = name.
Proof.
  intros Hname. unfold Join, StringsLib.Join. cbn [String.concat].
  destruct (String.eqb_spec dir "") as [->|_]; cbn [negb].
  - destruct (String.eqb_spec name "") as [->|_]; cbn [negb].
    + by destruct Hname.
    + apply (Base_Clean "" name Hname). by left.
  - rewrite <- append_assoc.
    apply (Base_Clean (dir +:+ slash) name Hname). right. by exists dir.
Qed.

End CleanFacts.

(* ===================================================================== *)
(** ** The scanner and its buffer *)
(* ===================================================================== *)

Module ScannerFacts.
Import BytesFacts.

Lemma length_split_lines (s cur : string) :
  length (bufio.split_lines s cur)
  <= String.length s + (if String.eqb cur "" then 0 else 1).
Proof.
  revert cur. induction s as [|c s IH]; intros cur; cbn [bufio.split_lines].
  - destruct cur; cbn; lia.
  - destruct (Ascii.eqb c "010").
    + cbn [length String.length]. specialize (IH ""%string). cbn in IH. lia.
    + specialize (IH (cur +:+ String c EmptyString)).
      destruct (String.eqb _ _); cbn [String.length]; lia.
Qed.

Lemma length_deliver (max : Z) (lines : list string) :
  length (bufioMax.deliver max lines) <= length lines.
Proof.
  induction lines as [|l rest IH]; cbn [bufioMax.deliver]; [done|].
  destruct (_ <? _)%Z; cbn [length]; lia.
Qed.

(** The scanner delivers at most one line per byte of input. *)
Lemma length_ScanLines (max : Z) (input : string) :
  length (bufioMax.ScanLines max input) <= String.length input.
Proof.
  unfold bufioMax.ScanLines.
  pose proof (length_deliver max (bufio.split_lines input "")).
  pose proof (length_split_lines input ""). cbn in *. lia.
Qed.

(** The default scanner is the scanner with a buffer of [MaxScanTokenSize]
    bytes. *)
Lemma ScanLines_default (input : string) :
  bufio.ScanLines input = bufioMax.ScanLines bufio.MaxScanTokenSize input.
Proof.
  unfold bufio.ScanLines, bufioMax.ScanLines.
  induction (bufio.split_lines input "") as [|l rest IH]; [done|].
  cbn [bufio.deliver bufioMax.deliver]. by rewrite IH.
Qed.

End ScannerFacts.

(* ===================================================================== *)
(** ** ParseFullSession *)
(* ===================================================================== *)

Module ParseFacts.
Import Search GoInt Strings StringsLib BytesFacts StringsLibFacts Parser.
Local Open Scope Z_scope.

(** A user message as the summary shows it. *)
Definition shortened (msg : string) : string :=
  if len msg >? 150 then substring 0 147 msg +:+ "..." else msg.

Lemma summary_part_shortened (msg : string) :
  summary_part msg = Some (shortened msg).
Proof.
  unfold summary_part, shortened. destruct (Z.gtb_spec (len msg) 150); [|done].
  rewrite StringFacts.slice_Some by lia. reflexivity.
Qed.

Lemma len_shortened (msg : string) : len (shortened msg) <= 150.
Proof.
  unfold shortened. destruct (Z.gtb_spec (len msg) 150); [|lia].
  rewrite len_append. unfold len in *.
  rewrite StringFacts.length_substring by lia. cbn. lia.
Qed.

Lemma at_index_lookup {A} (xs : list A) (i : Z) :
  0 <= i -> at_index xs i = xs !! Z.to_nat i.
Proof. intros H. unfold at_index. by destruct (Z.leb_spec 0 i); [|lia]. Qed.

Lemma summary_parts_spec (fuel : nat) (msgs : list string) (i : Z)
      (acc : list string) :
  0 <= i -> slice_len msgs <= max_int ->
  slice_len msgs - i <= Z.of_nat fuel ->
  summary_parts fuel msgs i acc
  = Some (acc ++ (shortened <$> drop (Z.to_nat i) msgs)).
Proof.
  unfold slice_len. revert i acc.
  induction fuel as [|fuel IH]; intros i acc Hi Hmax Hfuel.
  - cbn. rewrite drop_ge by lia. by rewrite app_nil_r.
  - cbn [summary_parts]. unfold slice_len.
    destruct (Z.ltb_spec i (Z.of_nat (length msgs))) as [Hlt|Hge].
    + rewrite at_index_lookup by done.
      destruct (lookup_lt_is_Some_2 msgs (Z.to_nat i) ltac:(lia)) as [m Hm].
      rewrite Hm. cbn [mbind option_bind]. rewrite summary_part_shortened.
      cbn [mbind option_bind].
      rewrite GoIntFacts.add_exact
        by (unfold in_range, min_int, max_int in *; lia).
      rewrite IH by lia.
      rewrite (drop_S msgs m (Z.to_nat i) Hm), <- app_assoc.
      replace (Z.to_nat (i + 1)) with (S (Z.to_nat i)) by lia. reflexivity.
    + rewrite drop_ge by lia. by rewrite app_nil_r.
Qed.

(** The last three items of a list (all of them when there are fewer). *)
Definition last_three {A} (l : list A) : list A := drop (length l - 3) l.

Lemma summary_of_spec (msgs : list string) :
  slice_len msgs <= max_int ->
  summary_of msgs = Some (Join (shortened <$> last_three msgs) " | ").
Proof.
  intros Hmax. unfold summary_of, slice_len in *.
  destruct (Z.gtb_spec (Z.of_nat (length msgs)) 0) as [Hpos|Hz].
  - rewrite GoIntFacts.sub_exact
      by (unfold in_range, min_int, max_int in *; lia).
    set (start := if _ <? 0 then 0 else _).
    assert (0 <= start /\ Z.to_nat start = (length msgs - 3)%nat) as [H0 Hs].
    { subst start. destruct (Z.ltb_spec (Z.of_nat (length msgs) - 3) 0); lia. }
    rewrite summary_parts_spec by (unfold slice_len; lia).
    cbn. unfold last_three. by rewrite Hs.
  - destruct msgs; [reflexivity|cbn in Hz; lia].
Qed.

Lemma len_Join_le (parts : list string) (sep : string) (bound : Z) :
  Forall (fun p => len p <= bound) parts -> 0 <= bound ->
  len (Join parts sep)
  <= Z.of_nat (length parts) * bound
     + (Z.of_nat (length parts) - 1) * len sep
     \/ parts = [].
Proof.
  intros Hall Hb. induction Hall as [|p rest Hp Hrest IH]; [by right|].
  left. unfold Join in *. destruct rest as [|q rest].
  - cbn [String.concat length]. lia.
  - change (String.concat sep (p :: q :: rest))
      with (p +:+ sep +:+ String.concat sep (q :: rest)).
    rewrite !len_append.
    destruct IH as [IH|]; [|done].
    assert (0 <= len sep) by (unfold len; lia).
    change (length (p :: q :: rest)) with (S (length (q :: rest))).
    rewrite Nat2Z.inj_succ. nia.
Qed.

Lemma length_last_three {A} (l : list A) : (length (last_three l) <= 3)%nat.
Proof. unfold last_three. rewrite length_drop. lia. Qed.

(** The summary is never longer than three shortened messages and two
    separators. *)
Lemma len_summary (msgs : list string) :
  len (Join (shortened <$> last_three msgs) " | ") <= 456.
Proof.
  destruct (len_Join_le (shortened <$> last_three msgs) " | " 150) as [H|H].
  - apply Forall_fmap, Forall_forall. intros m _. apply len_shortened.
  - lia.
  - rewrite length_fmap in H. pose proof (length_last_three msgs).
    change (len " | ") with 3 in H. lia.
  - rewrite H. by vm_compute.
Qed.

Lemma last_raw_spec (lines : list string) :
  slice_len lines <= max_int ->
  last_raw lines = Some (option_list (last lines)).
Proof.
  intros Hmax. unfold last_raw, slice_len in *.
  destruct (Z.gtb_spec (Z.of_nat (length lines)) 0) as [Hpos|Hz].
  - rewrite GoIntFacts.sub_exact
      by (unfold in_range, min_int, max_int in *; lia).
    rewrite at_index_lookup by lia.
    rewrite last_lookup.
    replace (Z.to_nat (Z.of_nat (length lines) - 1))
      with (Nat.pred (length lines)) by lia.
    destruct (lookup_lt_is_Some_2 lines (Nat.pred (length lines)) ltac:(lia))
      as [l ->]. reflexivity.
  - destruct lines; [reflexivity|cbn in Hz; lia].
Qed.

Section Facts.
Context {Time : Type}.
Variable os_Open : string -> string + error.
Variable json_Unmarshal : string -> option (gmap string iface).
Variable strings_TrimSpace : string -> string.
Variable time_Parse : string -> string -> option Time.
Variable time_zero : Time.

Local Abbreviation scan_line :=
  (Parser.scan_line json_Unmarshal strings_TrimSpace time_Parse).
Local Abbreviation scan_state := (@Parser.scan_state Time).

(** What a line decodes to; an empty line is not looked at. *)
Definition decoded (line : string) : option (gmap string iface) :=
  if String.eqb line "" then None else json_Unmarshal line.

(** The line is a record of type user or assistant. *)
Definition is_message (line : string) : bool :=
  match decoded line with
  | Some data =>
      match as_string (data !! "type"%string) with
      | Some msgType => String.eqb msgType "user" || String.eqb msgType "assistant"
      | None => false
      end
  | None => false
  end.

(** The text of a user message that goes into the summary: the trimmed
    content of a record of type user whose message has a string content
    without the words system-reminder. *)
Definition user_text (line : string) : option string :=
  data ← decoded line;
  msgType ← as_string (data !! "type"%string);
  if String.eqb msgType "user" then
    msg ← as_object (data !! "message"%string);
    content ← as_string (msg !! "content"%string);
    let content := strings_TrimSpace content in
    if Contains content "system-reminder" then None else Some content
  else None.

(** The time stamp of a record, when it has one that parses. *)
Definition stamp (line : string) : option Time :=
  data ← decoded line;
  ts ← as_string (data !! "timestamp"%string);
  time_Parse RFC3339 ts.

(** The cost a record reports. *)
Definition cost (line : string) : option float :=
  data ← decoded line; as_float64 (data !! "costUSD"%string).

Definition nonempty (line : string) : bool := negb (String.eqb line "").

Definition messages (lines : list string) : nat :=
  length (filter (fun line => is_message line = true) lines).

Lemma scan_line_fields (st : scan_state) (line : string) :
  allLines (scan_line st line)
    = allLines st ++ (if nonempty line then [line] else []) /\
  lastUserMessages (scan_line st line)
    = lastUserMessages st ++ option_list (user_text line) /\
  messageCount (scan_line st line)
    = (if is_message line then GoInt.add (messageCount st) 1
       else messageCount st) /\
  lastActive (scan_line st line) = default (lastActive st) (stamp line) /\
  totalCost (scan_line st line)
    = fold_left PrimFloat.add (option_list (cost line)) (totalCost st).
Proof.
  unfold Parser.scan_line, nonempty, user_text, is_message, stamp, cost,
    decoded.
  destruct (String.eqb line ""); cbn [negb].
  { by rewrite !app_nil_r. }
  destruct (json_Unmarshal line) as [data|]; cbn [mbind option_bind].
  2:{ cbn. by rewrite app_nil_r. }
  assert (forall (a : list string) (u : list string) (m : Z),
            lastActive
              {| allLines := a; lastUserMessages := u; messageCount := m;
                 totalCost :=
                   match as_float64 (data !! "costUSD"%string) with
                   | Some cost => PrimFloat.add (totalCost st) cost
                   | None => totalCost st
                   end;
                 lastActive :=
                   match as_string (data !! "timestamp"%string) with
                   | Some ts =>
                       match time_Parse RFC3339 ts with
                       | Some t => t
                       | None => lastActive st
                       end
                   | None => lastActive st
                   end |}
            = default (lastActive st)
                (as_string (data !! "timestamp"%string)
                   ≫= time_Parse RFC3339) /\
            totalCost
              {| allLines := a; lastUserMessages := u; messageCount := m;
                 totalCost :=
                   match as_float64 (data !! "costUSD"%string) with
                   | Some cost => PrimFloat.add (totalCost st) cost
                   | None => totalCost st
                   end;
                 lastActive :=
                   match as_string (data !! "timestamp"%string) with
                   | Some ts =>
                       match time_Parse RFC3339 ts with
                       | Some t => t
                       | None => lastActive st
                       end
                   | None => lastActive st
                   end |}
            = fold_left PrimFloat.add
                (option_list (as_float64 (data !! "costUSD"%string)))
                (totalCost st)) as Hrest.
  { intros a u m. cbn [lastActive totalCost]. split.
    - destruct (as_string (data !! "timestamp"%string)) as [ts|]; [|done].
      cbn. by destruct (time_Parse RFC3339 ts).
    - by destruct (as_float64 _). }
  destruct (as_string (data !! "type"%string)) as [msgType|];
    cbn [mbind option_bind].
  2:{ split; [done|]. split; [by rewrite app_nil_r|]. split; [done|].
      apply Hrest. }
  split; [done|]. split; [|split; [done|apply Hrest]].
  cbn [lastUserMessages].
  destruct (String.eqb msgType "user"); [|by rewrite app_nil_r].
  destruct (as_object _) as [msg|]; cbn [mbind option_bind];
    [|by rewrite app_nil_r].
  destruct (as_string (msg !! _)) as [content|]; cbn [mbind option_bind];
    [|by rewrite app_nil_r].
  destruct (Contains _ _); cbn [negb option_list]; [by rewrite app_nil_r|done].
Qed.

Lemma last_cons_default {A} (x : A) (l : list A) :
  last (x :: l) = Some (default x (last l)).
Proof.
  revert x. induction l as [|y l IH]; intros x; [done|].
  rewrite last_cons_cons, IH. reflexivity.
Qed.

Lemma default_last_cons {A} (d x : A) (l : list A) :
  default d (last (x :: l)) = default x (last l).
Proof. by rewrite last_cons_default. Qed.

Lemma scan_lines_fields (lines : list string) (st : scan_state) :
  0 <= messageCount st ->
  messageCount st + Z.of_nat (length lines) <= max_int ->
  let st' := fold_left scan_line lines st in
  allLines st' = allLines st ++ filter (fun line => nonempty line = true) lines /\
  lastUserMessages st' = lastUserMessages st ++ omap user_text lines /\
  messageCount st' = messageCount st + Z.of_nat (messages lines) /\
  lastActive st' = default (lastActive st) (last (omap stamp lines)) /\
  totalCost st' = fold_left PrimFloat.add (omap cost lines) (totalCost st).
Proof.
  revert st. induction lines as [|line rest IH]; intros st H0 Hmax.
  - cbn. rewrite !app_nil_r. unfold messages. cbn. repeat split; lia.
  - cbn [fold_left]. cbn [length] in Hmax.
    destruct (scan_line_fields st line) as (Ha & Hu & Hc & Ht & Hf).
    assert (messageCount (scan_line st line)
            = messageCount st + (if is_message line then 1 else 0)) as Hc'.
    { rewrite Hc. destruct (is_message line); [|lia].
      apply GoIntFacts.add_exact.
      unfold in_range, min_int, max_int in *. lia. }
    destruct (IH (scan_line st line)) as (Ha' & Hu' & Hc'' & Ht' & Hf').
    { rewrite Hc'. destruct (is_message line); lia. }
    { rewrite Hc'. destruct (is_message line); lia. }
    cbn zeta. rewrite Ha', Hu', Hc'', Ht', Hf', Ha, Hu, Hc', Ht, Hf.
    rewrite <- !app_assoc. unfold messages.
    rewrite filter_cons, (filter_cons (fun line => is_message line = true)).
    rewrite !ParserFacts.omap_cons_match.
    split; [|split; [|split; [|split]]].
    + f_equal. destruct (nonempty line); by destruct (decide _).
    + f_equal. by destruct (user_text line).
    + destruct (is_message line); destruct (decide _); try done;
        cbn [length]; lia.
    + destruct (stamp line) as [t|]; [|done]. cbn [default].
      by rewrite default_last_cons.
    + by destruct (cost line).
Qed.

(** What [ParseFullSession] returns for a file it can open. *)
Lemma ParseFullSession_lines (filePath file : string) :
  os_Open filePath = inl file -> len file <= max_int ->
  let lines := bufioMax.ScanLines (1024 * 1024) file in
  Parser.ParseFullSession os_Open json_Unmarshal strings_TrimSpace time_Parse
    time_zero filePath
  = Some (inl {| Model.ID := Model.GetSessionID filePath;
                 Model.FilePath := filePath;
                 Model.Summary :=
                   Join (shortened <$> last_three (omap user_text lines)) " | ";
                 Model.LastActive :=
                   default time_zero (last (omap stamp lines));
                 Model.MessageCount := Z.of_nat (messages lines);
                 Model.TotalCostUSD :=
                   fold_left PrimFloat.add (omap cost lines) 0%float;
                 Model.LastRawMessages :=
                   option_list
                     (last (filter (fun line => nonempty line = true) lines))
              |}).
Proof.
  intros Hopen Hfile lines. unfold Parser.ParseFullSession. rewrite Hopen.
  fold lines.
  assert (Z.of_nat (length lines) <= max_int) as Hlines.
  { pose proof (ScannerFacts.length_ScanLines (1024 * 1024) file).
    fold lines in H. unfold len in Hfile. lia. }
  destruct (scan_lines_fields lines
              {| allLines := []; lastUserMessages := []; messageCount := 0;
                 totalCost := 0%float; lastActive := time_zero |})
    as (Ha & Hu & Hc & Ht & Hf); [done|cbn; lia|].
  cbn zeta in *. cbn [allLines lastUserMessages messageCount totalCost
                      lastActive app] in *.
  rewrite Ha, Hu, Hc, Ht, Hf.
  rewrite summary_of_spec.
  2:{ unfold slice_len.
      pose proof (ListFacts.length_omap_le user_text lines). lia. }
  rewrite last_raw_spec.
  2:{ unfold slice_len.
      pose proof (length_filter (fun line => nonempty line = true) lines).
      lia. }
  cbn. repeat f_equal.
Qed.

End Facts.
End ParseFacts.

(* ===================================================================== *)
(** ** A line that does not fit the buffer *)
(* ===================================================================== *)

Module ScannerCut.
Import Strings BytesFacts StringsLibFacts.

Definition LF : ascii := "010"%char.
Definition newline : string := String LF EmptyString.

(** The input up to and with a line feed gives whole lines: what follows
    is scanned on its own. *)
Lemma split_lines_after_newline (a b cur : string) :
  bufio.split_lines (a +:+ newline +:+ b) cur
  = bufio.split_lines (a +:+ newline) cur ++ bufio.split_lines b "".
Proof.
  revert cur. induction a as [|c a IH]; intros cur.
  - unfold newline. rewrite !append_nil_l, !append_cons, !append_nil_l.
    cbn [bufio.split_lines]. change (Ascii.eqb "010" "010") with true.
    cbn. reflexivity.
  - rewrite !append_cons. cbn [bufio.split_lines].
    destruct (Ascii.eqb c "010"); by rewrite IH.
Qed.

(** The bytes before the first line feed are one line. *)
Lemma split_lines_first (long rest cur : string) :
  free_of LF long ->
  bufio.split_lines (long +:+ newline +:+ rest) cur
  = (cur +:+ long) :: bufio.split_lines rest "".
Proof.
  revert cur. induction long as [|c long IH]; intros cur Hf.
  - unfold newline. rewrite !append_nil_l, append_cons, append_nil_l.
    cbn [bufio.split_lines]. change (Ascii.eqb "010" "010") with true.
    cbn iota. by rewrite append_nil_r.
  - rewrite !append_cons. cbn [bufio.split_lines].
    destruct (Ascii.eqb_spec c "010") as [->|_]; [by destruct (Hf 0%nat)|].
    rewrite IH by (intros i; apply (Hf (S i))).
    by rewrite append_assoc, append_cons, append_nil_l.
Qed.

Lemma split_lines_only (long cur : string) :
  free_of LF long -> long <> ""%string ->
  bufio.split_lines long cur = [cur +:+ long].
Proof.
  revert cur. induction long as [|c long IH]; intros cur Hf Hne; [done|].
  cbn [bufio.split_lines].
  destruct (Ascii.eqb_spec c "010") as [->|_]; [by destruct (Hf 0%nat)|].
  destruct long as [|d long].
  - cbn [bufio.split_lines].
    destruct (cur +:+ String c "") eqn:E; [|done].
    destruct cur; rewrite ?append_cons, ?append_nil_l in E; discriminate.
  - rewrite IH; [|intros i; apply (Hf (S i))|done].
    by rewrite append_assoc, append_cons, append_nil_l.
Qed.

(** Nothing is delivered from a line of [max] bytes or more on. *)
Lemma deliver_cut (max : Z) (before after : list string) (long : string) :
  (max <= len long)%Z ->
  bufioMax.deliver max (before ++ long :: after) = bufioMax.deliver max before.
Proof.
  intros Hlong. induction before as [|l before IH].
  - cbn. by destruct (Z.ltb_spec (len long) max); [lia|].
  - cbn [app bufioMax.deliver]. destruct (_ <? _)%Z; [by rewrite IH|done].
Qed.

(** The input: whole lines [before], then a line [long] of [max] bytes or
    more, then whatever follows that line. *)
Inductive overlong_input (max : Z) (before long : string) : string -> Prop :=
| overlong_last :
    overlong_input max before long (before +:+ long)
| overlong_inner rest :
    overlong_input max before long (before +:+ long +:+ newline +:+ rest).

Lemma ScanLines_cut (max : Z) (before long input : string) :
  (before = ""%string \/ exists a, before = a +:+ newline) ->
  free_of LF long -> (max <= len long)%Z -> (0 < max)%Z ->
  overlong_input max before long input ->
  bufioMax.ScanLines max input = bufioMax.ScanLines max before.
Proof.
  intros Hbefore Hf Hlong Hmax Hin. unfold bufioMax.ScanLines.
  assert (long <> ""%string) as Hne.
  { intros ->. unfold len in Hlong. cbn in Hlong. lia. }
  assert (exists after,
            bufio.split_lines input "" 
            = bufio.split_lines before "" ++ long :: after) as [after ->].
  { destruct Hin as [|rest].
    - exists []. destruct Hbefore as [->|[a ->]].
      + rewrite append_nil_l. by rewrite split_lines_only.
      + rewrite append_assoc, split_lines_after_newline.
        by rewrite (split_lines_only long "").
    - exists (bufio.split_lines rest ""). destruct Hbefore as [->|[a ->]].
      + rewrite append_nil_l. by rewrite split_lines_first.
      + rewrite append_assoc, split_lines_after_newline.
        by rewrite split_lines_first. }
  by apply deliver_cut.
Qed.

End ScannerCut.

(* ===================================================================== *)
(** ** SearchContent: what an outcome tells *)
(* ===================================================================== *)

Module OutcomeFacts.
Import Search ContentFacts.

Section Facts.
Context {Time : Type}.
Variable exec_Output : string -> list string -> string * option error.
Variable json_Unmarshal : string -> option (gmap string iface).
Variable c : contentEngine.
Variable q : string.
Variable sessions : list (SessionInfo Time).
Variable ctx : context.

Local Abbreviation searchFile := (Search.searchFile exec_Output json_Unmarshal c).
Local Abbreviation step := (Search.step exec_Output json_Unmarshal c q sessions).
Local Abbreviation state := (@Search.state Time).
Local Abbreviation Inv := (ContentFacts.Inv exec_Output json_Unmarshal c q sessions).
Local Abbreviation expected :=
  (ContentFacts.expected exec_Output json_Unmarshal c q sessions).

(** The context of a run is the caller's context, or what it became when
    it expired. *)
Definition ctx_of_run (now : context) : Prop :=
  now = ctx \/ exists e, ctx = Pending e /\ now = Done e.

(** What an outcome tells: an error is the error of the done context, with
    no result and at least one session to queue; a panic is a panic of
    [searchFile] on the file of a session. *)
Definition outcome_ok (now : context) (o : outcome) : Prop :=
  match o with
  | Returns rs (Some e) => rs = [] /\ sessions <> [] /\ now = Done e
  | Returns rs None => True
  | Panics =>
      exists i session,
        sessions !! i = Some session /\
        searchFile q (FilePath session) = None
  end.

Record Run (st : state) : Prop := {
  run_inv : Inv st;
  run_ctx : ctx_of_run (st_ctx st);
  run_outcome : forall o, outcome_of st = Some o -> outcome_ok (st_ctx st) o
}.

Lemma held_in_jobs (st : state) (w : nat) (job : searchJob) :
  Inv st ->
  (st_workers st !! w = Some (AtSelect job)
   \/ st_workers st !! w = Some (Searching job)) ->
  exists i session, sessions !! i = Some session /\
                    job = job_at q i session.
Proof.
  intros [Hjobs _ _ _] Hw.
  apply (elem_of_all_jobs q sessions).
  eapply elem_of_submseteq; [|exact Hjobs].
  unfold pending_jobs, held. apply elem_of_app. left.
  apply list_elem_of_omap.
  destruct Hw as [Hw|Hw]; eexists; (split; [by eapply list_elem_of_lookup_2|]);
    reflexivity.
Qed.

Ltac same_caller :=
  unfold outcome_of in *;
  cbn [st_caller set_caller set_ctx set_jobs close_jobs set_worker
       set_results close_results] in *;
  congruence.

Lemma step_run (a : action) (st st' : state) :
  Run st -> outcome_of st = None -> step a st = Some st' -> Run st'.
Proof.
  intros [HI Hctx Hout] Hnone Hstep.
  destruct (step_inv exec_Output json_Unmarshal c q sessions a st st'
              HI Hnone Hstep) as [HI' _].
  split; [exact HI'| |].
  - (* the context *)
    destruct a as [pick_done|w| |]; cbn in Hstep.
    + unfold Search.caller_step in Hstep.
      repeat (case_match; try discriminate);
        injection Hstep as <-; exact Hctx.
    + unfold Search.worker_step in Hstep.
      repeat (case_match; try discriminate);
        injection Hstep as <-; exact Hctx.
    + unfold Search.closer_step in Hstep.
      repeat (case_match; try discriminate);
        injection Hstep as <-; exact Hctx.
    + unfold Search.expire_step in Hstep.
      destruct (st_ctx st) as [|e|e] eqn:Hc; try discriminate.
      injection Hstep as <-. cbn. destruct Hctx as [<-|(e' & _ & [=])].
      right. by exists e.
  - (* the outcome *)
    intros o Ho.
    destruct a as [pick_done|w| |]; cbn in Hstep.
    + unfold Search.caller_step in Hstep.
      destruct (st_caller st) as [i|acc|o'] eqn:Hcaller; [| |discriminate].
      * destruct (sessions !! i) as [session|] eqn:Hs.
        -- destruct pick_done.
           ++ destruct (ctx_done (st_ctx st)) as [e|] eqn:He; [|discriminate].
              injection Hstep as <-. cbn in Ho. injection Ho as <-. cbn.
              split; [done|]. split.
              ** intros Hnil. by rewrite Hnil in Hs.
              ** destruct (st_ctx st); try discriminate. by injection He as ->.
           ++ destruct (_ <? _)%nat; [|discriminate].
              injection Hstep as <-. discriminate.
        -- destruct pick_done; [discriminate|].
           injection Hstep as <-. discriminate.
      * destruct pick_done; [discriminate|].
        destruct (st_results st).
        -- destruct (st_results_closed st); [|discriminate].
           injection Hstep as <-. cbn in Ho. by injection Ho as <-.
        -- injection Hstep as <-. discriminate.
    + unfold Search.worker_step in Hstep.
      destruct (st_workers st !! w) as [[|job|job|]|] eqn:Hw; try discriminate.
      * destruct (st_jobs st); [destruct (st_jobs_closed st)|];
          try discriminate; injection Hstep as <-;
          same_caller.
      * destruct (ctx_done (st_ctx st)); injection Hstep as <-;
          same_caller.
      * destruct (held_in_jobs st w job HI (or_intror Hw))
          as (i & sess & Hs & ->). cbn [query session job_at] in Hstep.
        destruct (searchFile q (FilePath sess))
          as [[matches [e|]]|] eqn:Hsf.
        -- injection Hstep as <-.
           same_caller.
        -- destruct (slice_len matches >? 0)%Z.
           ++ destruct (_ <? _)%nat; [|discriminate].
              injection Hstep as <-.
              same_caller.
           ++ injection Hstep as <-.
              same_caller.
        -- injection Hstep as <-. cbn in Ho. injection Ho as <-.
           cbn. by exists i, sess.
    + unfold Search.closer_step in Hstep.
      destruct (st_caller st) eqn:Hcaller; try discriminate.
      destruct (_ && _); [|discriminate]. injection Hstep as <-.
      same_caller.
    + unfold Search.expire_step in Hstep.
      destruct (st_ctx st); try discriminate. injection Hstep as <-.
      same_caller.
Qed.

Lemma Run_initial : Run (initial c ctx).
Proof.
  split.
  - apply Inv_initial.
  - by left.
  - intros o Ho. discriminate.
Qed.

(** Whatever the scheduling, the call ends; the outcome is one
    [outcome_ok] accepts, under the context or what it became; and a list
    it returns is made of expected results. *)
Lemma SearchContent_outcomes :
  Search.SearchContent_always exec_Output json_Unmarshal c q sessions ctx
    (fun o =>
       (exists now, ctx_of_run now /\ outcome_ok now o) /\
       forall rs err, o = Returns rs err -> rs ⊆+ expected).
Proof.
  apply (ends_with_invariant exec_Output json_Unmarshal c q sessions Run).
  - by intros st [].
  - intros a st st'. apply step_run.
  - intros st o [HI Hctx Hout] Ho. split.
    + exists (st_ctx st). split; [exact Hctx|by apply Hout].
    + intros rs err ->. by eapply returned_submseteq.
  - apply Run_initial.
Qed.

End Facts.
End OutcomeFacts.

(* ===================================================================== *)
(** ** The windows of extractContext *)
(* ===================================================================== *)

Module WindowFacts.
Import GoInt Strings StringFacts Extract ExtractFacts BytesFacts.
Local Open Scope Z_scope.

(** [substr] occurring anywhere in [s] is found by [Contains]. *)
Lemma occurs_index_nat (s substr : string) (i : nat) :
  String.prefix substr (drop_bytes i s) = true ->
  is_Some (index_nat s substr).
Proof.
  revert s. induction i as [|i IH]; intros s Hp; cbn [drop_bytes] in Hp.
  - destruct s; cbn [index_nat]; rewrite Hp; eauto.
  - destruct s as [|c s]; cbn [index_nat].
    + rewrite Hp. eauto.
    + destruct (String.prefix substr (String c s)); [eauto|].
      destruct (IH s Hp) as [k ->]. cbn. eauto.
Qed.

Lemma occurs_Contains (s substr : string) (i : nat) :
  String.prefix substr (drop_bytes i s) = true -> Contains s substr = true.
Proof.
  intros H. unfold Contains, Index.
  destruct (occurs_index_nat s substr i H) as [k ->].
  apply Z.geb_le. lia.
Qed.

Lemma drop_bytes_append (p s : string) (k : nat) :
  drop_bytes (String.length p + k) (p +:+ s) = drop_bytes k s.
Proof. induction p as [|c p IH]; [reflexivity|]. rewrite append_cons. exact IH. Qed.

Lemma substring_0_append (s t : string) (m : nat) :
  (m <= String.length s)%nat ->
  String.prefix (substring 0 m s) (s +:+ t) = true.
Proof.
  revert m. induction s as [|c s IH]; intros m Hm; cbn in Hm.
  - assert (m = 0%nat) as -> by lia. cbn. by destruct (_ +:+ _).
  - destruct m as [|m]; [cbn; by destruct (_ +:+ _)|].
    rewrite append_cons. cbn [substring String.prefix].
    destruct (Ascii.ascii_dec c c); [|done]. apply IH. lia.
Qed.

Lemma drop_bytes_substring (s : string) (a n k : nat) :
  (k <= n)%nat ->
  drop_bytes k (substring a n s) = substring (a + k) (n - k) s.
Proof.
  revert a n k. induction s as [|c s IH]; intros a n k Hk.
  - destruct a, n, k; cbn; try reflexivity; try lia.
    all: destruct (n - k)%nat; reflexivity.
  - destruct a as [|a].
    + destruct k as [|k]; [by rewrite Nat.sub_0_r|].
      destruct n as [|n]; [lia|]. cbn [substring drop_bytes plus].
      rewrite (IH 0%nat n k) by lia. reflexivity.
    + cbn [substring plus]. apply IH. lia.
Qed.

Lemma substring_substring (s : string) (a m b n : nat) :
  (b + n <= m)%nat ->
  substring b n (substring a m s) = substring (a + b) n s.
Proof.
  revert a m b n. induction s as [|c s IH]; intros a m b n Hle.
  - destruct a, m, b, n; cbn; try reflexivity; lia.
  - destruct a as [|a].
    + destruct m as [|m].
      * assert (b = 0 /\ n = 0)%nat as [-> ->] by lia. reflexivity.
      * cbn [substring plus]. destruct b as [|b].
        -- destruct n as [|n]; [reflexivity|]. cbn [substring].
           f_equal. apply (IH 0%nat m 0%nat n). lia.
        -- apply (IH 0%nat m b n). lia.
    + cbn [substring plus]. apply IH. lia.
Qed.

(** A piece of [field] inside the window occurs in the window's text. *)
Lemma window_shows (radius : Z) (field : string) (s e : Z) :
  0 <= radius -> 0 <= s <= e -> e <= len field ->
  Contains (window radius field s e)
    (substring (Z.to_nat s) (Z.to_nat (e - s)) field) = true.
Proof.
  intros Hr Hse He. unfold window. unfold len in *.
  set (lo := Z.max 0 (s - radius)).
  set (hi := Z.min (Z.of_nat (String.length field)) (e + radius)).
  assert (0 <= lo <= s /\ e <= hi <= Z.of_nat (String.length field))
    as [Hlo Hhi] by (subst lo hi; lia).
  set (pre := if 0 <? lo then ellipsis else ""%string).
  apply (occurs_Contains _ _ (String.length pre + Z.to_nat (s - lo))).
  rewrite drop_bytes_append.
  set (post := if hi <? _ then _ else _).
  assert (drop_bytes (Z.to_nat (s - lo))
            (substring (Z.to_nat lo) (Z.to_nat (hi - lo)) field +:+ post)
          = substring (Z.to_nat s) (Z.to_nat (hi - s)) field +:+ post) as ->.
  { assert (substring (Z.to_nat lo) (Z.to_nat (hi - lo)) field
            = substring (Z.to_nat lo) (Z.to_nat (s - lo)) field
              +:+ substring (Z.to_nat s) (Z.to_nat (hi - s)) field) as ->.
    { rewrite (substring_split
                 (substring (Z.to_nat lo) (Z.to_nat (hi - lo)) field)
                 (Z.to_nat (s - lo))) at 1
        by (rewrite length_substring; lia).
      rewrite length_substring by lia.
      rewrite !substring_substring by lia.
      f_equal; f_equal; lia. }
    rewrite append_assoc.
    replace (Z.to_nat (s - lo))
      with (String.length
              (substring (Z.to_nat lo) (Z.to_nat (s - lo)) field) + 0)%nat
      at 1 by (rewrite length_substring; lia).
    by rewrite drop_bytes_append. }
  assert (substring (Z.to_nat s) (Z.to_nat (e - s)) field
          = substring 0 (Z.to_nat (e - s))
              (substring (Z.to_nat s) (Z.to_nat (hi - s)) field)) as ->.
  { rewrite substring_substring by lia. f_equal. lia. }
  apply substring_0_append. rewrite length_substring by lia. lia.
Qed.

(** A window is never longer than the match, the radius on each side and
    two ellipses. *)
Lemma len_window (radius : Z) (field : string) (s e : Z) :
  0 <= radius -> 0 <= s <= e -> s <= len field ->
  len (window radius field s e) <= (e - s) + 2 * radius + 6.
Proof.
  intros Hr Hse Hs. unfold window. rewrite !len_append.
  set (lo := Z.max 0 (s - radius)).
  set (hi := Z.min (len field) (e + radius)).
  assert (0 <= lo <= hi /\ hi <= len field /\ hi - lo <= e - s + 2 * radius)
    as (Hlo & Hhi & Hd) by (subst lo hi; lia).
  rewrite len_slice by lia.
  assert (len (if 0 <? lo then ellipsis else "") <= 3)
    by (destruct (0 <? lo); unfold len, ellipsis; cbn; lia).
  assert (len (if hi <? len field then ellipsis else "") <= 3)
    by (destruct (hi <? len field); unfold len, ellipsis; cbn; lia).
  lia.
Qed.

End WindowFacts.

(* ===================================================================== *)
(** ** strings.Fields *)
(* ===================================================================== *)

Module FieldsFacts.
Import StringsFields.

Lemma fields_of_nonempty (rs : list (Z * string)) (cur : string) :
  Forall (fun word => word <> ""%string) (fields_of rs cur).
Proof.
  revert cur. induction rs as [|[r bytes] rest IH]; intros cur;
    cbn [fields_of].
  - destruct (String.eqb_spec cur ""); [constructor|by repeat constructor].
  - destruct (Unicode.IsSpace r); [|apply IH].
    apply Forall_app. split; [|apply IH].
    destruct (String.eqb_spec cur ""); [constructor|by repeat constructor].
Qed.

(** No field is empty. *)
Lemma Fields_nonempty (s : string) :
  Forall (fun word => word <> ""%string) (Fields s).
Proof. apply fields_of_nonempty. Qed.

End FieldsFacts.

(* ===================================================================== *)
(** ** wrapText *)
(* ===================================================================== *)

Module WrapFacts.
Import Search Strings StringsLib BytesFacts UiText.
Local Open Scope Z_scope.

(** The line made of the words of a group. *)
Definition line_of (group : list string) : string := Join group " ".

(** A group fits the width, or it is one word (which cannot be cut). *)
Definition fits (width : Z) (group : list string) : Prop :=
  len (line_of group) <= width \/ length group = 1%nat.

(** Each line is full: the first word of the next line would not have
    fitted at its end. *)
Inductive greedy (width : Z) : list (list string) -> Prop :=
| greedy_nil : greedy width []
| greedy_last group : greedy width [group]
| greedy_more group word group' groups :
    width < len (line_of group) + 1 + len word ->
    greedy width ((word :: group') :: groups) ->
    greedy width (group :: (word :: group') :: groups).

(** The lines once the first word is in [cur]. *)
Fixpoint wrap_from (width : Z) (cur : string) (words : list string)
  : list string :=
  match words with
  | [] => [cur]
  | word :: rest =>
      if len (cur +:+ " " +:+ word) <=? width
      then wrap_from width (cur +:+ " " +:+ word) rest
      else cur :: wrap_from width word rest
  end.

Lemma append_nonempty (s t : string) : t <> ""%string -> s +:+ t <> ""%string.
Proof.
  intros Ht H%(f_equal String.length). rewrite length_append in H.
  destruct t; [done|]. cbn in H. lia.
Qed.

Lemma fold_wrap (width : Z) (words : list string) (lines : list string)
      (cur : string) :
  cur <> ""%string -> Forall (fun word => word <> ""%string) words ->
  (let '(lines', cur') := fold_left (wrap_word width) words (lines, cur) in
   if negb (String.eqb cur' "") then lines' ++ [cur'] else lines')
  = lines ++ wrap_from width cur words.
Proof.
  revert lines cur. induction words as [|word rest IH];
    intros lines cur Hcur Hwords.
  - cbn. by destruct (String.eqb_spec cur "").
  - apply Forall_cons in Hwords as [Hword Hrest].
    cbn [fold_left wrap_from]. unfold wrap_word at 2.
    destruct (String.eqb_spec cur ""); [done|].
    destruct (len (cur +:+ " " +:+ word) <=? width).
    + apply IH; [|done]. apply append_nonempty, append_nonempty. done.
    + rewrite IH by done. by rewrite <- app_assoc.
Qed.

Lemma line_of_snoc (group : list string) (word : string) :
  group <> [] -> line_of (group ++ [word]) = line_of group +:+ " " +:+ word.
Proof.
  unfold line_of, Join. induction group as [|w group IH]; [done|]. intros _.
  destruct group as [|w' group]; [reflexivity|].
  change (String.concat " " ((w :: w' :: group) ++ [word]))
    with (w +:+ " " +:+ String.concat " " ((w' :: group) ++ [word])).
  rewrite IH by done.
  change (String.concat " " (w :: w' :: group))
    with (w +:+ " " +:+ String.concat " " (w' :: group)).
  by rewrite !append_assoc.
Qed.

Lemma line_of_one (word : string) : line_of [word] = word.
Proof. reflexivity. Qed.

Lemma len_line_snoc (cur word : string) :
  len (cur +:+ " " +:+ word) = len cur + 1 + len word.
Proof. unfold len. rewrite !length_append. cbn. lia. Qed.

(** The lines are the words, group after group. *)
Lemma wrap_from_groups (width : Z) (words : list string) (group : list string) :
  group <> [] -> fits width group ->
  exists more groups,
    wrap_from width (line_of group) words
      = line_of <$> ((group ++ more) :: groups) /\
    (group ++ more) ++ concat groups = group ++ words /\
    Forall (fun g => g <> [] /\ fits width g) ((group ++ more) :: groups) /\
    greedy width ((group ++ more) :: groups).
Proof.
  revert group. induction words as [|word rest IH]; intros group Hne Hfits.
  - exists [], []. rewrite !app_nil_r. cbn [wrap_from concat].
    split; [reflexivity|]. split; [reflexivity|].
    split; [|constructor]. constructor; [by split|constructor].
  - cbn [wrap_from].
    destruct (Z.leb_spec (len (line_of group +:+ " " +:+ word)) width)
      as [Hle|Hgt].
    + rewrite <- line_of_snoc by done.
      destruct (IH (group ++ [word])) as (more & groups & Heq & Hcat & Hall & Hg).
      { by destruct group. }
      { left. by rewrite line_of_snoc. }
      exists (word :: more), groups.
      replace (group ++ word :: more) with ((group ++ [word]) ++ more)
        by by rewrite <- app_assoc.
      split; [exact Heq|]. split; [|by split].
      rewrite Hcat. by rewrite <- app_assoc.
    + destruct (IH [word]) as (more & groups & Heq & Hcat & Hall & Hg).
      { done. }
      { by right. }
      exists [], (([word] ++ more) :: groups). rewrite app_nil_r.
      split; [|split; [|split]].
      * rewrite fmap_cons. f_equal. exact Heq.
      * cbn [concat]. rewrite Hcat. reflexivity.
      * constructor; [by split|exact Hall].
      * cbn [app] in *. apply greedy_more; [|exact Hg].
        rewrite len_line_snoc in Hgt. lia.
Qed.

End WrapFacts.

(* ===================================================================== *)
(** ** ensureVisible and the keys that move the selection *)
(* ===================================================================== *)

Module UiFacts.
Import Search Engine Ui GoInt GoIntFacts.
Local Open Scope Z_scope.

Section Facts.
Context {Time TextInput InputCmd : Type}.

Local Abbreviation Model := (@Ui.Model Time TextInput).





(** The sessions at the indexes of the results: what the loop over
    the results of a finished search appends, when no index is
    negative. *)
Lemma filter_sessions_omap (all : list (SessionInfo Time))
      (results : list SearchResult) (filtered : list (SessionInfo Time)) :
  Forall (fun r => 0 <= SessionIndex r) results ->
  filter_sessions all results filtered
  = Some (filtered ++ omap (fun r => at_index all (SessionIndex r)) results).
Proof.
  intros Hall. revert filtered.
  induction Hall as [|r rest Hr Hrest IH]; intros filtered.
  - cbn. by rewrite app_nil_r.
  - cbn [filter_sessions]. rewrite ParserFacts.omap_cons_match.
    rewrite (ParseFacts.at_index_lookup all (SessionIndex r)) by done.
    unfold slice_len.
    destruct (Z.ltb_spec (SessionIndex r) (Z.of_nat (length all))) as [Hlt|Hge].
    + destruct (lookup_lt_is_Some_2 all (Z.to_nat (SessionIndex r))
                  ltac:(lia)) as [s Hs].
      rewrite Hs. cbn [mbind option_bind]. rewrite IH.
      by rewrite <- app_assoc.
    + rewrite lookup_ge_None_2 by lia. apply IH.
Qed.

Lemma load_selected_ok (m : Model) :
  0 <= selected m ->
  exists cmd,
    @load_selected Time TextInput InputCmd m = Some (m, cmd) /\
    (selected m < slice_len (filteredSessions m) ->
     exists session,
       at_index (filteredSessions m) (selected m) = Some session /\
       cmd = CmdLoadFullSession (FilePath session)) /\
    (slice_len (filteredSessions m) <= selected m -> cmd = CmdNil).
Proof.
  intros Hsel. unfold load_selected, slice_len.
  destruct (Z.ltb_spec (selected m) (Z.of_nat (length (filteredSessions m))))
    as [Hlt|Hge].
  - unfold at_index. destruct (Z.leb_spec 0 (selected m)); [|lia].
    destruct (lookup_lt_is_Some_2 (filteredSessions m) (Z.to_nat (selected m))
                ltac:(lia)) as [s Hs].
    rewrite Hs. cbn. eexists. split; [reflexivity|]. split; [eauto|lia].
  - eexists. split; [reflexivity|]. split; [lia|done].
Qed.

Lemma wrap_range (z : Z) : min_int <= wrap z <= max_int.
Proof.
  unfold wrap, min_int, max_int.
  pose proof (Z.mod_pos_bound (z + 2 ^ 63) (2 ^ 64) ltac:(lia)). lia.
Qed.

(** [ensureVisible] moves the scroll offset only. *)
Lemma ensureVisible_same (m : Model) :
  selected (ensureVisible m) = selected m /\
  filteredSessions (ensureVisible m) = filteredSessions m.
Proof.
  unfold ensureVisible.
  repeat match goal with
         | |- context [if ?b then _ else _] => destruct b
         end; by cbn.
Qed.

Lemma key_up_ok (m : Model) :
  0 <= selected m <= max_int ->
  exists m' cmd,
    @key_up Time TextInput InputCmd m = Some (m', cmd) /\
    0 <= selected m' <= max_int.
Proof.
  intros Hsel. unfold key_up.
  destruct (Z.gtb_spec (selected m) 0) as [Hpos|Hzero]; [|by eauto].
  rewrite sub_exact by (unfold in_range, min_int, max_int in *; lia).
  set (m1 := ensureVisible (set_selected m (selected m - 1))).
  destruct (ensureVisible_same (set_selected m (selected m - 1)))
    as [Hs _]. fold m1 in Hs. cbn in Hs.
  destruct (load_selected_ok m1) as (cmd & Hload & _); [lia|].
  exists m1, cmd. split; [exact Hload|lia].
Qed.

Lemma key_down_ok (m : Model) :
  0 <= selected m <= max_int ->
  exists m' cmd,
    @key_down Time TextInput InputCmd m = Some (m', cmd) /\
    0 <= selected m' <= max_int.
Proof.
  intros Hsel. unfold key_down.
  pose proof (wrap_range (slice_len (filteredSessions m) - 1)) as Hw.
  fold (sub (slice_len (filteredSessions m)) 1) in Hw.
  destruct (Z.ltb_spec (selected m) (sub (slice_len (filteredSessions m)) 1))
    as [Hlt|Hlast]; [|by eauto].
  rewrite add_exact by (unfold in_range, min_int, max_int in *; lia).
  set (m1 := ensureVisible (set_selected m (selected m + 1))).
  destruct (ensureVisible_same (set_selected m (selected m + 1)))
    as [Hs _]. fold m1 in Hs. cbn in Hs.
  destruct (load_selected_ok m1) as (cmd & Hload & _); [lia|].
  exists m1, cmd. split; [exact Hload|lia].
Qed.

End Facts.
End UiFacts.

(* ===================================================================== *)
(** ** The sessions of a directory *)
(* ===================================================================== *)

Module ListingFacts.
Import Search Strings StringsLib Filepath BytesFacts StringsLibFacts
       FilepathFacts ModelFacts CleanFacts ParserFacts Parser.

Lemma suffix_proper (name : string) :
  plain_name name -> HasSuffix name ".jsonl" = true -> proper_name name.
Proof.
  intros Hplain Hs. pose proof (plain_name_free _ Hplain) as Hf.
  destruct Hplain as [Hne _]. apply HasSuffix_iff in Hs as [p ->].
  repeat split; try done.
  - intros H%(f_equal String.length). rewrite length_append in H.
    cbn in H. lia.
  - intros H%(f_equal String.length). rewrite length_append in H.
    cbn in H. lia.
Qed.

Section Facts.
Context {Time : Type}.

Lemma session_of_path (claudeDir : string) (entry : DirEntry Time)
      (session : SessionInfo Time) :
  plain_name (entry_Name entry) ->
  session_of claudeDir entry = Some session ->
  Model.GetSessionID (FilePath session) = ID session.
Proof.
  intros Hplain. unfold session_of.
  destruct (entry_IsDir entry); [done|].
  destruct (HasSuffix _ _) eqn:Hs; [|done].
  destruct (entry_ModTime entry); [|done]. cbn.
  intros [= <-]. cbn. unfold Model.GetSessionID.
  rewrite Base_Join by by apply suffix_proper.
  rewrite Base_name; [done|apply Hplain|by apply plain_name_free].
Qed.

End Facts.
End ListingFacts.

(* ===================================================================== *)
(** ** Long lines *)
(* ===================================================================== *)

Module LongLines.
Import Strings BytesFacts StringsLibFacts Example.

Lemma len_doubled (k : nat) (s : string) :
  len (doubled k s) = (2 ^ Z.of_nat k * len s)%Z.
Proof.
  revert s. induction k as [|k IH]; intros s; cbn [doubled].
  - cbn. lia.
  - rewrite IH. unfold len. rewrite length_append.
    rewrite Nat2Z.inj_succ, Z.pow_succ_r by lia. lia.
Qed.

Lemma free_of_doubled (a : ascii) (k : nat) (s : string) :
  free_of a s -> free_of a (doubled k s).
Proof.
  revert s. induction k as [|k IH]; intros s Hf; [done|].
  cbn [doubled]. apply IH. by apply FilepathFacts.free_of_append.
Qed.

Lemma Contains_doubled (k : nat) (s : string) (a : ascii) :
  Contains s (String a EmptyString) = false ->
  Contains (doubled k s) (String a EmptyString) = false.
Proof.
  rewrite !Contains_one_false. apply free_of_doubled.
Qed.

End LongLines.

(* ===================================================================== *)
(** ** UTF-8: decoding, then encoding *)
(* ===================================================================== *)

Module Utf8Facts.
Import Utf8 BytesFacts.
Local Open Scope Z_scope.

(** [a << n | b] is a sum when [b] fits in [n] bits. *)
Lemma lor_shiftl (a b n : Z) :
  0 <= n -> 0 <= b < 2 ^ n -> Z.lor (Z.shiftl a n) b = a * 2 ^ n + b.
Proof.
  intros Hn Hb. rewrite Z.shiftl_mul_pow2 by done.
  rewrite <- Z.lxor_lor, <- Z.add_nocarry_lxor; try done.
  all: apply Z.bits_inj'; intros i Hi; rewrite Z.land_spec, Z.bits_0.
  all: destruct (Z.lt_ge_cases i n) as [Hlt|Hge].
  all: try (rewrite Z.mul_pow2_bits_low by lia; reflexivity).
  all: destruct (Z.eq_dec b 0) as [->|Hb0];
    [by rewrite Z.bits_0, andb_false_r|].
  all: rewrite (Z.bits_above_log2 b i), andb_false_r; try done; try lia.
  all: apply Z.log2_lt_pow2; try lia.
  all: eapply Z.lt_le_trans; [apply Hb|]; apply Z.pow_le_mono_r; lia.
Qed.

(** [x | b] is a sum when [b] fits in the [n] low bits, which [x] leaves
    free. *)
Lemma lor_low (x b n : Z) :
  0 <= n -> x mod 2 ^ n = 0 -> 0 <= b < 2 ^ n -> Z.lor x b = x + b.
Proof.
  intros Hn Hx Hb.
  assert (0 < 2 ^ n) as Hpos by (apply Z.pow_pos_nonneg; lia).
  assert (x = Z.shiftl (x / 2 ^ n) n) as Hsh.
  { rewrite Z.shiftl_mul_pow2 by done.
    pose proof (Z.div_mod x (2 ^ n)). lia. }
  rewrite Hsh at 1. rewrite lor_shiftl by done.
  pose proof (Z.div_mod x (2 ^ n)). lia.
Qed.

Lemma byte_range (c : ascii) : 0 <= byte c < 256.
Proof.
  unfold byte. pose proof (N_ascii_bounded c). lia.
Qed.

Lemma to_byte_byte (c : ascii) : to_byte (byte c) = c.
Proof.
  unfold to_byte. rewrite Z.mod_small by apply byte_range.
  unfold byte. rewrite N2Z.id. apply ascii_N_embedding.
Qed.

(** What the table [first] holds. *)
Lemma first_cases (b : Z) :
  0 <= b < 256 ->
  (b < 128 /\ first b = 240) \/
  first b = 241 \/
  (194 <= b < 224 /\ first b = 2) \/
  (b = 224 /\ first b = 19) \/
  ((225 <= b < 237 \/ 238 <= b < 240) /\ first b = 3) \/
  (b = 237 /\ first b = 35) \/
  (b = 240 /\ first b = 52) \/
  (241 <= b < 244 /\ first b = 4) \/
  (b = 244 /\ first b = 68).
Proof.
  intros Hb. unfold first.
  repeat (match goal with
          | |- context [?x <? ?y] => destruct (Z.ltb_spec x y)
          | |- context [?x =? ?y] => destruct (Z.eqb_spec x y)
          end);
    lia.
Qed.

Ltac to_arith :=
  change 63 with (Z.ones 6) in *; change 31 with (Z.ones 5) in *;
  change 15 with (Z.ones 4) in *; change 7 with (Z.ones 3) in *;
  rewrite ?Z.land_ones, ?Z.shiftr_div_pow2, ?Z.shiftl_mul_pow2 by lia;
  change (2 ^ 3) with 8; change (2 ^ 4) with 16; change (2 ^ 5) with 32;
  change (2 ^ 6) with 64; change (2 ^ 12) with 4096;
  change (2 ^ 18) with 262144.

Ltac arith := Z.div_mod_to_equations; lia.

Ltac test_false :=
  match goal with
  | |- context [?x <=? ?y] => destruct (Z.leb_spec x y); [arith|]
  end.
Ltac test_true :=
  match goal with
  | |- context [?x <=? ?y] => destruct (Z.leb_spec x y); [|arith]
  end.

Lemma encode1 (s0 : Z) :
  0 <= s0 < 128 -> EncodeRune s0 = String (to_byte s0) EmptyString.
Proof.
  intros H0. unfold EncodeRune. rewrite (Z.mod_small s0) by lia.
  by test_true.
Qed.

Lemma encode2 (s0 s1 : Z) :
  194 <= s0 < 224 -> 128 <= s1 <= 191 ->
  EncodeRune (Z.lor (Z.shiftl (Z.land s0 31) 6) (Z.land s1 63))
  = String (to_byte s0) (String (to_byte s1) EmptyString).
Proof.
  intros H0 H1. to_arith. rewrite (lor_low _ _ 6) by arith.
  set (r := s0 mod 32 * 64 + s1 mod 64).
  assert (r = (s0 - 192) * 64 + (s1 - 128)) as Hr by (subst r; arith).
  clearbody r. unfold EncodeRune. rewrite (Z.mod_small r) by lia.
  test_false. test_true. to_arith.
  rewrite (lor_low 192 _ 6), (lor_low 128 _ 6) by arith.
  repeat f_equal; arith.
Qed.

Lemma encode3 (s0 s1 s2 : Z) :
  224 <= s0 < 240 -> 128 <= s1 <= 191 -> 128 <= s2 <= 191 ->
  (s0 = 224 -> 160 <= s1) -> (s0 = 237 -> s1 <= 159) ->
  EncodeRune (Z.lor (Z.lor (Z.shiftl (Z.land s0 15) 12)
                       (Z.shiftl (Z.land s1 63) 6))
                (Z.land s2 63))
  = String (to_byte s0)
      (String (to_byte s1) (String (to_byte s2) EmptyString)).
Proof.
  intros H0 H1 H2 Hlo Hhi. to_arith.
  rewrite (lor_low _ (s1 mod 64 * 64) 12) by arith.
  rewrite (lor_low _ (s2 mod 64) 6) by arith.
  set (r := s0 mod 16 * 4096 + s1 mod 64 * 64 + s2 mod 64).
  assert (r = (s0 - 224) * 4096 + (s1 - 128) * 64 + (s2 - 128)) as Hr
    by (subst r; arith).
  clearbody r. unfold EncodeRune. rewrite (Z.mod_small r) by lia.
  test_false. test_false. unfold MaxRune.
  destruct (Z.ltb_spec 1114111 r); [lia|].
  destruct (Z.leb_spec 55296 r), (Z.leb_spec r 57343); try lia;
    cbn [orb andb]; (test_true; to_arith;
    rewrite (lor_low 224 _ 4), !(lor_low 128 _ 6) by arith;
    repeat f_equal; arith).
Qed.

Lemma encode4 (s0 s1 s2 s3 : Z) :
  240 <= s0 <= 244 -> 128 <= s1 <= 191 -> 128 <= s2 <= 191 ->
  128 <= s3 <= 191 ->
  (s0 = 240 -> 144 <= s1) -> (s0 = 244 -> s1 <= 143) ->
  EncodeRune (Z.lor (Z.lor (Z.lor (Z.shiftl (Z.land s0 7) 18)
                              (Z.shiftl (Z.land s1 63) 12))
                       (Z.shiftl (Z.land s2 63) 6))
                (Z.land s3 63))
  = String (to_byte s0)
      (String (to_byte s1)
         (String (to_byte s2) (String (to_byte s3) EmptyString))).
Proof.
  intros H0 H1 H2 H3 Hlo Hhi. to_arith.
  rewrite (lor_low _ (s1 mod 64 * 4096) 18) by arith.
  rewrite (lor_low _ (s2 mod 64 * 64) 12) by arith.
  rewrite (lor_low _ (s3 mod 64) 6) by arith.
  set (r := s0 mod 8 * 262144 + s1 mod 64 * 4096 + s2 mod 64 * 64
            + s3 mod 64).
  assert (r = (s0 - 240) * 262144 + (s1 - 128) * 4096 + (s2 - 128) * 64
              + (s3 - 128)) as Hr by (subst r; arith).
  clearbody r. unfold EncodeRune. rewrite (Z.mod_small r) by lia.
  test_false. test_false. unfold MaxRune.
  destruct (Z.ltb_spec 1114111 r); [lia|].
  destruct (Z.leb_spec 55296 r), (Z.leb_spec r 57343); try lia;
    cbn [orb andb]; (test_false; to_arith;
    rewrite (lor_low 240 _ 3), !(lor_low 128 _ 6) by arith;
    repeat f_equal; arith).
Qed.

(** A sequence that [DecodeRuneInString] accepts: anything but the
    error rune of width 1. *)
Definition accepted (decoded : Z * nat) : bool :=
  negb ((fst decoded =? RuneError) && Nat.eqb (snd decoded) 1).

Ltac bad Hbad Hdec := exfalso; apply (Hbad Hdec).

(** Round trip: the encoding of an accepted rune is the bytes it was
    decoded from. *)
Lemma EncodeRune_DecodeRune (s : string) (r : Z) (w : nat) :
  DecodeRuneInString s = (r, w) -> s <> ""%string ->
  accepted (r, w) = true ->
  EncodeRune r = substring 0 w s.
Proof.
  intros Hdec Hne Hacc.
  destruct s as [|c0 rest]; [done|]. clear Hne.
  unfold DecodeRuneInString in Hdec.
  pose proof (byte_range c0) as H0. pose proof (to_byte_byte c0) as Hc0.
  set (s0 := byte c0) in *. clearbody s0.
  assert ((RuneError, 1%nat) = (r, w) -> False) as Hbad.
  { intros [= <- <-]. by vm_compute in Hacc. }
  destruct (first_cases s0 H0)
    as [[Hs Hf]|[Hf|[[Hs Hf]|[[Hs Hf]|[[Hs Hf]|[[Hs Hf]|[[Hs Hf]|
        [[Hs Hf]|[Hs Hf]]]]]]]]];
    rewrite Hf in Hdec; clear Hf;
    cbn [Z.geb Z.compare Pos.compare Pos.compare_cont Z.odd] in Hdec;
    try (by bad Hbad Hdec).
  1: injection Hdec as <- <-; rewrite encode1 by lia;
    cbn [substring]; by rewrite substring_0_0, Hc0.
  all: change (Z.land 2 7) with 2 in Hdec;
    change (Z.land 3 7) with 3 in Hdec; change (Z.land 19 7) with 3 in Hdec;
    change (Z.land 35 7) with 3 in Hdec; change (Z.land 4 7) with 4 in Hdec;
    change (Z.land 52 7) with 4 in Hdec; change (Z.land 68 7) with 4 in Hdec;
    change (acceptRanges (Z.shiftr 2 4)) with (128, 191) in Hdec;
    change (acceptRanges (Z.shiftr 3 4)) with (128, 191) in Hdec;
    change (acceptRanges (Z.shiftr 4 4)) with (128, 191) in Hdec;
    change (acceptRanges (Z.shiftr 19 4)) with (160, 191) in Hdec;
    change (acceptRanges (Z.shiftr 35 4)) with (128, 159) in Hdec;
    change (acceptRanges (Z.shiftr 52 4)) with (144, 191) in Hdec;
    change (acceptRanges (Z.shiftr 68 4)) with (128, 143) in Hdec;
    cbn beta iota in Hdec;
    (destruct (_ <? _) in Hdec; [by bad Hbad Hdec|]);
    (destruct rest as [|c1 rest]; [by bad Hbad Hdec|]);
    pose proof (to_byte_byte c1) as Hc1; pose proof (byte_range c1) as Hb1;
    set (s1 := byte c1) in *; clearbody s1;
    match type of Hdec with
    | context [(?a <? ?lo) || (?hi <? ?b)] =>
        destruct (Z.ltb_spec a lo); [by bad Hbad Hdec|];
        destruct (Z.ltb_spec hi b); [by bad Hbad Hdec|]
    end;
    cbn [orb Z.leb Z.compare Pos.compare Pos.compare_cont] in Hdec.
  1: injection Hdec as <- <-; rewrite encode2 by lia;
    cbn [substring]; by rewrite substring_0_0, Hc0, Hc1.
  all: destruct rest as [|c2 rest]; [by bad Hbad Hdec|];
    pose proof (to_byte_byte c2) as Hc2; pose proof (byte_range c2) as Hb2;
    set (s2 := byte c2) in *; clearbody s2; unfold is_cont in Hdec;
    (destruct (Z.leb_spec 128 s2); [|by bad Hbad Hdec]);
    (destruct (Z.leb_spec s2 191); [|by bad Hbad Hdec]);
    cbn [andb negb Z.leb Z.compare Pos.compare Pos.compare_cont] in Hdec.
  1-3: injection Hdec as <- <-; rewrite encode3 by lia;
    cbn [substring]; by rewrite substring_0_0, Hc0, Hc1, Hc2.
  all: destruct rest as [|c3 rest]; [by bad Hbad Hdec|];
    pose proof (to_byte_byte c3) as Hc3; pose proof (byte_range c3) as Hb3;
    set (s3 := byte c3) in *; clearbody s3;
    (destruct (Z.leb_spec 128 s3); [|by bad Hbad Hdec]);
    (destruct (Z.leb_spec s3 191); [|by bad Hbad Hdec]);
    cbn [andb negb] in Hdec;
    injection Hdec as <- <-; rewrite encode4 by lia;
    cbn [substring]; by rewrite substring_0_0, Hc0, Hc1, Hc2, Hc3.
Qed.

(** The width of a rune is at least 1 and at most the bytes there are. *)
Lemma DecodeRune_width (s : string) :
  s <> ""%string ->
  (1 <= snd (DecodeRuneInString s) <= String.length s)%nat.
Proof.
  intros Hne. destruct s as [|c0 rest]; [done|].
  unfold DecodeRuneInString.
  repeat (case_match; cbn [snd String.length]; try lia).
Qed.

Lemma substring_drop (w : nat) (s : string) :
  substring 0 w s +:+ Strings.drop_bytes w s = s.
Proof.
  revert s. induction w as [|w IH]; intros [|c s]; cbn; try done.
  app_simpl. by rewrite IH.
Qed.

Lemma length_drop (w : nat) (s : string) :
  String.length (Strings.drop_bytes w s) = (String.length s - w)%nat.
Proof. revert s. induction w as [|w IH]; intros [|c s]; cbn; try done; lia. Qed.

Lemma length_substring_0 (w : nat) (s : string) :
  (w <= String.length s)%nat -> String.length (substring 0 w s) = w.
Proof.
  revert s. induction w as [|w IH]; intros [|c s] H; cbn in *; try done;
    try lia.
  rewrite IH; lia.
Qed.

(** The bytes of the runes of a string, one after the other, are the
    string. *)
Lemma concat_decode_from (fuel : nat) (s : string) :
  (String.length s <= fuel)%nat ->
  String.concat "" (snd <$> decode_from fuel s) = s.
Proof.
  revert s. induction fuel as [|fuel IH]; intros s Hlen.
  - by destruct s; [|cbn in Hlen; lia].
  - destruct s as [|c0 rest]; [done|].
    cbn [decode_from].
    pose proof (DecodeRune_width (String c0 rest) ltac:(done)) as Hw.
    destruct (DecodeRuneInString (String c0 rest)) as [r w].
    cbn [snd] in Hw. cbn [fmap list_fmap snd].
    set (tail := Strings.drop_bytes w (String c0 rest)) in *.
    assert (String.concat "" (snd <$> decode_from fuel tail) = tail) as Htail.
    { apply IH. subst tail. rewrite length_drop. cbn in *. lia. }
    assert (forall x xs, String.concat "" (x :: xs)
                         = x +:+ String.concat "" xs) as Hcons.
    { intros x [|y xs]; cbn [String.concat]; [by rewrite append_nil_r|done]. }
    fold (@fmap list _ _ _ snd (decode_from fuel tail)).
    rewrite Hcons, Htail. apply substring_drop.
Qed.

(** Every rune of a string comes with the bytes that encode it, unless
    it stands for a byte that starts no valid sequence. *)
Lemma decode_from_encoded (fuel : nat) (s : string) (r : Z) (bytes : string) :
  (r, bytes) ∈ decode_from fuel s ->
  negb ((r =? RuneError) && Nat.eqb (String.length bytes) 1) = true ->
  EncodeRune r = bytes.
Proof.
  revert s. induction fuel as [|fuel IH]; intros s Hin Hacc.
  - by apply elem_of_nil in Hin.
  - destruct s as [|c0 rest]; [by apply elem_of_nil in Hin|].
    cbn [decode_from] in Hin.
    pose proof (DecodeRune_width (String c0 rest) ltac:(done)) as Hw.
    destruct (DecodeRuneInString (String c0 rest)) as [r' w] eqn:Hdec.
    cbn [snd] in Hw.
    apply elem_of_cons in Hin as [Heq|Hin]; [|by eapply IH].
    assert (r = r') as -> by congruence.
    assert (bytes = substring 0 w (String c0 rest)) as -> by congruence.
    clear Heq IH.
    apply EncodeRune_DecodeRune; [exact Hdec|done|].
    unfold accepted. cbn [fst snd].
    by rewrite length_substring_0 in Hacc by lia.
Qed.

End Utf8Facts.

(* ===================================================================== *)
(** ** HighlightText *)
(* ===================================================================== *)

Module HighlightFacts.
Import Search Highlight Utf8 Utf8Facts BytesFacts.
Local Open Scope Z_scope.

(** The text as [[]rune] sees it: the bytes of each rune. *)
Definition chars (text : string) : list string := snd <$> decode text.

(** [utf8.ValidString(text)]: no byte of [text] is decoded as the error
    rune of width 1. *)
Definition ValidString (text : string) : bool :=
  forallb (fun '(r, bytes) =>
             negb ((r =? RuneError) && Nat.eqb (String.length bytes) 1))
          (decode text).

(** The text with the characters at the listed positions styled. *)
Definition marked (indices : list Z) (highlightStyle : string -> string)
           (pieces : list string) : string :=
  String.concat ""
    (imap (fun i bytes =>
             if bool_decide (Z.of_nat i ∈ indices)
             then highlightStyle bytes else bytes)
          pieces).

Lemma concat_cons (x : string) (xs : list string) :
  String.concat "" (x :: xs) = x +:+ String.concat "" xs.
Proof. destruct xs; cbn [String.concat]; [by rewrite append_nil_r|done]. Qed.

(** The map holds the listed indexes below [n], and nothing else. *)
Lemma index_map_fold (n : Z) (indices : list Z) (indexMap : gmap Z bool)
      (i : Z) :
  default false
    (foldl (fun indexMap idx =>
              if idx <? n then <[idx := true]> indexMap else indexMap)
           indexMap indices !! i)
  = (bool_decide (i ∈ indices) && (i <? n))
    || default false (indexMap !! i).
Proof.
  revert indexMap. induction indices as [|idx rest IH]; intros indexMap.
  - cbn [foldl]. rewrite bool_decide_eq_false_2 by apply not_elem_of_nil.
    done.
  - cbn [foldl]. rewrite IH.
    destruct (decide (i = idx)) as [->|Hne].
    + rewrite (bool_decide_eq_true_2 (idx ∈ idx :: rest))
        by apply list_elem_of_here.
      destruct (Z.ltb_spec idx n).
      * rewrite lookup_insert_eq. cbn. by rewrite !orb_true_r.
      * cbn. by rewrite andb_false_r.
    + assert (bool_decide (i ∈ idx :: rest) = bool_decide (i ∈ rest)) as ->.
      { apply bool_decide_ext. rewrite elem_of_cons.
        split; [by intros [?|?]|by right]. }
      destruct (idx <? n); [|done]. by rewrite lookup_insert_ne.
Qed.

Lemma index_map_lookup (n : Z) (indices : list Z) (i : Z) :
  default false (index_map n indices !! i)
  = bool_decide (i ∈ indices) && (i <? n).
Proof.
  unfold index_map. rewrite index_map_fold, lookup_empty. cbn.
  by rewrite orb_false_r.
Qed.

(** What the loop over the runes writes, when every rune comes with its
    encoding. *)
Lemma write_runes_pieces (highlightStyle : string -> string)
      (indexMap : gmap Z bool) (decoded : list (Z * string)) (i : Z)
      (result : string) :
  Forall (fun '(r, bytes) => EncodeRune r = bytes) decoded ->
  write_runes highlightStyle indexMap i (fst <$> decoded) result
  = result +:+
    String.concat ""
      (imap (fun k bytes =>
               if default false (indexMap !! (i + Z.of_nat k))
               then highlightStyle bytes else bytes)
            (snd <$> decoded)).
Proof.
  intros Hall. revert i result.
  induction Hall as [|[r bytes] rest Hr Hrest IH]; intros i result.
  - cbn. by rewrite append_nil_r.
  - cbn [fmap list_fmap fst snd write_runes imap].
    fold (@fmap list _ _ _ (@fst Z string) rest).
    fold (@fmap list _ _ _ (@snd Z string) rest).
    rewrite IH, concat_cons, Hr, Z.add_0_r.
    assert (imap (fun k bytes0 =>
                    if default false (indexMap !! (i + 1 + Z.of_nat k))
                    then highlightStyle bytes0 else bytes0) (snd <$> rest)
            = imap ((fun k bytes0 =>
                       if default false (indexMap !! (i + Z.of_nat k))
                       then highlightStyle bytes0 else bytes0) ∘ S)
                (snd <$> rest)) as ->.
    { apply imap_ext. intros k x _. cbn.
      by replace (i + 1 + Z.of_nat k) with (i + Z.of_nat (S k)) by lia. }
    destruct (default false (indexMap !! i)); by rewrite append_assoc.
Qed.

Lemma decode_encoded (text : string) :
  ValidString text = true ->
  Forall (fun '(r, bytes) => EncodeRune r = bytes) (decode text).
Proof.
  intros Hvalid. apply Forall_forall. intros [r bytes] Hin.
  eapply decode_from_encoded; [exact Hin|].
  unfold ValidString in Hvalid. rewrite forallb_forall in Hvalid.
  apply (Hvalid (r, bytes)). by apply list_elem_of_In.
Qed.

Lemma concat_chars (text : string) : String.concat "" (chars text) = text.
Proof. by apply concat_decode_from. Qed.

Lemma marked_nil (highlightStyle : string -> string) (pieces : list string) :
  marked [] highlightStyle pieces = String.concat "" pieces.
Proof.
  unfold marked. f_equal.
  rewrite (imap_ext _ (fun _ bytes => bytes) pieces).
  - induction pieces as [|x xs IH]; [done|]. cbn [imap]. f_equal. exact IH.
  - intros k x _. cbn.
    by rewrite bool_decide_eq_false_2 by apply not_elem_of_nil.
Qed.

End HighlightFacts.

(* ===================================================================== *)
(** ** Update: the selection, the engine, the finished search *)
(* ===================================================================== *)

Module UpdateFacts.
Import Search Engine Ui UiFacts GoInt GoIntFacts.
Local Open Scope Z_scope.


Ltac updated :=
  eexists _, _; (split; [reflexivity|]); cbn; try (unfold max_int; lia); try done.

Section Facts.
Context {Time TextInput KeyMsg InputCmd : Type}.
Variable textinput_Update : TextInput -> KeyMsg -> TextInput * InputCmd.
Variable textinput_Value : TextInput -> string.
Variable textinput_Focus : TextInput -> TextInput.
Variable textinput_Blur : TextInput -> TextInput.
Variable textinput_SetValue : TextInput -> string -> TextInput.
Variable textinput_New : TextInput.
Variable KeyMsg_String : KeyMsg -> string.
Variable sort_Slice :
  (SessionInfo Time -> SessionInfo Time -> bool) ->
  list (SessionInfo Time) -> list (SessionInfo Time).
Variable time_After : Time -> Time -> bool.
Variable time_zero : Time.
Variable exec_LookPath : string -> bool.
Variable clipboard_Copy : string -> option error.
Variable error_Error : error -> string.
Variable exec_Output : string -> list string -> string * option error.
Variable json_Unmarshal : string -> option (gmap string iface).
Variable time_Format : Time -> string -> string.
Variable fuzzy_FindFrom : string -> list string -> list fuzzy.Match.

Local Abbreviation Model := (@Ui.Model Time TextInput).
Local Abbreviation Msg := (@Ui.Msg Time KeyMsg).
Local Abbreviation Cmd := (@Ui.Cmd InputCmd).
Local Abbreviation Update :=
  (@Ui.Update Time TextInput KeyMsg InputCmd textinput_Update textinput_Value
     textinput_Focus textinput_Blur textinput_SetValue KeyMsg_String
     sort_Slice time_After exec_LookPath clipboard_Copy error_Error).
Local Abbreviation NewApp :=
  (@Ui.NewApp Time TextInput textinput_New time_zero).
Local Abbreviation updates :=
  (@Ui.updates Time TextInput KeyMsg InputCmd textinput_Update textinput_Value
     textinput_Focus textinput_Blur textinput_SetValue KeyMsg_String
     sort_Slice time_After exec_LookPath clipboard_Copy error_Error).
Local Abbreviation performSearch_always :=
  (@UiSearch.performSearch_always Time TextInput KeyMsg exec_Output
     json_Unmarshal time_Format fuzzy_FindFrom).
Local Abbreviation searchFile :=
  (Search.searchFile exec_Output json_Unmarshal
     (NewContentEngine exec_LookPath)).



(** A message the program can get: the indexes of the results of a
    finished search are not negative. *)
Definition msg_ok (msg : Msg) : Prop :=
  match msg with
  | searchCompleteMsg results _ _ =>
      Forall (fun r => 0 <= SessionIndex r) results
  | _ => True
  end.

Lemma Update_ok (now : Time) (m : Model) (msg : Msg) :
  0 <= selected m <= max_int -> msg_ok msg ->
  exists m' cmd,
    Update now m msg = Some (m', cmd) /\ 0 <= selected m' <= max_int.
Proof.
  intros Hsel Hmsg. destruct msg as [w h|loaded e|session e| |results query e|key|];
    cbn [Ui.Update].
  - updated.
  - cbn [sessions set_sessions set_err set_loading filteredSessions
         set_searchEngine set_filteredSessions].
    set (sorted := sort_Slice _ loaded).
    destruct sorted as [|first rest].
    + change (slice_len [] >? 0) with false. cbn iota.
      cbn [filteredSessions set_sessions set_err set_loading].
      destruct (filteredSessions m) as [|first rest] eqn:Hf.
      * updated.
      * change (slice_len (first :: rest) >? 0) with true. cbn iota.
        cbn. rewrite Hf. cbn. updated.
    + change (slice_len (first :: rest) >? 0) with true. cbn iota.
      cbn [filteredSessions set_filteredSessions].
      change (slice_len (first :: rest) >? 0) with true. cbn.
      updated.
  - destruct e; updated.
  - updated.
  - destruct (negb (eqs query (searchQuery m))); [updated|].
    destruct e as [e'|]; [updated|].
    cbn [sessions set_searchResults].
    rewrite (filter_sessions_omap (sessions m) results []) by exact Hmsg.
    cbn [app mbind option_bind].
    set (filtered := omap _ results).
    cbn [filteredSessions set_filteredSessions set_statusMsg set_statusTimer
         set_searchResults searchQuery].
    destruct filtered as [|first rest].
    + change (slice_len [] =? 0) with true.
      change (slice_len [] >? 0) with false. cbn. updated.
    + change (slice_len (first :: rest) =? 0) with false.
      cbn [filteredSessions set_filteredSessions set_statusMsg
           set_statusTimer set_searchResults].
      change (slice_len (first :: rest) >? 0) with true.
      cbn. updated.
  - destruct (searchState m).
    + destruct (eqs _ "ctrl+c" || eqs _ "q"); [updated|].
      destruct (eqs _ "/");
        [updated; destruct (negb _); cbn; lia|].
      destruct (eqs _ "up" || eqs _ "k"); [by apply key_up_ok|].
      destruct (eqs _ "down" || eqs _ "j"); [by apply key_down_ok|].
      destruct (eqs _ "enter").
      { unfold key_enter. destruct (fullSession m); [|updated].
        destruct (clipboard_Copy _); updated. }
      destruct (eqs _ "r"); [|updated].
      unfold key_refresh. updated.
    + destruct (eqs _ "esc"); [updated|].
      destruct (eqs _ "tab" || eqs _ "enter").
      { destruct (negb (eqs (searchQuery m) "")); updated. }
      destruct (textinput_Update _ _) as [input cmd].
      cbn [searchInput set_searchInput searchQuery set_searchQuery].
      destruct (negb (eqs _ "")); updated.
    + destruct (eqs _ "ctrl+c" || eqs _ "q"); [updated|].
      destruct (eqs _ "esc"); [updated|].
      destruct (eqs _ "/");
        [updated; destruct (negb _); cbn; lia|].
      destruct (eqs _ "up" || eqs _ "k"); [by apply key_up_ok|].
      destruct (eqs _ "down" || eqs _ "j"); [by apply key_down_ok|].
      destruct (eqs _ "enter").
      { unfold key_enter. destruct (fullSession m); [|updated].
        destruct (clipboard_Copy _); updated. }
      destruct (eqs _ "r"); [|updated].
      unfold key_refresh. updated.
  - updated.
Qed.

(** The same over a sequence of messages. *)
Lemma updates_ok (msgs : list (Time * Msg)) (m : Model) :
  0 <= selected m <= max_int ->
  Forall (fun timed => msg_ok (snd timed)) msgs ->
  exists m', updates msgs m = Some m' /\ 0 <= selected m' <= max_int.
Proof.
  intros Hsel Hmsgs. revert m Hsel.
  induction Hmsgs as [|[now msg] rest Hmsg Hrest IH]; intros m Hsel.
  - by exists m.
  - cbn [Ui.updates].
    destruct (Update_ok now m msg Hsel Hmsg) as (m' & cmd & -> & Hsel').
    cbn. by apply IH.
Qed.

(** The engine of the model searches the sessions of the model, unless
    the model has lost its sessions since the engine was made. *)
Definition engine_ok (m : Model) : Prop :=
  match searchEngine m with
  | Some e =>
      engine_content e = NewContentEngine exec_LookPath /\
      (sessions m = [] \/ engine_sessions e = sessions m)
  | None => sessions m = []
  end.

Definition same_engine (m m' : Model) : Prop :=
  sessions m' = sessions m /\ searchEngine m' = searchEngine m.

Lemma same_engine_ok (m m' : Model) :
  same_engine m m' -> engine_ok m -> engine_ok m'.
Proof. unfold engine_ok. by intros [-> ->]. Qed.

Lemma ensureVisible_same_engine (m : Model) : same_engine m (ensureVisible m).
Proof. unfold ensureVisible. by repeat case_match. Qed.

Lemma load_selected_same_engine (m m' : Model) (cmd : Cmd) :
  load_selected (InputCmd := InputCmd) m = Some (m', cmd) -> m' = m.
Proof.
  unfold load_selected. intros H.
  destruct (_ <? _); [|by simplify_eq].
  destruct (at_index _ _); [|discriminate]. by simplify_eq/=.
Qed.

Lemma Update_same_engine (now : Time) (m m' : Model) (msg : Msg) (cmd : Cmd) :
  Update now m msg = Some (m', cmd) ->
  same_engine m m' \/
  exists loaded e, msg = sessionsLoadedMsg loaded e.
Proof.
  destruct msg as [w h|loaded e|session e| |results query e|key|];
    [|right; by eauto|..]; intros H; left; cbn [Ui.Update] in H.
  - by simplify_eq.
  - destruct e; by simplify_eq.
  - by simplify_eq.
  - destruct (negb _); [by simplify_eq|].
    destruct e; [by simplify_eq|].
    destruct (filter_sessions _ _ _) as [filtered|]; [|discriminate].
    cbn in H. repeat (case_match; try discriminate);
      try (match type of H with
           | (?x ≫= _) = _ => destruct x; [|discriminate]
           end);
      by simplify_eq/=.
  - unfold key_up, key_down, key_enter, key_refresh, enterSearchMode in H.
    repeat (case_match; try discriminate);
      try (by simplify_eq/=);
      try (apply load_selected_same_engine in H as ->;
           destruct (ensureVisible_same_engine
                       (set_selected m (GoInt.sub (selected m) 1)));
           by split);
      try (apply load_selected_same_engine in H as ->;
           destruct (ensureVisible_same_engine
                       (set_selected m (GoInt.add (selected m) 1)));
           by split).
  - by simplify_eq.
Qed.

Lemma Update_engine_ok (now : Time) (m m' : Model) (msg : Msg) (cmd : Cmd) :
  engine_ok m -> Update now m msg = Some (m', cmd) -> engine_ok m'.
Proof.
  intros Hok H.
  destruct (Update_same_engine now m m' msg cmd H) as [Hsame|(loaded & e & ->)];
    [by eapply same_engine_ok|].
  cbn [Ui.Update] in H.
  cbn [sessions set_sessions set_err set_loading filteredSessions
       set_searchEngine set_filteredSessions] in H.
  set (sorted := sort_Slice _ loaded) in H.
  destruct sorted as [|first rest].
  - change (slice_len [] >? 0) with false in H. cbn iota in H.
    assert (sessions m' = [] /\ searchEngine m' = searchEngine m) as [Hs He].
    { repeat (case_match; try discriminate);
        try (match type of H with
             | (?x ≫= _) = _ => destruct x; [|discriminate]
             end);
        by simplify_eq/=. }
    unfold engine_ok in *. rewrite Hs, He.
    destruct (searchEngine m);
      [destruct Hok as [Hc _]; split; [exact Hc|by left]|done].
  - change (slice_len (first :: rest) >? 0) with true in H. cbn iota in H.
    cbn [filteredSessions set_filteredSessions set_selected
         set_scrollOffset] in H.
    change (slice_len (first :: rest) >? 0) with true in H. cbn iota in H.
    change (at_index (first :: rest) 0) with (Some first) in H.
    cbn in H. simplify_eq. unfold engine_ok. cbn. split; [done|by right].
Qed.

Lemma updates_engine_ok (msgs : list (Time * Msg)) (m m' : Model) :
  engine_ok m -> updates msgs m = Some m' -> engine_ok m'.
Proof.
  revert m. induction msgs as [|[now msg] rest IH]; intros m Hok H.
  - by simplify_eq/=.
  - cbn [Ui.updates] in H.
    destruct (Update now m msg) as [[m1 cmd]|] eqn:Hu; [|discriminate].
    cbn in H. eapply IH; [|exact H]. by eapply Update_engine_ok.
Qed.

Lemma NewApp_engine_ok (claudeDir version : string) :
  engine_ok (NewApp claudeDir version).
Proof. reflexivity. Qed.

(** The sessions at the indexes of expected results have matches. *)
Lemma sessions_of_results (q : string) (all : list (SessionInfo Time))
      (results : list SearchResult) :
  results ⊆+ ContentFacts.expected exec_Output json_Unmarshal
               (NewContentEngine exec_LookPath) q all ->
  Forall (fun r => 0 <= SessionIndex r) results /\
  Forall (fun session =>
            session ∈ all /\
            exists matches,
              searchFile q (FilePath session) = Some (matches, None) /\
              matches <> [])
         (omap (fun r => at_index all (SessionIndex r)) results).
Proof.
  intros Hsub.
  assert (forall r, r ∈ results ->
            exists i session matches,
              all !! i = Some session /\
              searchFile q (FilePath session) = Some (matches, None) /\
              matches <> [] /\ SessionIndex r = Z.of_nat i) as Hr.
  { intros r Hin.
    assert (r ∈ ContentFacts.expected exec_Output json_Unmarshal
                  (NewContentEngine exec_LookPath) q all) as Hexp
      by (eapply elem_of_submseteq; [exact Hin|exact Hsub]).
    apply ContentFacts.elem_of_expected
      in Hexp as (i & session & matches & Hs & Hsf & Hlen & ->).
    exists i, session, matches. repeat split; try done.
    intros ->. discriminate. }
  split; apply Forall_forall.
  - intros r (i & _ & _ & _ & _ & _ & ->)%Hr. lia.
  - intros session (r & Hin & Hat)%list_elem_of_omap.
    destruct (Hr r Hin) as (i & session' & matches & Hs & Hsf & Hne & Hi).
    rewrite Hi, ParseFacts.at_index_lookup, Nat2Z.id, Hs in Hat by lia.
    injection Hat as <-. split; [by eapply list_elem_of_lookup_2|].
    by exists matches.
Qed.

End Facts.
End UpdateFacts.

(* ##################################################################### *)
(** * Part III: the properties of the specification *)
(* ##################################################################### *)

Import Search.

Section ContentClaims.
Context {Time : Type}.
Variable exec_LookPath : string -> bool.
Variable exec_Output : string -> list string -> string * option error.
Variable json_Unmarshal : string -> option (gmap string iface).

Local Abbreviation SearchContent_always :=
  (Search.SearchContent_always exec_Output json_Unmarshal).
Local Abbreviation searchFile := (Search.searchFile exec_Output json_Unmarshal).
Local Abbreviation expected := (ContentFacts.expected exec_Output json_Unmarshal).

(** C1, as amended. Whatever the context, the query, the sessions and the
    scheduling of the goroutines, SearchContent ends, and when it returns a
    list: every result has a non-empty Matches sequence; no SessionIndex
    appears twice; every result carries the position of its session in the
    input as SessionIndex and that session's ID as SessionID; and no
    SessionID appears twice provided the IDs of the input sessions are
    pairwise distinct. *)
Theorem C1_content_results_keyed_by_position
        (c : contentEngine) (ctx : context) (q : string)
        (sessions : list (SessionInfo Time)) :
  SearchContent_always c q sessions ctx
    (fun o => forall results err,
       o = Returns results err ->
       Forall (fun r => Matches r <> []) results /\
       NoDup (SessionIndex <$> results) /\
       Forall (fun r => exists session,
                   at_index sessions (SessionIndex r) = Some session /\
                   SessionID r = ID session) results /\
       (NoDup (ID <$> sessions) -> NoDup (SessionID <$> results))).
Proof.
  unfold Search.SearchContent_always.
  eapply ContentFacts.ends_with_mono;
    [|apply ContentFacts.SearchContent_returns_expected].
  intros o Ho results err ->.
  eapply ContentFacts.submseteq_expected. by eapply Ho.
Qed.

(** C8. With a context that is never done, an engine with at least one
    worker and searches that do not panic: when the tool fails for the file
    of session [j] (it exits with a status other than 0 and 1, or does not
    start), SearchContent still ends with a nil error; it returns no result
    for session [j], and it returns the result of every session whose file
    was searched without error and holds a match; these are all of its
    results. *)
Theorem C8_provider_failure_is_isolated
        (c : contentEngine) (q : string) (sessions : list (SessionInfo Time))
        (j : nat) (failing : SessionInfo Time) (output : string) (e : error) :
  (0 < maxWorkers c)%Z ->
  ContentFacts.no_panic exec_Output json_Unmarshal c q sessions ->
  sessions !! j = Some failing ->
  exec_Output (rgPath c) (rg_args q (FilePath failing)) = (output, Some e) ->
  e <> ExitError 1 ->
  SearchContent_always c q sessions Background
    (fun o => exists results,
       o = Returns results None /\
       (forall r, r ∈ results -> SessionIndex r <> Z.of_nat j) /\
       (forall i session matches,
          sessions !! i = Some session ->
          searchFile c q (FilePath session) = Some (matches, None) ->
          matches <> [] ->
          {| SessionID := ID session; SessionIndex := Z.of_nat i;
             Matches := matches;
             Score := Float64.of_int (slice_len matches) |} ∈ results) /\
       results ≡ₚ expected c q sessions).
Proof.
  intros Hpos Hnp Hj Hout He.
  unfold Search.SearchContent_always.
  eapply ContentFacts.ends_with_mono;
    [|by apply ContentFacts.SearchContent_background_exact].
  intros o (results & -> & Hperm). exists results.
  split; [reflexivity|]. split; [|split; [|exact Hperm]].
  - intros r Hr Hidx. rewrite Hperm in Hr.
    apply ContentFacts.elem_of_expected
      in Hr as (i & session & matches & Hs & Hsf & Hlen & ->).
    cbn in Hidx. apply Nat2Z.inj in Hidx. subst i.
    rewrite Hj in Hs. injection Hs as <-.
    rewrite (SearchFileFacts.searchFile_failure _ _ c q _ output e Hout He) in Hsf.
    discriminate.
  - intros i session matches Hs Hsf Hne. rewrite Hperm.
    apply ContentFacts.elem_of_expected. exists i, session, matches.
    repeat split; try assumption.
    destruct matches; [done|reflexivity].
Qed.

(** C4, as amended. When the tool is not found, every run of it fails to
    start, and the engine treats that like any other failure of a search:
    whatever error [e] every run of the tool ends in (not found, an abnormal
    exit, or exit status 1 for no match), SearchContent with a context that
    is never done ends with zero results and a nil error, so the query
    degrades instead of failing, and nothing in the outcome tells a missing
    tool from files without matches. Building the engine reports nothing
    either: when no candidate path resolves, findRipgrep falls back to the
    bare name rg. *)
Theorem C4_missing_tool_gives_zero_results
        (c : contentEngine) (q : string) (sessions : list (SessionInfo Time))
        (e : error) :
  (0 < maxWorkers c)%Z ->
  (forall args, snd (exec_Output (rgPath c) args) = Some e) ->
  SearchContent_always c q sessions Background (fun o => o = Returns [] None)
  /\ ((forall path, exec_LookPath path = false) ->
      NewContentEngine exec_LookPath
      = {| maxWorkers := 4; rgPath := "rg" |}).
Proof.
  intros Hpos Hfail. split.
  - apply ContentFacts.SearchContent_nothing_found; [exact Hpos|].
    intros filePath. by eapply SearchFileFacts.searchFile_every_run_fails.
  - intros Hnone. unfold NewContentEngine, findRipgrep. cbn.
    by rewrite !Hnone.
Qed.

(** C7. When the tool exits with status 1, searchFile returns an empty
    match list and no error. *)
Theorem C7_exit_status_1_is_no_match
        (c : contentEngine) (query filePath output : string) :
  exec_Output (rgPath c) (rg_args query filePath)
    = (output, Some (ExitError 1)) ->
  searchFile c query filePath = Some ([], None).
Proof. apply SearchFileFacts.searchFile_no_matches. Qed.

End ContentClaims.

Section FilterClaims.
Context {Time : Type}.
Variable time_Format : Time -> string -> string.
Variable fuzzy_FindFrom : string -> list string -> list fuzzy.Match.

Local Abbreviation Filter := (Search.Filter time_Format fuzzy_FindFrom).

(** C5. For every session collection, Filter with the empty query returns
    exactly one result per session, in input order: the result at position
    [i] has the ID of the session at position [i], SessionIndex [i],
    Score 1.0 and no Matches. *)
Theorem C5_empty_query_shows_every_session (sessions : list (SessionInfo Time)) :
  Filter "" sessions
  = Some (imap (fun i session =>
                  {| SessionID := ID session;
                     SessionIndex := Z.of_nat i;
                     Matches := [];
                     Score := 1.0%float |})
               sessions).
Proof. apply FilterFacts.Filter_empty_query. Qed.

(** C3, as amended. For a non-empty query, Filter returns one result per
    match the matcher reports, in the order the matcher reports them: the
    k-th result carries the Index of the k-th match as SessionIndex, its
    Score converted to float64, the ID of the session at that index and one
    Match per matched position. Filter imposes no order of its own: its list
    is sorted by Score descending with ties by ascending SessionIndex
    exactly when the matcher's output is; and it returns (it does not panic)
    whenever every reported index is a position of the input. *)
Theorem C3_filter_keeps_the_matchers_order
        (query : string) (sessions : list (SessionInfo Time)) :
  query <> ""%string ->
  let matches :=
    fuzzy_FindFrom query (map (sessionSource_String time_Format) sessions) in
  (forall results,
      Filter query sessions = Some results ->
      Forall2 (FilterFacts.built_from sessions) matches results /\
      ranked results = FilterFacts.ranked_matches matches) /\
  (FilterFacts.indexes_in_range sessions matches ->
   is_Some (Filter query sessions)).
Proof.
  intros Hq matches.
  destruct (FilterFacts.Filter_matcher_order time_Format fuzzy_FindFrom
              query sessions Hq) as [Horder Hsome].
  split; [|exact Hsome].
  intros results Hres. split; [by apply Horder|].
  eapply FilterFacts.built_from_ranked. by apply Horder.
Qed.

End FilterClaims.

Section ExtractClaims.
Import GoInt Strings Extract ExtractFacts.
Local Open Scope Z_scope.

(** C10. For every text (of a length a Go string can have) and every match
    span with 0 <= start <= end <= len(text), extractContext returns a
    string: none of the slice expressions it evaluates is out of bounds. *)
Theorem C10_extractContext_is_total (text : string) (matchStart matchEnd : Z) :
  fits_int text ->
  0 <= matchStart <= matchEnd -> matchEnd <= len text ->
  is_Some (extractContext text matchStart matchEnd).
Proof. apply extractContext_total. Qed.

End ExtractClaims.

(* ===================================================================== *)
(** ** The properties at work in the concrete world *)
(* ===================================================================== *)

Section Instances.
Import Example Strings Extract ExtractFacts.

Example searchFile_oauth :
  searchFile tool decode one_worker "OAuth" "/s/oauth.jsonl"
  = Some ([oauth_match], None).
Proof. vm_compute. reflexivity. Qed.


Example ScanLines_rg_output :
  bufio.ScanLines rg_output = [begin_line; match_line; noise_line; end_line].
Proof. vm_compute. reflexivity. Qed.

Example ScanLines_carriage_returns :
  bufio.ScanLines ("a" +:+ String "013"%char nl +:+ nl +:+ "b")
  = ["a"; ""; "b"]%string.
Proof. vm_compute. reflexivity. Qed.

Example to_int_truncates :
  Float64.to_int 60%float = 60%Z /\ Float64.to_int 1.5%float = 1%Z /\
  Float64.to_int (-1.5)%float = (-1)%Z /\ Float64.to_int 0%float = 0%Z /\
  Float64.to_int infinity = GoInt.min_int.
Proof. vm_compute. repeat split; reflexivity. Qed.

Example of_int_exact :
  Float64.of_int 3 = 3%float /\ Float64.of_int (-2) = (-2)%float.
Proof. vm_compute. split; reflexivity. Qed.

Example straddle_offsets :
  Strings.Index straddling_line (jstr "content" +:+ ":" +:+ dquote) = 1%Z /\
  slice straddling_line 16 19 = Some ("se" +:+ dquote) /\
  extractContext straddling_line 16 19 = Some "please"%string /\
  genericContext straddling_line 16 19 = Some straddling_line.
Proof. vm_compute. auto. Qed.


(** The claim C1 as it was stated fails for SessionID: two sessions of the
    input that share an ID (the same file name in two directories) both
    match, and the returned list holds that SessionID twice. *)
Lemma C1_shared_id_appears_twice :
  exists results,
    SearchContent_may tool decode engine "OAuth" [s_oauth; s_backup]
      Background (Returns results None) /\
    ~ NoDup (SessionID <$> results).
Proof.
  exists [oauth_result 0; oauth_result 1]. split.
  - exists [ Caller false; Caller false; Caller false;
             Worker 0; Worker 0; Worker 0; Worker 1; Worker 1; Worker 1;
             Worker 0; Worker 1; Worker 2; Worker 3;
             Closer; Caller false; Caller false; Caller false ].
    eexists. split; [vm_compute; reflexivity|reflexivity].
  - cbn. intros Hnd. apply NoDup_cons in Hnd as [Hin _].
    apply Hin. by left.
Qed.

(** C2 fails on the code: the deadline passes after both jobs are queued,
    while the first file is searched; the worker sends what it found and
    returns at its next job, and the call returns the one result it has with
    a nil error, where the claim has it return the cancellation error and no
    result. With no deadline both sessions are returned. *)
Lemma C2_deadline_between_jobs_returns_partial_results :
  exists schedule st,
    In Expire schedule /\
    run tool decode engine "OAuth" [s_oauth; s_backup] schedule
      (initial engine (Pending DeadlineExceeded)) = Some st /\
    st_ctx st = Done DeadlineExceeded /\
    outcome_of st = Some (Returns [oauth_result 0] None) /\
    ContentFacts.expected tool decode engine "OAuth" [s_oauth; s_backup]
    = [oauth_result 0; oauth_result 1].
Proof.
  exists [ Caller false; Caller false; Caller false;
           Worker 0; Worker 0; Expire; Worker 0;
           Worker 0; Worker 0; Worker 1; Worker 2; Worker 3;
           Closer; Caller false; Caller false ].
  eexists. split; [cbn; tauto|].
  split; [vm_compute; reflexivity|].
  split; [reflexivity|]. split; [reflexivity|].
  vm_compute. reflexivity.
Qed.

(** The sibling path: when the caller's [select] takes the case of
    [ctx.Done()] in the queueing loop, the call returns the cancellation
    error and no result. *)
Example cancelled_while_queueing :
  exists st,
    run tool decode engine "OAuth" [s_oauth; s_backup] [Caller false; Caller true]
      (initial engine (Done Canceled)) = Some st /\
    outcome_of st = Some (Returns [] (Some Canceled)).
Proof. eexists. split; [vm_compute; reflexivity|reflexivity]. Qed.

(** With both cases of the [select] ready, the send may be taken every time:
    a call with a context that is done from the start can queue every job,
    have its workers return at their first job, and end with no result and a
    nil error. *)
Example cancelled_from_the_start_may_return_nil_nil :
  exists st,
    run tool decode engine "OAuth" [s_oauth]
      [ Caller false; Caller false; Worker 0; Worker 0;
        Worker 1; Worker 2; Worker 3; Closer; Caller false ]
      (initial engine (Done Canceled)) = Some st /\
    outcome_of st = Some (Returns [] None).
Proof. eexists. split; [vm_compute; reflexivity|reflexivity]. Qed.

(** The matcher on two equal source strings: one score, the later string
    first. *)
Example FindFrom_on_equal_strings :
  fuzzy.FindFrom "o" (map (sessionSource_String no_format) [s_oauth; s_backup])
  = Some [ {| fuzzy.Str := "oauth "; fuzzy.Index := 1;
              fuzzy.MatchedIndexes := [0%Z]; fuzzy.Score := 5 |};
           {| fuzzy.Str := "oauth "; fuzzy.Index := 0;
              fuzzy.MatchedIndexes := [0%Z]; fuzzy.Score := 5 |} ].
Proof. vm_compute. reflexivity. Qed.

(** The claim C3 as it was stated fails on a tie. Two sessions with the
    same ID and the same time give the matcher two equal strings, which it
    scores alike; the stable sort of the matcher, whose Less is
    [Score >=], moves the later one to the front; and Filter returns the
    results in the matcher's order: SessionIndex 1 before SessionIndex 0
    under one Score, the tie not broken by ascending SessionIndex. *)
Lemma C3_filter_returns_a_tie_in_reverse :
  exists later earlier,
    Filter no_format matcher "o" [s_oauth; s_backup] = Some [later; earlier] /\
    SessionIndex later = 1%Z /\ SessionIndex earlier = 0%Z /\
    Score later = Score earlier /\
    ranked [later; earlier] = false.
Proof.
  eexists _, _. split; [vm_compute; reflexivity|].
  repeat split; vm_compute; reflexivity.
Qed.

Lemma C3_witness :
  let matches :=
    matcher "o" (map (sessionSource_String no_format) [s_oauth; s_backup]) in
  (forall results,
      Filter no_format matcher "o" [s_oauth; s_backup] = Some results ->
      Forall2 (FilterFacts.built_from [s_oauth; s_backup]) matches results /\
      ranked results = FilterFacts.ranked_matches matches) /\
  (FilterFacts.indexes_in_range [s_oauth; s_backup] matches ->
   is_Some (Filter no_format matcher "o" [s_oauth; s_backup])).
Proof.
  apply (C3_filter_keeps_the_matchers_order no_format matcher "o"
           [s_oauth; s_backup]).
  discriminate.
Defined.

(** The claim C4 as it was stated fails: without the tool, and with a tool
    that fails on every file, the engine ends in the same outcome, zero
    results and a nil error; nothing is surfaced to the caller. *)
Lemma C4_missing_tool_is_not_told_apart :
  SearchContent_always no_tool decode engine "OAuth" [s_oauth; s_webpack]
    Background (fun o => o = Returns [] None) /\
  SearchContent_always failing_tool decode engine "OAuth"
    [s_oauth; s_webpack] Background (fun o => o = Returns [] None).
Proof.
  split; (apply ContentFacts.SearchContent_nothing_found; [done|]);
    intros filePath; eexists; reflexivity.
Qed.

Lemma C4_witness :
  SearchContent_always no_tool decode engine "OAuth" [s_oauth; s_webpack]
    Background (fun o => o = Returns [] None)
  /\ ((forall path, (fun _ : string => false) path = false) ->
      NewContentEngine (fun _ => false) = {| maxWorkers := 4; rgPath := "rg" |}).
Proof.
  apply (C4_missing_tool_gives_zero_results (fun _ => false) no_tool decode
           engine "OAuth" [s_oauth; s_webpack] ErrNotFound).
  - reflexivity.
  - intros args. reflexivity.
Defined.

Lemma C7_witness :
  searchFile tool decode one_worker "OAuth" "/s/webpack.jsonl" = Some ([], None).
Proof.
  apply (C7_exit_status_1_is_no_match tool decode one_worker "OAuth"
           "/s/webpack.jsonl" "").
  reflexivity.
Defined.

Lemma C8_witness :
  SearchContent_always tool decode engine "OAuth"
    [s_oauth; s_gone; s_webpack] Background
    (fun o => exists results,
       o = Returns results None /\
       (forall r, r ∈ results -> SessionIndex r <> Z.of_nat 1) /\
       (forall i session matches,
          [s_oauth; s_gone; s_webpack] !! i = Some session ->
          searchFile tool decode engine "OAuth" (FilePath session)
          = Some (matches, None) ->
          matches <> [] ->
          {| SessionID := ID session; SessionIndex := Z.of_nat i;
             Matches := matches;
             Score := Float64.of_int (slice_len matches) |} ∈ results) /\
       results ≡ₚ ContentFacts.expected tool decode engine "OAuth"
                    [s_oauth; s_gone; s_webpack]).
Proof.
  apply (C8_provider_failure_is_isolated tool decode engine "OAuth"
           [s_oauth; s_gone; s_webpack] 1 s_gone "" (ExitError 2)).
  - reflexivity.
  - intros [|[|[|i]]] session; cbn; intros Heq; try discriminate;
      injection Heq as <-; vm_compute; discriminate.
  - reflexivity.
  - reflexivity.
  - discriminate.
Defined.

Lemma C10_witness : is_Some (extractContext example_line 60 65).
Proof.
  apply C10_extractContext_is_total.
  - vm_compute. discriminate.
  - lia.
  - vm_compute. discriminate.
Defined.

Lemma escaped_field : embedded_field escaped_line 12 29.
Proof.
  exists 1%nat, 17%nat.
  split; [apply StringFacts.index_nat_first; vm_compute; reflexivity|].
  repeat split; reflexivity.
Qed.

Lemma escaped_located : located_field escaped_line 12 17.
Proof.
  exists 1%nat, 5%nat.
  split; [apply StringFacts.index_nat_first; vm_compute; reflexivity|].
  split; [reflexivity|].
  split; [apply StringFacts.index_nat_first; vm_compute; reflexivity|].
  reflexivity.
Qed.

(** C6, a divergence of the code from the claim. The claim gives a match
    inside the embedded content field the window within that field. In the
    record whose content is say "OAuth" now, with its two double quotes
    escaped, the field spans the bytes 12 to 29 and the match on OAuth,
    the bytes 18 to 23, lies inside of it: the claim's snippet is the text
    of the field. extractContext ends the field at the first double quote,
    the escaped one at byte 17, finds the match outside of it and returns
    the window over the whole raw line: the record itself, with the key of
    its envelope. *)
Theorem C6_escaped_quote_ends_the_field_early :
  slice escaped_line 18 23 = Some "OAuth"%string /\
  embedded_field escaped_line 12 29 /\
  (12 <= 18 /\ 23 <= 29)%Z /\
  window 50 (field_text escaped_line 12 29) (18 - 12) (23 - 12)
  = escaped_content /\
  located_field escaped_line 12 17 /\
  extractContext escaped_line 18 23 = Some escaped_line /\
  Contains escaped_line content_key = true /\
  extractContext escaped_line 18 23 <> Some escaped_content.
Proof.
  split; [reflexivity|]. split; [exact escaped_field|]. split; [lia|].
  split; [reflexivity|]. split; [exact escaped_located|].
  split; [reflexivity|]. split; [reflexivity|]. vm_compute. discriminate.
Qed.

Lemma long_record_length : len long_record = 65536%Z.
Proof. unfold long_record. rewrite LongLines.len_doubled. reflexivity. Qed.

Lemma long_record_is_one_line : StringsLibFacts.free_of ScannerCut.LF long_record.
Proof.
  apply LongLines.free_of_doubled. intros [|[|i]]; discriminate.
Qed.

(** C9, a divergence of the code from the claim. The claim has every line
    of the tool's output that fails to parse skipped on its own, and the
    parsing go on with the next line. The tool prints a match record, a
    line of 65536 bytes that is no record, and a second match record. The
    scanner of searchFile keeps the default buffer of 64 KiB: at the long
    line it stops for good, and searchFile, which never looks at the
    scanner's error, returns the first Match alone with a nil error. With
    a short line that fails to parse in the place of the long one it
    returns both. *)
Theorem C9_overlong_line_ends_the_parsing :
  len long_record = 65536%Z /\
  decode long_record = None /\
  decode noise_line = None /\
  searchFile long_tool decode engine "OAuth" "/s/oauth.jsonl"
  = Some ([oauth_match], None) /\
  searchFile short_tool decode engine "OAuth" "/s/oauth.jsonl"
  = Some ([oauth_match; oauth_match], None).
Proof.
  split; [exact long_record_length|].
  split; [vm_compute; reflexivity|]. split; [reflexivity|].
  split; [|vm_compute; reflexivity].
  rewrite (SearchFileFacts.searchFile_output long_tool decode engine "OAuth"
             "/s/oauth.jsonl" long_output eq_refl).
  rewrite ScannerFacts.ScanLines_default. unfold long_output.
  rewrite (ScannerCut.ScanLines_cut bufio.MaxScanTokenSize
             (match_line +:+ nl) long_record).
  - vm_compute. reflexivity.
  - right. by exists match_line.
  - exact long_record_is_one_line.
  - rewrite long_record_length. vm_compute. discriminate.
  - reflexivity.
  - apply ScannerCut.overlong_inner.
Qed.

End Instances.

(* ##################################################################### *)
(** * Part IV: properties of the rest of the program *)
(* ##################################################################### *)


(** ** Paths and session IDs *)

Section PathProperties.
Import Strings StringsLib Filepath BytesFacts StringsLibFacts FilepathFacts
       MainFacts Main.

(** X1. The name convertToClaudePath gives a path always starts with a dash
    and holds no separator, so converting it again changes nothing; and a
    separator and a dash at the same place give the same name. *)
Theorem convertToClaudePath_is_flat (path a b : string) :
  HasPrefix (convertToClaudePath path) "-" = true /\
  Contains (convertToClaudePath path) "/" = false /\
  convertToClaudePath (convertToClaudePath path) = convertToClaudePath path /\
  convertToClaudePath (a +:+ "/" +:+ b) = convertToClaudePath (a +:+ "-" +:+ b).
Proof.
  split; [apply prefix_convert|]. split; [|split].
  - apply (Contains_one_false Separator), free_of_convert.
  - rewrite (convertToClaudePath_dashed (convertToClaudePath path)).
    rewrite (dashed_free _ (free_of_convert path)).
    by rewrite prefix_convert.
  - rewrite !convertToClaudePath_dashed. unfold dashed.
    by rewrite !map_bytes_append.
Qed.

(** X2. The ID of the transcript [id].jsonl is [id], in whatever directory
    the file is named; a name without the suffix is its own ID. *)
Theorem GetSessionID_strips_directory_and_suffix (dir id : string) :
  Contains id "/" = false ->
  Model.GetSessionID (dir +:+ "/" +:+ id +:+ ".jsonl") = id /\
  Model.GetSessionID (id +:+ ".jsonl") = id /\
  (id <> ""%string -> HasSuffix id ".jsonl" = false ->
   Model.GetSessionID id = id).
Proof.
  intros Hf%(Contains_one_false Separator). split; [|split].
  - by apply ModelFacts.GetSessionID_under.
  - unfold Model.GetSessionID. rewrite Base_name.
    + apply TrimSuffix_append.
    + by destruct id.
    + apply free_of_append; [done|apply ModelFacts.free_of_jsonl].
  - intros Hne Hs. unfold Model.GetSessionID. rewrite Base_name by done.
    unfold TrimSuffix. by rewrite Hs.
Qed.

End PathProperties.

(** ** The parser *)

Section ParserProperties.
Context {Time : Type}.
Variable os_ReadDir : string -> list (DirEntry Time) + error.
Variable os_Open : string -> string + error.
Variable json_Unmarshal : string -> option (gmap string iface).
Variable strings_TrimSpace : string -> string.
Variable time_Parse : string -> string -> option Time.
Variable time_zero : Time.

Import Search.

Local Abbreviation ListSessions := (Parser.ListSessions os_ReadDir).
Local Abbreviation hasJSONLFiles := (Main.hasJSONLFiles os_ReadDir).
Local Abbreviation ParseFullSession :=
  (Parser.ParseFullSession os_Open json_Unmarshal strings_TrimSpace
     time_Parse time_zero).

(** X3. ListSessions returns the error of a directory it cannot read, with no
    session. For a directory it can read, whose entries have distinct
    names as a directory's entries do, it returns nil as error and one
    session per regular file whose name ends in .jsonl and whose Info
    succeeds, in the order of the directory: directories, other files and
    files that vanish are passed over; no two sessions have the same ID;
    and the ID of each session is again the ID of its FilePath. *)
Theorem ListSessions_lists_each_transcript_once
        (claudeDir : string) (entries : list (DirEntry Time)) :
  (forall err, os_ReadDir claudeDir = inr err ->
               ListSessions claudeDir = ([], Some err)) /\
  (os_ReadDir claudeDir = inl entries ->
   Forall (fun entry => ParserFacts.plain_name (entry_Name entry)) entries ->
   NoDup (entry_Name <$> entries) ->
   exists sessions,
     ListSessions claudeDir = (sessions, None) /\
     sessions = omap (ParserFacts.session_of claudeDir) entries /\
     NoDup (ID <$> sessions) /\
     Forall (fun session =>
               Model.GetSessionID (FilePath session) = ID session) sessions).
Proof.
  split.
  - intros err Herr. unfold Parser.ListSessions. by rewrite Herr.
  - intros Hread Hplain Hnd. eexists. unfold Parser.ListSessions.
    rewrite Hread, ParserFacts.list_entries_omap. cbn [app].
    split; [reflexivity|]. split; [reflexivity|]. split.
    + by apply ParserFacts.NoDup_session_ids.
    + apply Forall_forall. intros session Hin.
      apply list_elem_of_omap in Hin as (entry & Hin & Hs).
      rewrite Forall_forall in Hplain.
      eapply ListingFacts.session_of_path; [by apply Hplain|exact Hs].
Qed.

(** X4. The full session parsed from the file of a listed session has the ID
    the list gave it, so its resume command names the listed session. *)
Theorem ParseFullSession_keeps_the_listed_ID
        (claudeDir : string) (entries : list (DirEntry Time))
        (session : SessionInfo Time) (full : Model.FullSession Time) :
  os_ReadDir claudeDir = inl entries ->
  Forall (fun entry => ParserFacts.plain_name (entry_Name entry)) entries ->
  session ∈ fst (ListSessions claudeDir) ->
  ParseFullSession (FilePath session) = Some (inl full) ->
  Model.ID full = ID session /\
  Model.FilePath full = FilePath session /\
  Model.GetResumeCommand full = "claude --resume " +:+ ID session.
Proof.
  intros Hread Hplain Hin Hparse.
  unfold Parser.ListSessions in Hin.
  rewrite Hread, ParserFacts.list_entries_omap in Hin. cbn [fst app] in Hin.
  apply list_elem_of_omap in Hin as (entry & Hin & Hs).
  rewrite Forall_forall in Hplain.
  pose proof (ListingFacts.session_of_path _ _ _ (Hplain _ Hin) Hs) as Hid.
  unfold Parser.ParseFullSession in Hparse.
  destruct (os_Open (FilePath session)) as [file|err]; [|done].
  destruct (Parser.summary_of _) as [summary|]; [|done].
  destruct (Parser.last_raw _) as [lastRaw|]; [|done].
  cbn in Hparse. injection Hparse as <-.
  unfold Model.GetResumeCommand. cbn. by rewrite Hid.
Qed.

(** X5. hasJSONLFiles and ListSessions agree on what a transcript is: the
    extension test of the one and the suffix test of the other accept the
    same names. hasJSONLFiles is true exactly when the directory can be
    read and holds a regular file whose name ends in .jsonl; it is true
    whenever ListSessions finds a session there, and ListSessions finds a
    session whenever it is true and Info succeeds on the entries. *)
Theorem hasJSONLFiles_agrees_with_ListSessions (dir : string) :
  (forall name,
      String.eqb (Filepath.Ext name) ".jsonl"
      = StringsLib.HasSuffix name ".jsonl") /\
  (hasJSONLFiles dir = true <->
   exists entries entry,
     os_ReadDir dir = inl entries /\ entry ∈ entries /\
     entry_IsDir entry = false /\
     StringsLib.HasSuffix (entry_Name entry) ".jsonl" = true) /\
  (fst (ListSessions dir) <> [] -> hasJSONLFiles dir = true) /\
  (hasJSONLFiles dir = true ->
   (forall entries, os_ReadDir dir = inl entries ->
                    Forall (fun entry => is_Some (entry_ModTime entry)) entries) ->
   fst (ListSessions dir) <> []).
Proof.
  assert (hasJSONLFiles dir = true <->
          exists entries entry,
            os_ReadDir dir = inl entries /\ entry ∈ entries /\
            entry_IsDir entry = false /\
            StringsLib.HasSuffix (entry_Name entry) ".jsonl" = true) as Hiff.
  { unfold Main.hasJSONLFiles. destruct (os_ReadDir dir) as [entries|err].
    - rewrite ParserFacts.any_jsonl_spec. split.
      + intros (entry & H). by exists entries, entry.
      + intros (entries' & entry & [= <-] & H). by exists entry.
    - split; [done|]. by intros (? & ? & ? & _). }
  split; [|split; [exact Hiff|split]].
  - intros name. destruct (StringsLib.HasSuffix name ".jsonl") eqn:Hs.
    + by apply String.eqb_eq, FilepathFacts.Ext_jsonl.
    + apply String.eqb_neq. intros He%FilepathFacts.Ext_jsonl. congruence.
  - intros Hne. apply Hiff. unfold Parser.ListSessions in Hne.
    destruct (os_ReadDir dir) as [entries|err]; [|done].
    rewrite ParserFacts.list_entries_omap in Hne. cbn [fst app] in Hne.
    destruct (omap _ entries) as [|session rest] eqn:Hs; [done|].
    assert (session ∈ omap (ParserFacts.session_of dir) entries) as Hin
      by (rewrite Hs; apply list_elem_of_here).
    apply list_elem_of_omap in Hin as (entry & Hin & Hentry).
    exists entries, entry. split; [done|]. split; [done|].
    unfold ParserFacts.session_of in Hentry.
    destruct (entry_IsDir entry); [done|].
    by destruct (StringsLib.HasSuffix _ _).
  - intros (entries & entry & Hread & Hin & Hdir & Hs)%Hiff Hinfo.
    specialize (Hinfo entries Hread). rewrite Forall_forall in Hinfo.
    destruct (Hinfo entry Hin) as [modTime Hmod].
    unfold Parser.ListSessions.
    rewrite Hread, ParserFacts.list_entries_omap. cbn [fst app].
    intros Hnil.
    assert ({| ID := Model.GetSessionID (entry_Name entry);
               FilePath := FilepathClean.Join dir (entry_Name entry);
               LastActive := modTime |}
            ∈ omap (ParserFacts.session_of dir) entries) as Hmem.
    { apply list_elem_of_omap. exists entry. split; [done|].
      unfold ParserFacts.session_of. by rewrite Hdir, Hs, Hmod. }
    rewrite Hnil in Hmem. by apply elem_of_nil in Hmem.
Qed.

Import ParseFacts.

Local Abbreviation user_text :=
  (ParseFacts.user_text json_Unmarshal strings_TrimSpace).
Local Abbreviation is_message := (ParseFacts.is_message json_Unmarshal).
Local Abbreviation messages := (ParseFacts.messages json_Unmarshal).
Local Abbreviation stamp := (ParseFacts.stamp json_Unmarshal time_Parse).
Local Abbreviation cost := (ParseFacts.cost json_Unmarshal).

(** X6. The summary ParseFullSession builds is made of the last three user
    messages of the transcript (fewer when there are fewer; none gives the
    empty summary): a user message is the trimmed string content of a
    record of type user, unless it holds the words system-reminder; each
    one longer than 150 bytes is cut to its first 147 bytes and an
    ellipsis; they are joined by a bar between spaces. So the summary is
    never longer than 456 bytes, and no slice expression on the way is out
    of bounds. *)
Theorem ParseFullSession_summary_of_last_three
        (filePath file : string) :
  os_Open filePath = inl file ->
  (Strings.len file <= GoInt.max_int)%Z ->
  exists full,
    ParseFullSession filePath = Some (inl full) /\
    Model.Summary full
    = StringsLib.Join
        (shortened <$>
           last_three
             (omap user_text (bufioMax.ScanLines (1024 * 1024) file)))
        " | " /\
    (Strings.len (Model.Summary full) <= 456)%Z.
Proof.
  intros Hopen Hfile. eexists. split.
  - by apply ParseFacts.ParseFullSession_lines.
  - cbn. split; [reflexivity|]. apply len_summary.
Qed.

(** X7. ParseFullSession returns the error of a file it cannot open. From a
    file it opens it always returns a session with a nil error, whatever
    the lines hold: MessageCount is the number of lines that decode to a
    record of type user or assistant; LastRawMessages is the last line
    that is not empty, whole, or nothing when there is none; LastActive is
    the last time stamp that parses (the zero time when there is none);
    TotalCostUSD is the sum of the costs in the order of the lines. A line
    that does not decode only counts as a raw line. *)
Theorem ParseFullSession_reads_line_by_line (filePath : string) :
  (forall err, os_Open filePath = inr err ->
               ParseFullSession filePath = Some (inr err)) /\
  (forall file,
      os_Open filePath = inl file ->
      (Strings.len file <= GoInt.max_int)%Z ->
      let lines := bufioMax.ScanLines (1024 * 1024) file in
      exists full,
        ParseFullSession filePath = Some (inl full) /\
        Model.ID full = Model.GetSessionID filePath /\
        Model.FilePath full = filePath /\
        Model.MessageCount full = Z.of_nat (messages lines) /\
        Model.LastRawMessages full
        = option_list (last (filter (fun line => line <> ""%string) lines)) /\
        Model.LastActive full = default time_zero (last (omap stamp lines)) /\
        Model.TotalCostUSD full
        = fold_left PrimFloat.add (omap cost lines) 0%float).
Proof.
  split.
  - intros err Herr. unfold Parser.ParseFullSession. by rewrite Herr.
  - intros file Hopen Hfile lines. eexists. split.
    + by apply ParseFacts.ParseFullSession_lines.
    + cbn. repeat split. f_equal. f_equal. apply list_filter_iff.
      intros line. unfold nonempty.
      destruct (String.eqb_spec line ""); cbn; split; congruence.
Qed.

(** X8. The scanner of ParseFullSession stops at the first line of 1 MiB or
    more, and ParseFullSession does not look at the scanner's error: from
    a file that holds such a line it returns, with a nil error, what it
    returns for the file cut right before that line. *)
Theorem ParseFullSession_stops_at_an_overlong_line
        (os_Open' : string -> string + error)
        (filePath before long file : string) :
  (before = ""%string \/ exists a, before = a +:+ ScannerCut.newline) ->
  Strings.Contains long ScannerCut.newline = false ->
  (1024 * 1024 <= Strings.len long)%Z ->
  ScannerCut.overlong_input (1024 * 1024) before long file ->
  os_Open filePath = inl file ->
  os_Open' filePath = inl before ->
  ParseFullSession filePath
  = Parser.ParseFullSession os_Open' json_Unmarshal strings_TrimSpace
      time_Parse time_zero filePath.
Proof.
  intros Hbefore Hf%(StringsLibFacts.Contains_one_false ScannerCut.LF)
    Hlong Hin Hopen Hopen'.
  unfold Parser.ParseFullSession. rewrite Hopen, Hopen'.
  by rewrite (ScannerCut.ScanLines_cut _ before long file).
Qed.

End ParserProperties.

(** ** The content search *)

Section SearchProperties.
Context {Time : Type}.
Variable exec_Output : string -> list string -> string * option error.
Variable json_Unmarshal : string -> option (gmap string iface).

Import Search.

Local Abbreviation SearchContent_always :=
  (Search.SearchContent_always exec_Output json_Unmarshal).
Local Abbreviation searchFile := (Search.searchFile exec_Output json_Unmarshal).

(** X9. When the tool exits with status 0, searchFile returns what the
    scanner loop makes of the lines the scanner delivers, which are the
    lines of the output before the first one of 64 KiB or more, and the
    loop treats each of them on its own: the matches it returns are the
    matches of these lines, one line after the other. A line that does not
    parse adds nothing and the loop goes on with the next line; so does a
    record whose type is not match; no line adds more than one Match; and
    a match record with its payload adds the Match made of its line
    number, its line text and the start and end of its first sub-match
    (with the context extracted from them). *)
Theorem searchFile_parses_the_delivered_lines :
  (forall c query filePath output,
      exec_Output (rgPath c) (rg_args query filePath) = (output, None) ->
      searchFile c query filePath
      = (fun found => (concat found, None))
          <$> mapM (SearchFileFacts.line_matches json_Unmarshal)
                (bufio.ScanLines output)) /\
  (forall lines,
      scan_records json_Unmarshal lines []
      = (fun found => concat found)
          <$> mapM (SearchFileFacts.line_matches json_Unmarshal) lines) /\
  (forall line,
      json_Unmarshal line = None ->
      SearchFileFacts.line_matches json_Unmarshal line = Some []) /\
  (forall line result,
      json_Unmarshal line = Some result ->
      result !! "type"%string <> Some (IString "match") ->
      SearchFileFacts.line_matches json_Unmarshal line = Some []) /\
  (forall line found,
      SearchFileFacts.line_matches json_Unmarshal line = Some found ->
      length found <= 1) /\
  (forall line result lineNumber text start end_ snippet,
      json_Unmarshal line = Some result ->
      SearchFileFacts.match_record result lineNumber text start end_ ->
      Extract.extractContext text (Float64.to_int start) (Float64.to_int end_)
        = Some snippet ->
      SearchFileFacts.line_matches json_Unmarshal line
      = Some [ {| Text := text;
                  LineNumber := Float64.to_int lineNumber;
                  StartOffset := Float64.to_int start;
                  EndOffset := Float64.to_int end_;
                  Context := snippet |} ]).
Proof.
  split; [|split; [|split; [|split; [|split]]]].
  - apply SearchFileFacts.searchFile_output.
  - intros lines. rewrite SearchFileFacts.scan_records_lines.
    by destruct (mapM _ _).
  - apply SearchFileFacts.line_matches_unparsed.
  - apply SearchFileFacts.line_matches_other_kind.
  - apply SearchFileFacts.line_matches_at_most_one.
  - apply SearchFileFacts.line_matches_match.
Qed.

(** X10. The scanner of searchFile stops at the first line of the tool's
    output that has 64 KiB or more, and searchFile does not look at the
    scanner's error: from such an output it returns, with a nil error,
    the matches of the lines before that line only. *)
Theorem searchFile_stops_at_an_overlong_line
        (exec_Output' : string -> list string -> string * option error)
        (c : contentEngine) (query filePath before long output : string) :
  (before = ""%string \/ exists a, before = a +:+ ScannerCut.newline) ->
  Strings.Contains long ScannerCut.newline = false ->
  (64 * 1024 <= Strings.len long)%Z ->
  ScannerCut.overlong_input (64 * 1024) before long output ->
  exec_Output (rgPath c) (rg_args query filePath) = (output, None) ->
  exec_Output' (rgPath c) (rg_args query filePath) = (before, None) ->
  searchFile c query filePath
  = Search.searchFile exec_Output' json_Unmarshal c query filePath.
Proof.
  intros Hbefore Hf%(StringsLibFacts.Contains_one_false ScannerCut.LF)
    Hlong Hin Hout Hout'.
  unfold Search.searchFile. rewrite Hout, Hout'.
  rewrite !ScannerFacts.ScanLines_default.
  by rewrite (ScannerCut.ScanLines_cut _ before long output).
Qed.

(** X11. Whatever the context and the scheduling, every result SearchContent
    returns is the result of one session of the input: searchFile returned
    no error and at least one match for the file of that session, and the
    result carries the ID of the session, its position, those matches in
    the order searchFile gave them, and their number as Score. *)
Theorem SearchContent_results_are_those_of_searchFile
        (c : contentEngine) (ctx : context) (q : string)
        (sessions : list (SessionInfo Time)) :
  SearchContent_always c q sessions ctx
    (fun o => forall results err,
       o = Returns results err ->
       Forall (fun r =>
                 exists i session matches,
                   sessions !! i = Some session /\
                   searchFile c q (FilePath session) = Some (matches, None) /\
                   matches <> [] /\
                   r = {| SessionID := ID session;
                          SessionIndex := Z.of_nat i;
                          Matches := matches;
                          Score := Float64.of_int (slice_len matches) |})
              results).
Proof.
  unfold Search.SearchContent_always.
  eapply ContentFacts.ends_with_mono;
    [|apply ContentFacts.SearchContent_returns_expected].
  intros o Ho results err ->. apply Forall_forall. intros r Hr.
  assert (r ∈ ContentFacts.expected exec_Output json_Unmarshal c q sessions)
    as Hexp by (eapply elem_of_submseteq; [exact Hr|by eapply Ho]).
  apply ContentFacts.elem_of_expected
    in Hexp as (i & session & matches & Hs & Hsf & Hlen & ->).
  exists i, session, matches. repeat split; try done.
  intros ->. discriminate.
Qed.

(** X12. Whatever the context and the scheduling, SearchContent ends. The only
    error it ever returns is the error of the caller's context, once that
    context is done, and then with a nil result list; the failures of the
    tool never come back as an error. With no session to search it returns
    nil and a nil error even under a context that is done already. And it
    panics only if searchFile panics on the file of a session. *)
Theorem SearchContent_returns_only_the_contexts_error
        (c : contentEngine) (ctx : context) (q : string)
        (sessions : list (SessionInfo Time)) :
  SearchContent_always c q sessions ctx
    (fun o =>
       (forall results e,
           o = Returns results (Some e) ->
           results = [] /\ sessions <> [] /\
           (ctx = Done e \/ ctx = Pending e)) /\
       (sessions = [] -> o = Returns [] None) /\
       (o = Panics ->
        exists i session,
          sessions !! i = Some session /\
          searchFile c q (FilePath session) = None)).
Proof.
  unfold Search.SearchContent_always.
  eapply ContentFacts.ends_with_mono;
    [|apply OutcomeFacts.SearchContent_outcomes].
  intros o [(now & Hnow & Hok) Hexp]. split; [|split].
  - intros results e ->. destruct Hok as (-> & Hne & ->).
    split; [done|]. split; [done|].
    destruct Hnow as [<-|(e' & -> & [= ->])]; [by left|by right].
  - intros ->. destruct o as [results [e|]|].
    + by destruct Hok as (_ & Hne & _).
    + f_equal. specialize (Hexp results None eq_refl).
      by apply submseteq_nil_r in Hexp.
    + destruct Hok as (i & session & Hs & _). done.
  - intros ->. exact Hok.
Qed.

End SearchProperties.

Section SnippetProperties.
Import GoInt Strings Extract ExtractFacts WindowFacts.
Local Open Scope Z_scope.

(** X13. The two windows of extractContext, for a match span with
    0 <= start <= end <= len(text). The code takes for the field the bytes
    from right after the first key up to the next double quote byte,
    escaped or not. If it locates such a field and the match starts inside
    of it, the snippet is the window of 50 bytes before and after the
    match within that field, clipped to its bounds (a match that runs past
    its end is cut there), with an ellipsis prepended iff bytes of the
    field are left out on the left and appended iff bytes are left out on
    the right; otherwise (no field located, or the match starts outside of
    it) the snippet is the window of 30 bytes each side over the whole raw
    line, with the same ellipses. For the raw line of the example and the
    span of OAuth, the snippet is strictly shorter than the line, contains
    OAuth and does not contain the type member of the envelope. *)
Theorem extractContext_windows :
  (forall text matchStart matchEnd fs fe,
      fits_int text ->
      0 <= matchStart <= matchEnd -> matchEnd <= len text ->
      located_field text fs fe ->
      fs <= matchStart < fe ->
      extractContext text matchStart matchEnd
      = Some (window 50 (field_text text fs fe)
                (matchStart - fs) (matchEnd - fs))) /\
  (forall text matchStart matchEnd,
      fits_int text ->
      0 <= matchStart <= matchEnd -> matchEnd <= len text ->
      (no_located_field text \/
       exists fs fe, located_field text fs fe /\ ~ fs <= matchStart < fe) ->
      extractContext text matchStart matchEnd
      = Some (window 30 text matchStart matchEnd)) /\
  (exists snippet,
      slice example_line 60 65 = Some "OAuth"%string /\
      extractContext example_line 60 65 = Some snippet /\
      len snippet < len example_line /\
      Contains snippet "OAuth" = true /\
      Contains snippet type_message = false).
Proof.
  split; [|split].
  - intros text s e fs fe Hfit Hse He Hfield [Hge Hlt].
    rewrite (extractContext_located text fs fe) by done.
    destruct (Z.geb_spec s fs); [|lia]. destruct (Z.ltb_spec s fe); [|lia].
    reflexivity.
  - intros text s e Hfit Hse He [Hno|(fs & fe & Hfield & Hout)].
    + by apply extractContext_unlocated.
    + rewrite (extractContext_located text fs fe) by done.
      destruct (Z.geb_spec s fs); [|reflexivity].
      destruct (Z.ltb_spec s fe); [lia|reflexivity].
  - exists "I need help with OAuth implementation"%string.
    vm_compute. repeat split; reflexivity.
Qed.

(** X14. For a match span within the line, the snippet extractContext returns
    is never longer than the match, 50 bytes on each side and two
    ellipses; and it shows the matched bytes, unless the match starts
    inside the located content field and runs past its end. *)
Theorem extractContext_snippet_is_short_and_shows_the_match
        (text : string) (matchStart matchEnd : Z) (snippet : string) :
  fits_int text ->
  0 <= matchStart <= matchEnd -> matchEnd <= len text ->
  extractContext text matchStart matchEnd = Some snippet ->
  len snippet <= (matchEnd - matchStart) + 106 /\
  ((forall fs fe, located_field text fs fe ->
                  fs <= matchStart < fe -> matchEnd <= fe) ->
   Contains snippet
     (substring (Z.to_nat matchStart) (Z.to_nat (matchEnd - matchStart)) text)
   = true).
Proof.
  intros Hfit Hse He Hsnip.
  assert (snippet = window 30 text matchStart matchEnd ->
          len snippet <= matchEnd - matchStart + 106 /\
          Contains snippet
            (substring (Z.to_nat matchStart)
               (Z.to_nat (matchEnd - matchStart)) text) = true) as Hgen.
  { intros ->. split.
    - pose proof (len_window 30 text matchStart matchEnd). lia.
    - apply window_shows; lia. }
  destruct (located_field_cases text) as [(fs & fe & Hfield)|Hno].
  2:{ rewrite extractContext_unlocated in Hsnip by done.
      injection Hsnip as <-.
      destruct (Hgen eq_refl) as [H1 H2]. by split. }
  rewrite (extractContext_located text fs fe) in Hsnip by done.
  destruct (Z.geb_spec matchStart fs) as [Hge|Hlt]; cbn [andb] in Hsnip.
  2:{ injection Hsnip as <-.
      destruct (Hgen eq_refl) as [H1 H2]. by split. }
  destruct (Z.ltb_spec matchStart fe) as [Hin|Hout].
  2:{ injection Hsnip as <-.
      destruct (Hgen eq_refl) as [H1 H2]. by split. }
  injection Hsnip as <-.
  destruct Hfield as (i & j & Hi & Hfs & Hj & Hfe).
  pose proof (StringFacts.first_occurrence_fits _ _ _ Hi) as Hifit.
  pose proof (StringFacts.first_occurrence_fits _ _ _ Hj) as Hjfit.
  rewrite StringFacts.length_drop_bytes in Hjfit.
  assert (Z.of_nat (String.length content_key) = 11) as Hk by reflexivity.
  assert (Z.of_nat (String.length dquote) = 1) as Hq by reflexivity.
  rewrite len_content_key in Hfs. unfold len in He.
  assert (len (field_text text fs fe) = fe - fs) as Hflen.
  { unfold field_text. apply StringFacts.len_slice; unfold len; lia. }
  split.
  - pose proof (len_window 50 (field_text text fs fe)
                  (matchStart - fs) (matchEnd - fs)). lia.
  - intros Hinside.
    assert (matchEnd <= fe) as Hend.
    { apply (Hinside fs fe); [|lia]. exists i, j. rewrite len_content_key.
      repeat split; try apply Hi; try apply Hj; lia. }
    assert (substring (Z.to_nat matchStart)
              (Z.to_nat (matchEnd - matchStart)) text
            = substring (Z.to_nat (matchStart - fs))
                (Z.to_nat (matchEnd - fs - (matchStart - fs)))
                (field_text text fs fe)) as ->.
    { unfold field_text. rewrite substring_substring by lia.
      f_equal; lia. }
    apply window_shows; lia.
Qed.

End SnippetProperties.

(** ** The text of the preview *)

Section WrapProperties.
Import Search Strings StringsLib UiText WrapFacts.
Local Open Scope Z_scope.

(** X15. wrapText with a width that is not positive returns the text as one
    line. With a positive width it returns the words of the text (what
    strings.Fields makes of it), none lost, repeated or moved, in lines of
    words joined by one space: no line is empty; every line fits the width
    unless it is a single word, which is never cut; and every line is
    full, the first word of the next line would not have fitted at its
    end. A text without words gives no line. *)
Theorem wrapText_fills_lines_with_whole_words (text : string) (width : Z) :
  (width <= 0 -> wrapText text width = [text]) /\
  (0 < width ->
   exists groups,
     wrapText text width = line_of <$> groups /\
     concat groups = StringsFields.Fields text /\
     Forall (fun group => group <> [] /\ fits width group) groups /\
     greedy width groups).
Proof.
  unfold wrapText. split.
  - intros Hw. by destruct (Z.leb_spec width 0); [|lia].
  - intros Hw. destruct (Z.leb_spec width 0); [lia|].
    pose proof (FieldsFacts.Fields_nonempty text) as Hwords.
    destruct (StringsFields.Fields text) as [|word rest].
    + exists []. repeat split; constructor.
    + apply Forall_cons in Hwords as [Hword Hrest].
      change (slice_len (word :: rest) =? 0) with false.
      cbn [fold_left]. unfold wrap_word at 2. cbn [String.eqb].
      pose proof (fold_wrap width rest [] word Hword Hrest) as Hfold.
      destruct (fold_left _ _ _) as [lines cur]. rewrite Hfold. cbn [app].
      destruct (wrap_from_groups width rest [word])
        as (more & groups & Heq & Hcat & Hall & Hg); [done|by right|].
      exists (([word] ++ more) :: groups).
      rewrite <- Heq. by rewrite line_of_one.
Qed.

End WrapProperties.

Section HighlightProperties.
Import Search Highlight Utf8 HighlightFacts.
Local Open Scope Z_scope.

(** X16. For a text that is valid UTF-8, HighlightText returns the text with
    the characters at the listed positions passed through the style and
    every other byte as it is. The positions count characters, not bytes;
    a position that is negative, past the end or listed twice changes
    nothing. *)
Theorem HighlightText_styles_the_listed_characters
        (text : string) (indices : list Z)
        (highlightStyle : string -> string) :
  ValidString text = true ->
  HighlightText text indices highlightStyle
  = marked indices highlightStyle (chars text) /\
  String.concat "" (chars text) = text.
Proof.
  intros Hvalid. split; [|apply concat_chars].
  unfold HighlightText. destruct indices as [|idx rest].
  - change (slice_len [] =? 0) with true. cbn iota.
    by rewrite marked_nil, concat_chars.
  - change (slice_len (idx :: rest) =? 0) with false. cbn iota.
    unfold runes. rewrite write_runes_pieces by by apply decode_encoded.
    rewrite BytesFacts.append_nil_l. unfold marked, chars. f_equal.
    apply imap_ext. intros k bytes Hk. cbn beta. rewrite Z.add_0_l.
    rewrite index_map_lookup.
    apply lookup_lt_Some in Hk. rewrite length_fmap in Hk.
    unfold slice_len. rewrite length_fmap.
    destruct (Z.ltb_spec (Z.of_nat k) (Z.of_nat (length (decode text))));
      [|lia].
    by rewrite andb_true_r.
Qed.

End HighlightProperties.

(** ** The application: Update, the selection, the search command *)

Section UiProperties.
Import Search Engine Ui UiFacts UpdateFacts GoInt GoIntFacts.
Local Open Scope Z_scope.

Context {Time TextInput KeyMsg InputCmd : Type}.
Variable textinput_Update : TextInput -> KeyMsg -> TextInput * InputCmd.
Variable textinput_Value : TextInput -> string.
Variable textinput_Focus : TextInput -> TextInput.
Variable textinput_Blur : TextInput -> TextInput.
Variable textinput_SetValue : TextInput -> string -> TextInput.
Variable textinput_New : TextInput.
Variable KeyMsg_String : KeyMsg -> string.
Variable sort_Slice :
  (SessionInfo Time -> SessionInfo Time -> bool) ->
  list (SessionInfo Time) -> list (SessionInfo Time).
Variable time_After : Time -> Time -> bool.
Variable time_zero : Time.
Variable exec_LookPath : string -> bool.
Variable clipboard_Copy : string -> option error.
Variable error_Error : error -> string.
Variable exec_Output : string -> list string -> string * option error.
Variable json_Unmarshal : string -> option (gmap string iface).
Variable time_Format : Time -> string -> string.
Variable fuzzy_FindFrom : string -> list string -> list fuzzy.Match.

Local Abbreviation Model := (@Ui.Model Time TextInput).
Local Abbreviation Msg := (@Ui.Msg Time KeyMsg).
Local Abbreviation Cmd := (@Ui.Cmd InputCmd).
Local Abbreviation Update :=
  (@Ui.Update Time TextInput KeyMsg InputCmd textinput_Update textinput_Value
     textinput_Focus textinput_Blur textinput_SetValue KeyMsg_String
     sort_Slice time_After exec_LookPath clipboard_Copy error_Error).
Local Abbreviation NewApp :=
  (@Ui.NewApp Time TextInput textinput_New time_zero).
Local Abbreviation updates :=
  (@Ui.updates Time TextInput KeyMsg InputCmd textinput_Update textinput_Value
     textinput_Focus textinput_Blur textinput_SetValue KeyMsg_String
     sort_Slice time_After exec_LookPath clipboard_Copy error_Error).
Local Abbreviation performSearch_always :=
  (@UiSearch.performSearch_always Time TextInput KeyMsg exec_Output
     json_Unmarshal time_Format fuzzy_FindFrom).
Local Abbreviation searchFile :=
  (Search.searchFile exec_Output json_Unmarshal
     (NewContentEngine exec_LookPath)).
Local Abbreviation updates_ok :=
  (UpdateFacts.updates_ok textinput_Update textinput_Value textinput_Focus
     textinput_Blur textinput_SetValue KeyMsg_String sort_Slice time_After
     exec_LookPath clipboard_Copy error_Error).
Local Abbreviation updates_engine_ok :=
  (UpdateFacts.updates_engine_ok textinput_Update textinput_Value
     textinput_Focus textinput_Blur textinput_SetValue KeyMsg_String
     sort_Slice time_After exec_LookPath clipboard_Copy error_Error).
Local Abbreviation NewApp_engine_ok :=
  (UpdateFacts.NewApp_engine_ok textinput_New time_zero exec_LookPath).
Local Abbreviation sessions_of_results :=
  (UpdateFacts.sessions_of_results exec_LookPath exec_Output json_Unmarshal).



(** X19. Update never indexes a list out of its range: started from the model
    of NewApp, whatever messages come in whatever order, as long as the
    indexes of search results are not negative, every call of Update
    returns, and the selection is never negative. *)
Theorem Update_never_panics
        (claudeDir version : string) (msgs : list (Time * Msg)) :
  Forall (fun timed => msg_ok (snd timed)) msgs ->
  exists m,
    updates msgs (NewApp claudeDir version) = Some m /\ 0 <= selected m.
Proof.
  intros Hmsgs.
  destruct (updates_ok msgs (NewApp claudeDir version))
    as (m & Hm & Hsel); [cbn; unfold max_int; lia|exact Hmsgs|].
  exists m. split; [exact Hm|lia].
Qed.

(** X20. A search that ends before the model changes again lists sessions of
    the model in whose files searchFile found matches for the query the
    command searched for, or, after the timeout, leaves the list as it
    is and shows the error. The query searched for is the one the model
    held when the search was called; the message carries the one the
    model holds when the search returns, and Update compares only that
    one with the model. The command panics only if searchFile does. *)
Theorem finished_search_lists_the_sessions_with_matches
        (claudeDir version : string) (msgs : list (Time * Msg))
        (m : Model) (reads : nat -> Model) (now : Time) :
  updates msgs (NewApp claudeDir version) = Some m ->
  sessions m <> [] ->
  (forall k, searchEngine (reads k) = searchEngine m) ->
  searchQuery (reads 1%nat) <> ""%string ->
  searchQuery (reads 4%nat) = searchQuery m ->
  performSearch_always reads
    (fun msg =>
       match msg with
       | None =>
           exists session,
             session ∈ sessions m /\
             searchFile (searchQuery (reads 3%nat)) (FilePath session) = None
       | Some msg =>
           exists m' cmd,
             Update now m msg = Some (m', cmd) /\
             ((statusMsg m'
               = "Search error: " +:+ error_Error DeadlineExceeded /\
               filteredSessions m' = filteredSessions m)
              \/
              Forall (fun session =>
                        session ∈ sessions m /\
                        exists matches,
                          searchFile (searchQuery (reads 3%nat))
                            (FilePath session) = Some (matches, None) /\
                          matches <> [])
                     (filteredSessions m'))
       end).
Proof.
  intros Hm Hne Hengine Hq1 Hq4.
  pose proof (updates_engine_ok msgs _ m (NewApp_engine_ok claudeDir version)
                Hm) as Hok.
  unfold UpdateFacts.engine_ok in Hok. unfold UiSearch.performSearch_always.
  rewrite !Hengine.
  destruct (searchEngine m) as [e|]; [|done].
  destruct Hok as [Hc [Hnil|Hs]]; [done|].
  destruct (String.eqb_spec (searchQuery (reads 1%nat)) "") as [|_]; [done|].
  unfold Search_always. cbn. rewrite Hc, Hs, Hq4.
  unfold Search.SearchContent_always.
  eapply ContentFacts.ends_with_mono;
    [|apply OutcomeFacts.SearchContent_outcomes].
  intros o [(ctx & Hctx & Hout) Hexp].
  destruct o as [results [e'|]|].
  - destruct Hout as (-> & _ & ->).
    destruct Hctx as [[=]|(e'' & [= <-] & [= <-])].
    cbn [Ui.Update]. unfold eqs. rewrite String.eqb_refl. cbn.
    eexists _, _. split; [reflexivity|]. by left.
  - destruct (sessions_of_results (searchQuery (reads 3%nat)) (sessions m)
                results (Hexp _ _ eq_refl)) as [Hidx Hall].
    cbn [Ui.Update]. unfold eqs. rewrite String.eqb_refl.
    cbn [negb sessions set_searchResults].
    rewrite (filter_sessions_omap (sessions m) results []) by exact Hidx.
    cbn [app mbind option_bind].
    set (filtered := omap _ results) in *.
    destruct filtered as [|first rest].
    + eexists _, _. split; [reflexivity|]. right. cbn. done.
    + eexists _, _. split; [reflexivity|]. right. cbn. done.
  - destruct Hout as (i & session & Hs' & Hsf).
    exists session. split; [by eapply list_elem_of_lookup_2|done].
Qed.

(** X21. When the query has been emptied by the time the command tests it,
    the command returns an empty result under the query the model holds
    then; if that is still the query of the model, Update takes the
    message for the answer to it: it empties the list of sessions and
    reports that nothing matches. *)
Theorem search_command_after_emptied_query_empties_the_list
        (m : Model) (reads : nat -> Model) (now : Time) :
  is_Some (searchEngine (reads 0%nat)) ->
  searchQuery (reads 1%nat) = ""%string ->
  searchQuery (reads 2%nat) = searchQuery m ->
  performSearch_always reads
    (fun msg =>
       exists msg' m',
         msg = Some msg' /\
         Update now m msg' = Some (m', CmdNil) /\
         filteredSessions m' = [] /\
         searchResults m' = [] /\
         statusMsg m' = "No matches found for '" +:+ searchQuery m +:+ "'").
Proof.
  intros [e He] Hq1 Hq2. unfold UiSearch.performSearch_always.
  rewrite He, Hq1, Hq2. cbn [String.eqb].
  eexists _, _. split; [reflexivity|].
  cbn [Ui.Update]. unfold eqs. rewrite String.eqb_refl. cbn.
  by repeat split.
Qed.

End UiProperties.


(* ===================================================================== *)
(** ** Instances in the concrete worlds *)
(* ===================================================================== *)

Section SearchInstances.
Import Example Strings Extract ExtractFacts.

Lemma delivered_lines_witness :
  searchFile tool decode engine "OAuth" "/s/oauth.jsonl"
  = (fun found => (concat found, None))
      <$> mapM (SearchFileFacts.line_matches decode)
            [begin_line; match_line; noise_line; end_line] /\
  SearchFileFacts.line_matches decode noise_line = Some [] /\
  SearchFileFacts.line_matches decode begin_line = Some [] /\
  SearchFileFacts.line_matches decode match_line = Some [oauth_match].
Proof.
  destruct (searchFile_parses_the_delivered_lines tool decode)
    as (Hfile & _ & Hskip & Hother & _ & Hmatch).
  split; [|split; [|split]].
  - apply (Hfile engine "OAuth"%string "/s/oauth.jsonl"%string rg_output).
    reflexivity.
  - apply Hskip. reflexivity.
  - apply (Hother begin_line {[ "type"%string := IString "begin" ]});
      [reflexivity|]. vm_compute. discriminate.
  - apply (Hmatch match_line match_value 1%float example_line 60%float 65%float
             "I need help with OAuth implementation"%string).
    + reflexivity.
    + split; [reflexivity|].
      eexists _, _, _, _. repeat split; reflexivity.
    + vm_compute. reflexivity.
Defined.

Lemma straddling_field : located_field straddling_line 12 18.
Proof.
  exists 1%nat, 6%nat.
  split; [apply StringFacts.index_nat_first; vm_compute; reflexivity|].
  split; [reflexivity|].
  split; [apply StringFacts.index_nat_first; vm_compute; reflexivity|].
  reflexivity.
Qed.

(** A match that starts inside the located field and ends after it is
    not inside the field's span, and yet the code returns the window within
    the field, not the window of 30 bytes over the whole line (here the
    whole line). *)
Example match_running_past_the_field :
  located_field straddling_line 12 18 /\
  (0 <= 16 <= 19 /\ 19 <= len straddling_line)%Z /\
  ~ (12 <= 16 /\ 19 <= 18)%Z /\
  extractContext straddling_line 16 19 = Some "please"%string /\
  extractContext straddling_line 16 19
  <> Some (window 30 straddling_line 16 19).
Proof.
  split; [apply straddling_field|].
  split; [vm_compute; repeat split; discriminate|].
  split; [lia|]. split; vm_compute; [reflexivity|discriminate].
Qed.

Lemma extractContext_windows_witness :
  extractContext straddling_line 16 19
  = Some (window 50 (field_text straddling_line 12 18) (16 - 12) (19 - 12)).
Proof.
  apply (proj1 extractContext_windows straddling_line 16 19 12 18)%Z.
  - vm_compute. discriminate.
  - lia.
  - vm_compute. discriminate.
  - apply straddling_field.
  - lia.
Defined.

End SearchInstances.

Section PropertyInstances.
Import Example ExampleFiles ExampleUi Strings Extract Engine Ui.

Lemma GetSessionID_witness :
  Model.GetSessionID (projects +:+ "/" +:+ "a1" +:+ ".jsonl") = "a1"%string /\
  Model.GetSessionID ("a1" +:+ ".jsonl") = "a1"%string /\
  ("a1"%string <> ""%string -> StringsLib.HasSuffix "a1" ".jsonl" = false ->
   Model.GetSessionID "a1" = "a1"%string).
Proof.
  apply (GetSessionID_strips_directory_and_suffix projects "a1").
  reflexivity.
Defined.

Lemma plain_names :
  Forall (fun entry => ParserFacts.plain_name (entry_Name entry)) listing.
Proof. repeat constructor; discriminate. Qed.

Lemma ListSessions_witness :
  exists sessions,
    Parser.ListSessions read_dir projects = (sessions, None) /\
    sessions = omap (ParserFacts.session_of projects) listing /\
    NoDup (ID <$> sessions) /\
    Forall (fun session =>
              Model.GetSessionID (FilePath session) = ID session) sessions.
Proof.
  apply (ListSessions_lists_each_transcript_once read_dir projects listing).
  - reflexivity.
  - exact plain_names.
  - apply (bool_decide_unpack (NoDup (entry_Name <$> listing))).
    vm_compute. exact I.
Defined.

Lemma ParseFullSession_keeps_ID_witness :
  Model.ID a1_parsed = ID a1 /\
  Model.FilePath a1_parsed = FilePath a1 /\
  Model.GetResumeCommand a1_parsed = "claude --resume " +:+ ID a1.
Proof.
  apply (ParseFullSession_keeps_the_listed_ID read_dir open_file decode trim
           parse_time tt projects listing a1 a1_parsed).
  - reflexivity.
  - exact plain_names.
  - vm_compute. apply list_elem_of_here.
  - vm_compute. reflexivity.
Defined.

Lemma hasJSONLFiles_witness : Main.hasJSONLFiles read_dir projects = true.
Proof.
  apply (hasJSONLFiles_agrees_with_ListSessions read_dir projects).
  vm_compute. discriminate.
Defined.

Lemma ParseFullSession_summary_witness :
  exists full,
    Parser.ParseFullSession open_file decode trim parse_time tt
      (projects +:+ "/a1.jsonl") = Some (inl full) /\
    Model.Summary full
    = StringsLib.Join
        (ParseFacts.shortened <$>
           ParseFacts.last_three
             (omap (ParseFacts.user_text decode trim)
                (bufioMax.ScanLines (1024 * 1024) transcript)))
        " | " /\
    (len (Model.Summary full) <= 456)%Z.
Proof.
  apply (ParseFullSession_summary_of_last_three open_file decode trim
           parse_time tt (projects +:+ "/a1.jsonl") transcript).
  - reflexivity.
  - vm_compute. discriminate.
Defined.

Lemma ParseFullSession_lines_witness :
  exists full,
    Parser.ParseFullSession open_file decode trim parse_time tt
      (projects +:+ "/a1.jsonl") = Some (inl full) /\
    Model.ID full = Model.GetSessionID (projects +:+ "/a1.jsonl") /\
    Model.FilePath full = projects +:+ "/a1.jsonl" /\
    Model.MessageCount full
    = Z.of_nat (ParseFacts.messages decode
                  (bufioMax.ScanLines (1024 * 1024) transcript)) /\
    Model.LastRawMessages full
    = option_list
        (last (filter (fun line => line <> ""%string)
                 (bufioMax.ScanLines (1024 * 1024) transcript))) /\
    Model.LastActive full
    = default tt
        (last (omap (ParseFacts.stamp decode parse_time)
                 (bufioMax.ScanLines (1024 * 1024) transcript))) /\
    Model.TotalCostUSD full
    = fold_left PrimFloat.add
        (omap (ParseFacts.cost decode)
           (bufioMax.ScanLines (1024 * 1024) transcript)) 0%float.
Proof.
  apply (ParseFullSession_reads_line_by_line open_file decode trim
           parse_time tt (projects +:+ "/a1.jsonl")).
  - reflexivity.
  - vm_compute. discriminate.
Defined.

Lemma long_line_is_long : (1024 * 1024 <= len long_line)%Z.
Proof. unfold long_line. rewrite LongLines.len_doubled. vm_compute. discriminate. Qed.

Lemma long_line_is_one_line : Contains long_line ScannerCut.newline = false.
Proof. by apply LongLines.Contains_doubled. Qed.

Lemma ParseFullSession_overlong_witness :
  Parser.ParseFullSession open_long decode trim parse_time tt "a1.jsonl"
  = Parser.ParseFullSession open_cut decode trim parse_time tt "a1.jsonl".
Proof.
  apply (ParseFullSession_stops_at_an_overlong_line open_long decode trim
           parse_time tt open_cut "a1.jsonl" (user_line +:+ nl) long_line
           long_file).
  - right. by exists user_line.
  - exact long_line_is_one_line.
  - exact long_line_is_long.
  - apply ScannerCut.overlong_last.
  - reflexivity.
  - reflexivity.
Defined.

Lemma searchFile_overlong_witness :
  searchFile mib_tool Example.decode one_worker "OAuth" "/s/oauth.jsonl"
  = searchFile tool Example.decode one_worker "OAuth" "/s/oauth.jsonl".
Proof.
  apply (searchFile_stops_at_an_overlong_line mib_tool Example.decode tool
           one_worker "OAuth" "/s/oauth.jsonl" rg_output long_line
           (rg_output +:+ long_line)).
  - right. by exists (begin_line +:+ nl +:+ match_line +:+ nl +:+ noise_line
                       +:+ nl +:+ end_line).
  - exact long_line_is_one_line.
  - pose proof long_line_is_long. lia.
  - apply ScannerCut.overlong_last.
  - reflexivity.
  - reflexivity.
Defined.

Lemma extractContext_snippet_witness :
  (len "I need help with OAuth implementation" <= (65 - 60) + 106)%Z /\
  ((forall fs fe, Extract.located_field example_line fs fe ->
                  (fs <= 60 < fe)%Z -> (65 <= fe)%Z) ->
   Contains "I need help with OAuth implementation"
     (substring (Z.to_nat 60) (Z.to_nat (65 - 60)) example_line) = true).
Proof.
  apply (extractContext_snippet_is_short_and_shows_the_match example_line
           60 65 "I need help with OAuth implementation").
  - vm_compute. discriminate.
  - lia.
  - vm_compute. discriminate.
  - reflexivity.
Defined.

Lemma wrapText_witness :
  exists groups,
    UiText.wrapText "fix the  login page of the application" 12
      = WrapFacts.line_of <$> groups /\
    concat groups
      = StringsFields.Fields "fix the  login page of the application" /\
    Forall (fun group => group <> [] /\ WrapFacts.fits 12 group) groups /\
    WrapFacts.greedy 12 groups.
Proof.
  apply (wrapText_fills_lines_with_whole_words
           "fix the  login page of the application" 12).
  reflexivity.
Defined.

Lemma HighlightText_witness :
  Highlight.HighlightText deja_vu [1; 7; -1; 1]%Z bracketed
  = HighlightFacts.marked [1; 7; -1; 1]%Z bracketed
      (HighlightFacts.chars deja_vu) /\
  String.concat "" (HighlightFacts.chars deja_vu) = deja_vu.
Proof.
  apply (HighlightText_styles_the_listed_characters deja_vu).
  reflexivity.
Defined.



Lemma Update_never_panics_witness :
  exists m,
    updates type_key value focus focus set_value key_name sorted after
      rg_on_path copy describe browsing
      (NewApp ""%string tt "/home/u/.claude/projects/-home-u-app" "1.0")
    = Some m /\
    (0 <= selected m)%Z.
Proof.
  apply (Update_never_panics type_key value focus focus set_value ""%string
           key_name sorted after tt rg_on_path copy describe
           "/home/u/.claude/projects/-home-u-app" "1.0" browsing).
  repeat constructor. vm_compute. discriminate.
Defined.

Lemma finished_search_witness :
  UiSearch.performSearch_always tool Example.decode no_format matcher
    (fun _ => searching)
    (fun msg =>
       match msg with
       | None =>
           exists session,
             session ∈ sessions searching /\
             searchFile tool Example.decode (NewContentEngine rg_on_path)
               (searchQuery searching) (FilePath session) = None
       | Some msg =>
           exists m' cmd,
             Update type_key value focus focus set_value key_name sorted
               after rg_on_path copy describe tt searching msg
             = Some (m', cmd) /\
             ((statusMsg m'
               = "Search error: " +:+ describe DeadlineExceeded /\
               filteredSessions m' = filteredSessions searching)
              \/
              Forall (fun session =>
                        session ∈ sessions searching /\
                        exists matches,
                          searchFile tool Example.decode
                            (NewContentEngine rg_on_path)
                            (searchQuery searching) (FilePath session)
                          = Some (matches, None) /\
                          matches <> [])
                     (filteredSessions m'))
       end).
Proof.
  apply (finished_search_lists_the_sessions_with_matches type_key value
           focus focus set_value ""%string key_name sorted after tt
           rg_on_path copy describe tool Example.decode no_format
           matcher "/home/u/.claude/projects/-home-u-app" "1.0" typing
           searching (fun _ => searching) tt).
  - vm_compute. reflexivity.
  - vm_compute. discriminate.
  - intros k. reflexivity.
  - vm_compute. discriminate.
  - reflexivity.
Defined.

Lemma emptied_query_witness :
  UiSearch.performSearch_always tool Example.decode no_format matcher
    overtaken
    (fun msg =>
       exists msg' m',
         msg = Some msg' /\
         Update type_key value focus focus set_value key_name sorted after
           rg_on_path copy describe tt cleared msg'
         = Some (m', CmdNil) /\
         filteredSessions m' = [] /\
         searchResults m' = [] /\
         statusMsg m'
         = "No matches found for '" +:+ searchQuery cleared +:+ "'").
Proof.
  apply (search_command_after_emptied_query_empties_the_list type_key value
           focus focus set_value key_name sorted after rg_on_path copy
           describe tool Example.decode no_format matcher cleared
           overtaken tt).
  - vm_compute. by eexists.
  - vm_compute. reflexivity.
  - reflexivity.
Defined.

End PropertyInstances.
